(** * gog-unpacker: manifest generation and destination metadata

    A shallow embedding of [services/manifest_generator.py], of the
    metadata helpers of [utils.py], of the manifest consumer of
    [unpack.py] and of the log rotation of [logger.py], with the
    properties of the specification stated over it, and further
    properties of the code after them.

    Conventions.
    - A Python [str] is a [list ascii], a string of code points below
      256; the character classes [\s], [\w], [\d] and the case mapping
      are those of Python on these code points.
    - A Python [dict] is an association list in insertion order.
    - The operating system, the regular-expression compiler applied to
      patterns built at run time and the GOGDB database are an explicit
      environment [Env]; every function that touches them takes it.
    - Logging and the manifest file are a trace of events; an exception
      is the [Raise] outcome of a computation. *)

From Stdlib Require Import String Ascii ZArith Lia Bool Arith PeanoNat Sorted Permutation List.
Import ListNotations.

Set Implicit Arguments.
Local Open Scope list_scope.

(** ** Python strings *)

Module PyStr.

Definition str := list ascii.

(** A literal of the source text. *)
Definition txt (s : string) : str := list_ascii_of_string s.

Definition code (c : ascii) : nat := nat_of_ascii c.

Definition LF : ascii := ascii_of_nat 10.
Definition CR : ascii := ascii_of_nat 13.
Definition DQUOTE : ascii := ascii_of_nat 34.

Definition str_dec (a b : str) : {a = b} + {a <> b} := list_eq_dec ascii_dec a b.

(** [a == b] *)
Definition str_eqb (a b : str) : bool :=
  if str_dec a b then true else false.

Definition between (lo hi : nat) (c : ascii) : bool :=
  (lo <=? code c) && (code c <=? hi).

(** [str.isspace] on one character, which is also the class [\s]:
    TAB..CR, FS..US, the space, the next-line control 133 and the
    no-break space 160. *)
Definition is_space (c : ascii) : bool :=
  between 9 13 c || between 28 32 c || (code c =? 133) || (code c =? 160).
Definition is_digit (c : ascii) : bool := between 48 57 c.
Definition is_upper (c : ascii) : bool := between 65 90 c.
Definition is_lower (c : ascii) : bool := between 97 122 c.
Definition is_alpha (c : ascii) : bool := is_upper c || is_lower c.
Definition is_alnum (c : ascii) : bool := is_alpha c || is_digit c.
(** The letters and numbers between the code points 128 and 255
    ([str.isalnum] there). *)
Definition is_high_alnum (c : ascii) : bool :=
  existsb (Nat.eqb (code c)) [170; 178; 179; 181; 185; 186]
  || between 188 190 c || between 192 214 c || between 216 246 c || between 248 255 c.
(** The class [\w]. *)
Definition is_word (c : ascii) : bool := is_alnum c || Ascii.eqb c "_" || is_high_alnum c.

(** The characters that have a case. *)
Definition is_cased (c : ascii) : bool :=
  is_alpha c || existsb (Nat.eqb (code c)) [170; 181; 186]
  || between 192 214 c || between 216 246 c || between 248 255 c.

(** The lower case of one character. *)
Definition lower_char (c : ascii) : ascii :=
  if is_upper c || between 192 214 c || between 216 222 c
  then ascii_of_nat (code c + 32) else c.
(** The title case of one character.  That of the sharp s, 223, is
    [Ss]; those of the micro sign, 181, and of the y with diaeresis,
    255, lie beyond the code point 255, and the character is kept. *)
Definition title_char (c : ascii) : str :=
  if code c =? 223 then txt "Ss"
  else if is_lower c || between 224 246 c || between 248 254 c
       then [ascii_of_nat (code c - 32)] else [c].

(** [s.lower()] *)
Definition lower (s : str) : str := map lower_char s.

Fixpoint drop_while (p : ascii -> bool) (s : str) : str :=
  match s with
  | [] => []
  | c :: s' => if p c then drop_while p s' else s
  end.

(** [s.lstrip()], [s.rstrip()], [s.strip()] *)
Definition lstrip (s : str) : str := drop_while is_space s.
Definition rstrip (s : str) : str := rev (drop_while is_space (rev s)).
Definition strip (s : str) : str := rstrip (lstrip s).

(** [s.strip(chars)] *)
Definition strip_chars (chars : str) (s : str) : str :=
  let p c := existsb (Ascii.eqb c) chars in
  rev (drop_while p (rev (drop_while p s))).

(** [s.startswith(p)]; on success the rest of [s] is returned. *)
Fixpoint strip_prefix (p s : str) : option str :=
  match p, s with
  | [], _ => Some s
  | a :: p', b :: s' => if Ascii.eqb a b then strip_prefix p' s' else None
  | _ :: _, [] => None
  end.

Definition startswith (s p : str) : bool :=
  match strip_prefix p s with Some _ => true | None => false end.

(** [s.replace(old, new)] for a non-empty [old]: the occurrences are
    taken from left to right and do not overlap. *)
Fixpoint replace_fuel (fuel : nat) (old new s : str) : str :=
  match fuel with
  | 0 => s
  | S fuel' =>
      match s with
      | [] => []
      | c :: s' =>
          match strip_prefix old s with
          | Some rest => new ++ replace_fuel fuel' old new rest
          | None => c :: replace_fuel fuel' old new s'
          end
      end
  end.

Definition replace (old new s : str) : str :=
  match old with
  | [] => s
  | _ :: _ => replace_fuel (length s) old new s
  end.

(** [s.split(sep)] for a non-empty [sep]. *)
Fixpoint split_fuel (fuel : nat) (sep : str) (cur : str) (s : str) : list str :=
  match fuel with
  | 0 => [rev cur ++ s]
  | S fuel' =>
      match s with
      | [] => [rev cur]
      | c :: s' =>
          match strip_prefix sep s with
          | Some rest => rev cur :: split_fuel fuel' sep [] rest
          | None => split_fuel fuel' sep (c :: cur) s'
          end
      end
  end.

Definition split (sep s : str) : list str := split_fuel (S (length s)) sep [] s.

(** [s.title()]: a character that follows a cased one is lowered, any
    other is given its title case. *)
Fixpoint title_from (prev_cased : bool) (s : str) : str :=
  match s with
  | [] => []
  | c :: s' =>
      (if prev_cased then [lower_char c] else title_char c) ++ title_from (is_cased c) s'
  end.

Definition title (s : str) : str := title_from false s.

(** [s.encode('ascii', 'ignore').decode('ascii')] *)
Definition ascii_only (s : str) : str := filter (fun c => code c <? 128) s.

(** [int(s)] for a string of decimal digits; [None] stands for
    [ValueError], raised on the empty string. *)
Definition digit_val (c : ascii) : Z := Z.of_nat (code c - 48).

Definition int_of_digits (s : str) : option Z :=
  match s with
  | [] => None
  | _ :: _ =>
      if forallb is_digit s
      then Some (fold_left (fun acc c => (10 * acc + digit_val c)%Z) s 0%Z)
      else None
  end.

(** Text-mode reading: [\r\n] and [\r] become [\n]. *)
Fixpoint universal_newlines (s : str) : str :=
  match s with
  | [] => []
  | c :: s' =>
      if Ascii.eqb c CR
      then LF :: match s' with
                 | d :: s'' => if Ascii.eqb d LF then universal_newlines s''
                               else universal_newlines s'
                 | [] => []
                 end
      else c :: universal_newlines s'
  end.

(** The lines of a text, each with its terminating [\n] when it has one
    ([f.readlines()], [for line in f]). *)
Fixpoint lines_from (cur : str) (s : str) : list str :=
  match s with
  | [] => match cur with [] => [] | _ :: _ => [rev cur] end
  | c :: s' =>
      if Ascii.eqb c LF then rev (c :: cur) :: lines_from [] s'
      else lines_from (c :: cur) s'
  end.

Definition readlines (content : str) : list str :=
  lines_from [] (universal_newlines content).

End PyStr.
Import PyStr.


(** ** Regular expressions

    Python's [re] is a backtracking matcher: alternatives are tried from
    left to right, a greedy repetition tries the longest run first, and
    the first complete match wins.  [run] is that matcher in
    continuation-passing style. *)

Module Re.

Inductive regex : Type :=
| Eps
| Chr (p : ascii -> bool)            (* a literal, a class or [.] *)
| Cat (r1 r2 : regex)
| Alt (r1 r2 : regex)
| Star (greedy : bool) (r : regex)   (* [r*] and [r*?] *)
| Group (n : nat) (r : regex)        (* the n-th capturing group *)
| Bol                                (* [^] *)
| Eol.                               (* [$] *)

Definition Plus (greedy : bool) (r : regex) : regex := Cat r (Star greedy r).
Definition Opt (r : regex) : regex := Alt r Eps.

(** A literal string; [Lit_i] is the same under [re.IGNORECASE]. *)
Definition Lit (s : str) : regex :=
  fold_right (fun c r => Cat (Chr (Ascii.eqb c)) r) Eps s.
Definition Lit_i (s : str) : regex :=
  fold_right (fun c r => Cat (Chr (fun x => Ascii.eqb (lower_char x) (lower_char c))) r) Eps s.

(** [.] matches anything but a newline. *)
Definition not_newline (c : ascii) : bool := negb (Ascii.eqb c LF).
Definition Dot : regex := Chr not_newline.

Definition one_of (chars : str) (c : ascii) : bool := existsb (Ascii.eqb c) chars.

(** The text captured by each group that took part in the match. *)
Definition captures := list (nat * str).

Fixpoint group (n : nat) (g : captures) : option str :=
  match g with
  | [] => None
  | (m, s) :: g' => if Nat.eqb n m then Some s else group n g'
  end.

(** The continuation receives whether the cursor is still at the start
    of the subject, the unread input and the captures. *)
Definition cont (A : Type) := bool -> str -> captures -> option A.

(** The repetition of one step.  The greedy loop tries one more
    iteration before it lets the continuation run, the lazy loop does the
    reverse; an iteration that reads nothing is not repeated. *)
Section StarLoop.
Variable A : Type.
Variable step : bool -> str -> captures -> cont A -> option A.
Variable greedy : bool.
Variable k : cont A.

Fixpoint star_loop (fuel : nat) (b : bool) (s : str) (g : captures) {struct fuel}
  : option A :=
  let again (_ : unit) :=
    match fuel with
    | 0 => None
    | S fuel' =>
        step b s g
             (fun b' s' g' =>
                if length s' <? length s then star_loop fuel' b' s' g' else None)
    end in
  if greedy
  then match again tt with Some a => Some a | None => k b s g end
  else match k b s g with Some a => Some a | None => again tt end.
End StarLoop.

(** [$]: the end of the subject, or just before its final newline. *)
Definition dollar (s : str) : bool :=
  match s with
  | [] => true
  | c :: [] => Ascii.eqb c LF
  | _ :: _ :: _ => false
  end.

Fixpoint run {A : Type} (r : regex) (bos : bool) (s : str) (g : captures)
         (k : cont A) {struct r} : option A :=
  match r with
  | Eps => k bos s g
  | Chr p =>
      match s with
      | c :: s' => if p c then k false s' g else None
      | [] => None
      end
  | Cat r1 r2 => run r1 bos s g (fun b' s' g' => run r2 b' s' g' k)
  | Alt r1 r2 =>
      match run r1 bos s g k with
      | Some a => Some a
      | None => run r2 bos s g k
      end
  | Star greedy r1 => star_loop (run r1) greedy k (length s) bos s g
  | Group n r1 =>
      run r1 bos s g
          (fun b' s' g' => k b' s' ((n, firstn (length s - length s') s) :: g'))
  | Bol => if bos then k bos s g else None
  | Eol => if dollar s then k bos s g else None
  end.

(** Whether a match was found. *)
Definition found {A : Type} (o : option A) : bool :=
  match o with Some _ => true | None => false end.

(** A match object: the captures and the input left after the match. *)
Record match_obj : Type := MatchObj { m_groups : captures; m_rest : str }.

Definition accept : cont match_obj := fun _ s g => Some (MatchObj g s).

(** [re.match(r, s)]: a match that starts at the start of [s]. *)
Definition re_match (r : regex) (s : str) : option match_obj :=
  run r true s [] accept.

(** [re.fullmatch(r, s)]: a match that is the whole of [s]. *)
Definition re_fullmatch (r : regex) (s : str) : option match_obj :=
  run r true s []
      (fun _ s' g => match s' with [] => Some (MatchObj g s') | _ :: _ => None end).

(** [re.search(r, s)]: the leftmost match. *)
Fixpoint search_from (r : regex) (bos : bool) (s : str) : option match_obj :=
  match run r bos s [] accept with
  | Some m => Some m
  | None =>
      match s with
      | [] => None
      | _ :: s' => search_from r false s'
      end
  end.

Definition re_search (r : regex) (s : str) : option match_obj := search_from r true s.

(** [re.sub(r, repl, s)] for a replacement without group references:
    the matches are replaced from left to right; after an empty match
    one character is copied. *)
Fixpoint sub_from (fuel : nat) (r : regex) (repl : str) (bos : bool) (s : str) : str :=
  match fuel with
  | 0 => s
  | S fuel' =>
      match run r bos s [] accept with
      | Some m =>
          if length (m_rest m) <? length s
          then repl ++ sub_from fuel' r repl false (m_rest m)
          else match s with
               | [] => repl
               | c :: s' => repl ++ c :: sub_from fuel' r repl false s'
               end
      | None =>
          match s with
          | [] => []
          | c :: s' => c :: sub_from fuel' r repl false s'
          end
      end
  end.

Definition re_sub (r : regex) (repl : str) (s : str) : str :=
  sub_from (S (length s)) r repl true s.

(** [m.group(n)] of a group that took part in the match. *)
Definition group_text (n : nat) (m : match_obj) : str :=
  match group n (m_groups m) with Some s => s | None => [] end.

(** [re.escape(s)]: a backslash before each character of
    [()[]{}?*+-|^$\.&~#] and before white space. *)
Definition is_special (c : ascii) : bool :=
  one_of (txt "()[]{}?*+-|^$\.&~# ") c || between 9 13 c.

Definition escape (s : str) : str :=
  flat_map (fun c => if is_special c then ["\"%char; c] else [c]) s.

(** [re.compile] on the patterns that [escape] and a rewriting of [\*]
    into [.*] produce: an escaped character is a literal, [.*] is a
    greedy run of [.], [.] is any character but a newline, any other
    character that is not an operator of the syntax is a literal.
    [None]: the pattern is outside this fragment. *)
Fixpoint compile_escaped (p : str) : option regex :=
  match p with
  | [] => Some Eps
  | c :: p' =>
      if Ascii.eqb c "\" then
        match p' with
        | d :: p'' =>
            if is_alnum d then None
            else option_map (Cat (Chr (Ascii.eqb d))) (compile_escaped p'')
        | [] => None
        end
      else if Ascii.eqb c "." then
        match p' with
        | d :: p'' =>
            if Ascii.eqb d "*"
            then option_map (Cat (Star true Dot)) (compile_escaped p'')
            else option_map (Cat Dot) (compile_escaped p')
        | [] => Some (Cat Dot Eps)
        end
      else if one_of (txt "()[]{}?*+|^$") c then None
      else option_map (Cat (Chr (Ascii.eqb c))) (compile_escaped p')
  end.

End Re.
Import Re.


(** ** [os.path] on POSIX path names *)

Module OsPath.

Definition SEP : ascii := "/"%char.

Definition endswith_sep (a : str) : bool :=
  match rev a with
  | c :: _ => Ascii.eqb c SEP
  | [] => false
  end.

(** [os.path.join(a, b)] *)
Definition join (a b : str) : str :=
  match b with
  | c :: _ =>
      if Ascii.eqb c SEP then b
      else match a with
           | [] => b
           | _ :: _ => if endswith_sep a then a ++ b else a ++ SEP :: b
           end
  | [] =>
      match a with
      | [] => b
      | _ :: _ => if endswith_sep a then a ++ b else a ++ SEP :: b
      end
  end.

Fixpoint take_while (p : ascii -> bool) (s : str) : str :=
  match s with
  | [] => []
  | c :: s' => if p c then c :: take_while p s' else []
  end.

(** [os.path.basename(p)]: what follows the last separator. *)
Definition basename (p : str) : str :=
  rev (take_while (fun c => negb (Ascii.eqb c SEP)) (rev p)).

(** [os.path.splitext(p)[0]] for a name without separator: the name up
    to its last dot, unless only dots come before that dot. *)
Definition splitext_root (p : str) : str :=
  let is_dot c := Ascii.eqb c "." in
  let r := rev p in
  let ext_rev := take_while (fun c => negb (is_dot c)) r in
  match skipn (length ext_rev) r with
  | [] => p                                  (* no dot at all *)
  | _ :: root_rev =>
      if existsb (fun c => negb (is_dot c)) root_rev then rev root_rev else p
  end.

End OsPath.
Import OsPath.

(** ** Python dictionaries and lists *)

Module PyDict.

Section Dict.
Variable V : Type.

Definition dict := list (str * V).

(** [d.get(k)] *)
Fixpoint get (k : str) (d : dict) : option V :=
  match d with
  | [] => None
  | (k', v) :: d' => if str_eqb k k' then Some v else get k d'
  end.

(** [d[k] = v]: a present key keeps its place, a new key goes last. *)
Fixpoint set (k : str) (v : V) (d : dict) : dict :=
  match d with
  | [] => [(k, v)]
  | (k', v') :: d' => if str_eqb k k' then (k', v) :: d' else (k', v') :: set k v d'
  end.

Definition keys (d : dict) : list str := map fst d.
End Dict.

(** [d.setdefault(k, []).append(x)] *)
Definition setdefault_append {X : Type} (k : str) (x : X) (d : dict (list X)) : dict (list X) :=
  match get k d with
  | Some l => set k (l ++ [x]) d
  | None => set k [x] d
  end.

End PyDict.

Module PyList.

Section Sort.
Variables (A K : Type) (ltb : K -> K -> bool) (key : A -> K).

Fixpoint insert (x : A) (l : list A) : list A :=
  match l with
  | [] => [x]
  | y :: l' => if ltb (key y) (key x) then y :: insert x l' else x :: l
  end.

(** A stable sort that only uses [<] on the keys. *)
Definition stable_sort (l : list A) : list A := fold_right insert [] l.

(** [l.sort(key=key, reverse=reverse)]: with [reverse] the list is
    reversed, sorted and reversed again, which keeps elements of
    equal key in their original order. *)
Definition sort (reverse : bool) (l : list A) : list A :=
  if reverse then rev (stable_sort (rev l)) else stable_sort l.
End Sort.

(** Truth value of a list. *)
Definition truthy {A : Type} (l : list A) : bool :=
  match l with [] => false | _ :: _ => true end.

End PyList.

(** ** [repr] and [str] of a list of strings

    Code points below 256; the quote is the double one only when the
    string holds a single quote and no double one. *)

Module PyRepr.

Definition hex_digit (n : nat) : ascii := nth n (txt "0123456789abcdef") "0"%char.

(** A code point that [repr] writes as [\xhh]. *)
Definition unprintable (c : ascii) : bool :=
  (code c <? 32) || between 127 160 c || (code c =? 173).

Definition repr_char (quote : ascii) (c : ascii) : str :=
  if Ascii.eqb c quote || Ascii.eqb c "\" then ["\"%char; c]
  else if code c =? 9 then txt "\t"
  else if Ascii.eqb c LF then txt "\n"
  else if Ascii.eqb c CR then txt "\r"
  else if unprintable c
       then txt "\x" ++ [hex_digit (code c / 16); hex_digit (code c mod 16)]
       else [c].

Definition quote_of (s : str) : ascii :=
  if existsb (Ascii.eqb "'") s && negb (existsb (Ascii.eqb DQUOTE) s)
  then DQUOTE else "'"%char.

(** [repr(s)] *)
Definition repr (s : str) : str :=
  quote_of s :: flat_map (repr_char (quote_of s)) s ++ [quote_of s].

(** [sep.join(l)] *)
Fixpoint join_with (sep : str) (l : list str) : str :=
  match l with
  | [] => []
  | [x] => x
  | x :: l' => x ++ sep ++ join_with sep l'
  end.

(** [str(l)] *)
Definition str_of_list (l : list str) : str :=
  txt "[" ++ join_with (txt ", ") (map repr l) ++ txt "]".

End PyRepr.

(** ** Manifest data, effects and environment *)

(** One value of the manifest dictionary. *)
Record game_record : Type := GameRecord {
  game_name : str;
  game_version : option str;
  source_directory : str;
  destination_directory : str;
  sorted_installers : list str
}.

Definition manifest := PyDict.dict game_record.

Inductive level := DEBUG | INFO | WARNING | ERROR.

Inductive event : Type :=
| Log (lvl : level) (msg : str)
| SavedJson (path : str) (data : manifest)    (* [json.dump] into [path] succeeded *)
| TruncatedJson (path : str).                 (* [path] was opened for writing, which
                                                 empties it, and the dump failed *)

Inductive exn : Type :=
| OSError (path : str)       (* raised by [os.listdir] *)
| ReError (pattern : str)    (* [re.error] raised by [re.compile] *)
| SaveError (path : str).    (* re-raised by [save_json] *)

Inductive result (A : Type) : Type :=
| Ok (a : A)
| Raise (e : exn).
Arguments Ok {A} a.
Arguments Raise {A} e.

(** A computation: the events it emitted and how it ended. *)
Definition M (A : Type) : Type := (list event * result A)%type.

Definition ret {A : Type} (a : A) : M A := ([], Ok a).

Definition bind {A B : Type} (m : M A) (f : A -> M B) : M B :=
  match snd m with
  | Ok a => (fst m ++ fst (f a), snd (f a))
  | Raise e => (fst m, Raise e)
  end.

Definition emit (e : event) : M unit := ([e], Ok tt).
Definition log (lvl : level) (msg : str) : M unit := emit (Log lvl msg).
Definition raise {A : Type} (e : exn) : M A := ([], Raise e).

Declare Scope py_scope.
Delimit Scope py_scope with py.
Notation "x <- m ;; k" := (bind m (fun x => k))
  (at level 61, m at next level, right associativity) : py_scope.
Notation "m ;; k" := (bind m (fun _ => k))
  (at level 61, right associativity) : py_scope.
Local Open Scope py_scope.

(** [for x in l: acc = body(acc, x)] *)
Fixpoint for_each {A S : Type} (l : list A) (acc : S) (body : S -> A -> M S) : M S :=
  match l with
  | [] => ret acc
  | x :: l' => acc' <- body acc x ;; for_each l' acc' body
  end.

Definition events {A : Type} (m : M A) : list event := fst m.
Definition outcome {A : Type} (m : M A) : result A := snd m.

(** What the program asks of its surroundings. *)
Record Env : Type := {
  isdir : str -> bool;                   (* [os.path.isdir] *)
  path_exists : str -> bool;             (* [os.path.exists] *)
  listdir : str -> option (list str);    (* [os.listdir]; [None]: it raises *)
  glob : str -> list str;                (* [glob.glob] *)
  relpath : str -> str -> str;           (* [os.path.relpath(path, start)] *)
  read_text : str -> option str;         (* the text of a file; [None]: reading raises *)
  re_compile_i : str -> option regex;    (* [re.compile(p, re.IGNORECASE)]; [None]: [re.error] *)
  db_available : bool;                   (* the GOGDB file was found at start-up *)
  db_title : str -> option str;          (* GOGDB [products.title] by [search_title] *)
  manifests_output_dir : str;
  save_ok : str -> bool;                 (* whether writing the JSON file succeeds *)
  save_opens : str -> bool               (* when it fails: whether the file was opened *)
}.

(** ** [services/manifest_generator.py] *)

Module ManifestGenerator.

(** *** The patterns written in the source *)

(** [([a-zA-Z0-9_.]+)_windows_gog_\(([\d\.]+)\)] *)
Definition re_versioned_folder : regex :=
  Cat (Group 1 (Plus true (Chr (fun c => is_alnum c || one_of (txt "_.") c))))
 (Cat (Lit (txt "_windows_gog_("))
 (Cat (Group 2 (Plus true (Chr (fun c => is_digit c || Ascii.eqb c "."))))
      (Lit (txt ")")))).

(** [_base_game$] *)
Definition re_base_game : regex := Cat (Lit (txt "_base_game")) Eol.
(** [_(second)_base$] *)
Definition re_second_base : regex :=
  Cat (Lit (txt "_")) (Cat (Group 1 (Lit (txt "second"))) (Cat (Lit (txt "_base")) Eol)).
(** [_base$] *)
Definition re_base : regex := Cat (Lit (txt "_base")) Eol.
(** [_(the|video|action|adventure|playing)_game$] *)
Definition re_qualified_game : regex :=
  Cat (Lit (txt "_"))
 (Cat (Group 1 (Alt (Lit (txt "the")) (Alt (Lit (txt "video")) (Alt (Lit (txt "action"))
               (Alt (Lit (txt "adventure")) (Lit (txt "playing")))))))
 (Cat (Lit (txt "_game")) Eol)).
(** [_game$] *)
Definition re_game : regex := Cat (Lit (txt "_game")) Eol.

(** The class of [<], [>], [:], the double quote, [/], [\], [|], [?]
    and the star. *)
Definition re_path_illegal : regex := Chr (one_of (DQUOTE :: txt "<>:/\|?*")).
(** [\s+] *)
Definition re_spaces : regex := Plus true (Chr is_space).
(** [^\s*version:\s*(G)] with [re.IGNORECASE], where the group [G] is [.*] *)
Definition re_version_line : regex :=
  Cat Bol (Cat (Star true (Chr is_space)) (Cat (Lit_i (txt "version:"))
 (Cat (Star true (Chr is_space)) (Group 1 (Star true Dot))))).

(** *** [_clean_game_key] *)

Definition _clean_game_key (raw_key : str) : str :=
  let clean_key := re_sub re_base_game [] raw_key in
  let clean_key :=
    if negb (found (re_search re_second_base clean_key))
    then re_sub re_base [] clean_key else clean_key in
  let clean_key :=
    if negb (found (re_search re_qualified_game clean_key))
    then re_sub re_game [] clean_key else clean_key in
  clean_key.

(** *** [_clean_game_name] *)

Definition _clean_game_name (raw_name : str) : str :=
  let clean_name := re_sub re_path_illegal (txt " ") raw_name in
  strip (re_sub re_spaces (txt " ") clean_name).

(** *** [_get_latest_source_folder_by_game_key] *)

(** [re.escape(ignore_pattern).replace(r'\*', '.*')] *)
Definition ignore_regex_text (ignore_pattern : str) : str :=
  replace (txt "\*") (txt ".*") (escape ignore_pattern).

(** The loop over [ignores], left at the first pattern that matches. *)
Fixpoint is_ignored (ignores : list str) (source_folder_name : str) : M bool :=
  match ignores with
  | [] => ret false
  | ignore_pattern :: ignores' =>
      match compile_escaped (ignore_regex_text ignore_pattern) with
      | None => raise (ReError (ignore_regex_text ignore_pattern))
      | Some r =>
          if found (re_fullmatch r source_folder_name)
          then log DEBUG (txt "Ignoring '" ++ source_folder_name ++ txt "' due to pattern '"
                            ++ ignore_pattern ++ txt "'") ;;
               ret true
          else is_ignored ignores' source_folder_name
      end
  end.

(** A package version is an [int] or [None]. *)
Definition source_folder_tuple := (option Z * str)%type.

(** The game key and package version of one folder name. *)
Definition key_and_version (source_type : str) (source_folder_name : str)
  : str * option Z :=
  if str_eqb source_type (txt "gog-games") then
    match re_match re_versioned_folder source_folder_name with
    | Some m =>
        let version_str := replace (txt ".") [] (group_text 2 m) in
        (group_text 1 m, int_of_digits version_str)
    | None => (source_folder_name, None)
    end
  else (source_folder_name, None).

(** [lambda x: (x[0] is None, x[0])] *)
Definition sort_key (x : source_folder_tuple) : bool * option Z :=
  (match fst x with None => true | Some _ => false end, fst x).

(** [<] on the tuples [sort_key] builds.  The second components are
    compared only when the first ones are equal, so they are two
    integers, or [None] twice, which is no difference. *)
Definition key_lt (a b : bool * option Z) : bool :=
  if Bool.eqb (fst a) (fst b) then
    match snd a, snd b with
    | Some x, Some y => (x <? y)%Z
    | _, _ => false
    end
  else negb (fst a) && fst b.

(** The first loop: the tuples of every folder that is not ignored,
    grouped by game key. *)
Definition group_folders (source_type : str) (ignores : list str) (names : list str)
  : M (PyDict.dict (list source_folder_tuple)) :=
  for_each names []
    (fun groups source_folder_name =>
       ignored <- is_ignored ignores source_folder_name ;;
       if ignored then ret groups
       else
         let '(game_key, package_version) := key_and_version source_type source_folder_name in
         ret (PyDict.setdefault_append game_key (package_version, source_folder_name) groups)).

(** The second loop: the first tuple of each sorted group. *)
Definition latest_of_groups (groups : PyDict.dict (list source_folder_tuple))
  : PyDict.dict str :=
  fold_left
    (fun latest '(game_key, source_folder_tuples) =>
       match PyList.sort key_lt sort_key true source_folder_tuples with
       | (_, latest_folder_name) :: _ => PyDict.set game_key latest_folder_name latest
       | [] => latest   (* no group is empty *)
       end)
    groups [].

Section WithEnv.
Variable env : Env.

Definition os_listdir (path : str) : M (list str) :=
  match listdir env path with
  | Some names => ret names
  | None => raise (OSError path)
  end.

Definition _get_latest_source_folder_by_game_key
           (source_type source_dir : str) (ignores : list str) : M (PyDict.dict str) :=
  names <- os_listdir source_dir ;;
  groups <- group_folders source_type ignores names ;;
  ret (latest_of_groups groups).

(** *** [_get_base_installer_path] *)

Definition basename_length (path : str) : nat := length (basename path).

(** [os.path.exists] of the [-1.bin] companion of an installer. *)
Definition has_companion (game_source_dir path : str) : bool :=
  let installer_basename := splitext_root (basename path) in
  path_exists env (join game_source_dir (installer_basename ++ txt "-1.bin")).

(** [clean_key.replace('_', r'[-_\s]+')] *)
Definition key_match_pattern (clean_key : str) : str :=
  replace (txt "_") (txt "[-_\s]+") clean_key.

Definition compile_i (pattern : str) : M regex :=
  match re_compile_i env pattern with
  | Some r => ret r
  | None => raise (ReError pattern)
  end.

Definition _get_base_installer_path (clean_key game_source_dir : str) : M (option str) :=
  let all_paths := glob env (join game_source_dir (txt "setup_*.exe")) in
  if negb (PyList.truthy all_paths) then
    log WARNING (txt "No setup_*.exe files found in source directory: " ++ game_source_dir) ;;
    ret None
  else
    let all_paths := PyList.sort Nat.ltb basename_length false all_paths in
    match find (has_companion game_source_dir) all_paths with
    | Some path => ret (Some path)
    | None =>
        main_installer_pattern <- compile_i (txt "^setup_" ++ key_match_pattern clean_key) ;;
        let main_paths :=
          filter (fun p => found (re_match main_installer_pattern (basename p))) all_paths in
        match main_paths with
        | path :: _ => ret (Some path)
        | [] => ret (hd_error all_paths)
        end
    end.

(** Truth value of a path that may be [None]. *)
Definition truthy_opt (o : option str) : bool :=
  match o with
  | Some (_ :: _) => true
  | _ => false
  end.

(** *** [_get_sorted_installers] *)

Definition _get_sorted_installers (clean_key game_source_dir : str)
           (base_installer_only : bool) : M (list str) :=
  base_installer_path <- _get_base_installer_path clean_key game_source_dir ;;
  match base_installer_path with
  | Some ((_ :: _) as base) =>
      let sorted_paths := [base] in
      let sorted_paths :=
        if negb base_installer_only then
          let all_paths := glob env (join game_source_dir (txt "setup_*.exe")) in
          sorted_paths ++ filter (fun p => negb (str_eqb p base)) all_paths
        else sorted_paths in
      ret (map (fun path => relpath env path game_source_dir) sorted_paths)
  | _ => ret []
  end.

(** *** [_get_game_version_from_base_installer] *)

Definition _get_game_version_from_base_installer (clean_key game_source_dir : str)
  : M (option str) :=
  base_installer_path <- _get_base_installer_path clean_key game_source_dir ;;
  match base_installer_path with
  | Some ((_ :: _) as base) =>
      ver_extract_pattern <-
        compile_i (txt "^setup_" ++ key_match_pattern clean_key
                     ++ txt "(.+?)(?:\_\(64bit\))?\_\(\d+\)\.exe$") ;;
      match re_search ver_extract_pattern (basename base) with
      | Some m => ret (Some (strip_chars (txt "_-") (group_text 1 m)))
      | None => ret None
      end
  | _ => ret None
  end.

(** *** [_get_game_details_from_info_file] *)

Definition info_error (info_file_path : str) : M (option str * option str) :=
  log ERROR (txt "Error reading or parsing info file " ++ info_file_path) ;;
  ret (None, None).

Definition _get_game_details_from_info_file (game_source_dir : str)
  : M (option str * option str) :=
  let info_file_path := join game_source_dir (txt "!info.txt") in
  if negb (path_exists env info_file_path) then
    log WARNING (txt "!info.txt not found in source directory: " ++ info_file_path ++ txt ".") ;;
    ret (None, None)
  else
    match read_text env info_file_path with
    | None => info_error info_file_path
    | Some content =>
        let lines := readlines content in
        match nth_error lines 1 with
        | None => info_error info_file_path      (* [lines[1]]: IndexError *)
        | Some line1 =>
            let parts := split (txt "--") (strip line1) in
            let game_name :=
              if 3 <=? length parts then
                let raw_name := strip (nth 1 parts []) in
                let encoded_name := ascii_only raw_name in
                Some (strip (re_sub re_spaces (txt " ") encoded_name))
              else None in
            let game_version :=
              match find (fun line => found (re_search re_version_line line)) lines with
              | Some line =>
                  match re_search re_version_line line with
                  | Some m => Some (strip (group_text 1 m))
                  | None => None
                  end
              | None => None
              end in
            ret (game_name, game_version)
        end
    end.

(** *** [GOGDBClient.get_game_name] *)

(** The class of [\], [/], [:], the star, [?], the double quote,
    [<], [>] and [|]. *)
Definition re_title_illegal : regex := Chr (one_of (DQUOTE :: txt "\/:*?<>|")).

Definition get_game_name (game_key : str) : M (option str) :=
  if negb (db_available env) then ret None
  else
    let search_key := replace (txt "_") [] game_key in
    log DEBUG (txt "Looking up game name in GOGDB database using key '" ++ search_key
                 ++ txt "'...") ;;
    match db_title env search_key with
    | Some title =>
        let game_name := re_sub re_title_illegal [] (ascii_only title) in
        log DEBUG (txt "Found game name: '" ++ game_name ++ txt "'") ;;
        ret (Some game_name)
    | None =>
        log DEBUG (txt "No game found for key '" ++ search_key ++ txt "'") ;;
        ret None
    end.

(** *** [_get_game_details] *)

Definition _get_game_details (source_type clean_key game_source_dir : str)
  : M (str * option str) :=
  details <-
    (if str_eqb source_type (txt "gog-service")
     then _get_game_details_from_info_file game_source_dir
     else ret (None, None)) ;;
  let '(game_name, game_version) := details in
  game_version <-
    (if negb (truthy_opt game_version)
     then _get_game_version_from_base_installer clean_key game_source_dir
     else ret game_version) ;;
  game_name <-
    (if negb (truthy_opt game_name) then get_game_name clean_key else ret game_name) ;;
  match game_name with
  | Some ((_ :: _) as name) => ret (name, game_version)
  | _ =>
      let name := strip (title (replace (txt "_") (txt " ") clean_key)) in
      log INFO (txt "Could not determine game name. Using '" ++ name
                  ++ txt "' from cleaned key.") ;;
      ret (name, game_version)
  end.

(** *** [save_json] of [utils.py] *)

Definition save_json (data : manifest) (file_path : str) : M unit :=
  if save_ok env file_path then emit (SavedJson file_path data)
  else (if save_opens env file_path then emit (TruncatedJson file_path) else ret tt) ;;
       log ERROR (txt "Failed to save JSON to " ++ file_path) ;;
       raise (SaveError file_path).

(** *** [generate_manifest] *)

(** The loop over [possible_dest_dirs], left at the first directory
    that holds a populated [folder_name]. *)
Fixpoint existing_dest_dir (possible_dest_dirs : list str) (folder_name : str)
         (game_dest_dir : str) : M str :=
  match possible_dest_dirs with
  | [] => ret game_dest_dir
  | destination_dir :: rest =>
      let possible_game_dir := join destination_dir folder_name in
      if path_exists env possible_game_dir then
        entries <- os_listdir possible_game_dir ;;
        if PyList.truthy entries then ret possible_game_dir
        else existing_dest_dir rest folder_name game_dest_dir
      else existing_dest_dir rest folder_name game_dest_dir
  end.

(** The installers of one game: the override when [overrides.get]
    gives a true value, the resolver otherwise. *)
Definition installers_for (overrides : PyDict.dict (list str))
           (game_key source_folder_name clean_key game_source_dir : str)
           (base_installer_only : bool) : M (list str) :=
  match PyDict.get source_folder_name overrides with
  | Some ((_ :: _) as listed) =>
      log INFO (txt "Using override installers for game key '" ++ game_key ++ txt "'") ;;
      ret listed
  | _ => _get_sorted_installers clean_key game_source_dir base_installer_only
  end.

(** The body of the loop over the latest folders. *)
Definition add_game (source_type source_dir default_dest_dir : str)
           (possible_dest_dirs : list str) (overrides : PyDict.dict (list str))
           (base_installer_only : bool)
           (manifest_data : manifest) (item : str * str) : M manifest :=
  let '(game_key, source_folder_name) := item in
  log INFO (txt "Adding game key '" ++ game_key ++ txt "' data to manifest") ;;
  let clean_key := _clean_game_key game_key in
  let game_source_dir := join source_dir source_folder_name in
  details <- _get_game_details source_type clean_key game_source_dir ;;
  let '(name, version) := details in
  let folder_name := _clean_game_name name in
  game_dest_dir <-
    existing_dest_dir possible_dest_dirs folder_name (join default_dest_dir folder_name) ;;
  installers <- installers_for overrides game_key source_folder_name clean_key
                               game_source_dir base_installer_only ;;
  ret (PyDict.set game_key
         (GameRecord folder_name version game_source_dir game_dest_dir installers)
         manifest_data).

Definition generate_manifest (source_type source_dir default_dest_dir : str)
           (possible_dest_dirs ignores : list str) (overrides : PyDict.dict (list str))
           (base_installer_only : bool) : M manifest :=
  if negb (isdir env source_dir) then
    log WARNING (txt "Source directory not found. Skipping: " ++ source_dir) ;;
    ret []
  else
    log INFO (txt "Generating manifest data for source type '" ++ source_type ++ txt "'...") ;;
    latest_source_folder_by_game_key <-
      _get_latest_source_folder_by_game_key source_type source_dir ignores ;;
    manifest_data <-
      for_each latest_source_folder_by_game_key []
               (add_game source_type source_dir default_dest_dir possible_dest_dirs
                         overrides base_installer_only) ;;
    let manifest_path := join (manifests_output_dir env) (source_type ++ txt ".json") in
    save_json manifest_data manifest_path ;;
    log INFO (txt "Successfully generated and saved manifest: " ++ manifest_path) ;;
    ret manifest_data.

End WithEnv.

End ManifestGenerator.

(** ** The metadata file of [utils.py] *)

Module Utils.

(** The files of a disk by path name, and the paths that cannot be
    opened. *)
Record disk : Type := Disk {
  files : PyDict.dict str;
  denied : str -> bool
}.

(** [str(value)] of a value that is a string or [None]. *)
Definition py_str (value : option str) : str :=
  match value with
  | Some s => s
  | None => txt "None"
  end.

(** The class [[\w\-]]. *)
Definition key_char (c : ascii) : bool := is_word c || Ascii.eqb c "-".

(** [^\s*([\w\-]+)\s*:\s*(G)], where the group [G] is [.*] *)
Definition re_key_value : regex :=
  Cat Bol (Cat (Star true (Chr is_space))
 (Cat (Group 1 (Plus true (Chr key_char)))
 (Cat (Star true (Chr is_space)) (Cat (Lit (txt ":"))
 (Cat (Star true (Chr is_space)) (Group 2 (Star true Dot))))))).

(** The body of the loop over the lines of the file. *)
Definition read_line (data : PyDict.dict (option str)) (line : str)
  : PyDict.dict (option str) :=
  match re_match re_key_value line with
  | Some m =>
      let key := strip (group_text 1 m) in
      let value := strip (group_text 2 m) in
      match key with
      | _ :: _ =>
          if str_eqb value [] || str_eqb (lower value) (txt "none")
          then PyDict.set key None data
          else PyDict.set key (Some value) data
      | [] => data
      end
  | None => data
  end.

Definition read_meta_file (d : disk) (target_dir : str)
  : list event * PyDict.dict (option str) :=
  let meta_file_path := join target_dir (txt "!meta.txt") in
  match PyDict.get meta_file_path (files d) with
  | None => ([], [])
  | Some content =>
      if denied d meta_file_path
      then ([Log ERROR (txt "Error reading meta file " ++ meta_file_path)], [])
      else ([], fold_left read_line (readlines content) [])
  end.

Definition meta_line (item : str * option str) : str :=
  strip (fst item) ++ txt ": " ++ strip (py_str (snd item)) ++ [LF].

Definition create_meta_file (d : disk) (target_dir : str)
           (game_data : PyDict.dict (option str)) : list event * (disk * bool) :=
  let meta_file_path := join target_dir (txt "!meta.txt") in
  let content := concat (map meta_line game_data) in
  if denied d meta_file_path
  then ([Log ERROR (txt "Error creating meta file " ++ meta_file_path)], (d, false))
  else ([Log INFO (txt "Successfully created meta file: " ++ meta_file_path)],
        (Disk (PyDict.set meta_file_path content (files d)) (denied d), true)).

End Utils.

(** ** The consumer of the manifest in [unpack.py] *)

Module Unpack.



(** *** The test for an unchanged game and the metadata written after an
    extraction *)

(** [existing_meta.get(key)] *)
Definition meta_get (key : str) (meta : PyDict.dict (option str)) : option str :=
  match PyDict.get key meta with
  | Some value => value
  | None => None
  end.

(** [==] on two values that are each a string or [None]. *)
Definition value_eqb (a b : option str) : bool :=
  match a, b with
  | Some x, Some y => str_eqb x y
  | None, None => true
  | _, _ => false
  end.

(** Whether the game is left alone as up to date; [dest_exists] is
    [os.path.exists(game_dest_dir)] and [force] is [args.force]. *)
Definition up_to_date (d : Utils.disk) (dest_exists force : bool) (game_data : game_record)
  : bool :=
  if dest_exists && negb force then
    let existing_meta := snd (Utils.read_meta_file d (destination_directory game_data)) in
    let existing_source_dir := meta_get (txt "source_directory") existing_meta in
    let existing_game_version := meta_get (txt "game_version") existing_meta in
    value_eqb existing_source_dir (Some (source_directory game_data))
    && value_eqb existing_game_version (game_version game_data)
  else false.

(** [x or y] on a string that may be [None]. *)
Definition or_else (x : option str) (y : str) : str :=
  match x with
  | Some ((_ :: _) as s) => s
  | _ => y
  end.

(** The dictionary given to [create_meta_file] after a successful
    extraction, each value as [str] makes it; [info_name] and
    [rel_launcher_path] are what the extracted info file gave. *)
Definition meta_data (info_name rel_launcher_path : option str) (game_data : game_record)
  : PyDict.dict (option str) :=
  [(txt "game_name", Some (or_else info_name (game_name game_data)));
   (txt "game_version", Some (or_else (game_version game_data) []));
   (txt "rel_launcher_path", rel_launcher_path);
   (txt "source_directory", Some (source_directory game_data));
   (txt "sorted_installers", Some (PyRepr.str_of_list (sorted_installers game_data)))].

End Unpack.

(** ** [cleanup_old_logs] of [logger.py] *)

Module Logger.

(** [s.endswith(suffix)] *)
Definition endswith (s suffix : str) : bool := startswith (rev s) (rev suffix).

(** The files of the log directory that belong to [log_name]. *)
Definition is_log_file (log_name f : str) : bool :=
  startswith f (log_name ++ txt "_") && endswith f (txt ".log").

Section Cleanup.
(** The creation time of a file of the log directory, of which only the
    order matters, and whether [os.remove] succeeds on it. *)
Variables (getctime : str -> Z) (removable : str -> bool).
Variable log_name : str.

(** [log_files] after the sort, newest first. *)
Definition log_files (listing : list str) : list str :=
  PyList.sort Z.ltb getctime true (filter (is_log_file log_name) listing).

(** [log_files[9:]] *)
Definition old_logs (listing : list str) : list str := skipn 9 (log_files listing).

(** The listing of the log directory after the loop over the old logs:
    a removal that fails is passed over. *)
Definition cleanup_old_logs (listing : list str) : list str :=
  filter (fun f => negb (existsb (str_eqb f) (old_logs listing) && removable f)) listing.

End Cleanup.

End Logger.

Import ManifestGenerator.

(** ** A concrete environment

    A directory tree given by the listing of each of its directories,
    the text of some files, and the compiled form of the run-time
    patterns that occur. *)

Module Example.

Definition ends_with_text (suffix s : str) : bool :=
  startswith (rev s) (rev suffix).

(** [fnmatch(name, 'setup_*.exe')] *)
Definition is_setup_exe (name : str) : bool :=
  startswith name (txt "setup_") && ends_with_text (txt ".exe") name
  && (10 <=? length name).

(** [glob.glob] on the patterns the program builds, for directories
    whose path holds no star, question mark or square bracket, which
    [glob] would read as operators; the scenarios have no other. *)
Definition tree_glob (dirs : PyDict.dict (list str)) (pattern : str) : list str :=
  flat_map (fun '(d, names) =>
              if str_eqb pattern (join d (txt "setup_*.exe"))
              then map (join d) (filter is_setup_exe names)
              else [])
           dirs.

Definition tree_exists (dirs : PyDict.dict (list str)) (path : str) : bool :=
  existsb (fun '(d, names) => str_eqb path d || existsb (fun n => str_eqb path (join d n)) names)
          dirs.

Definition tree_relpath (path start : str) : str :=
  match strip_prefix (start ++ [SEP]) path with
  | Some rest => rest
  | None => path
  end.

Definition found_dir (path : str) (dirs : PyDict.dict (list str)) : bool :=
  match PyDict.get path dirs with Some _ => true | None => false end.

Definition env_of (dirs : PyDict.dict (list str)) (texts : PyDict.dict str)
           (compile_i : str -> option regex) : Env :=
  {| isdir := fun p => found_dir p dirs;
     path_exists := tree_exists dirs;
     listdir := fun p => PyDict.get p dirs;
     glob := tree_glob dirs;
     relpath := tree_relpath;
     read_text := fun p => PyDict.get p texts;
     re_compile_i := compile_i;
     db_available := true;
     db_title := fun _ => None;
     manifests_output_dir := txt "/manifests";
     save_ok := fun _ => true;
     save_opens := fun _ => true |}.

(** [re.compile] with [re.IGNORECASE] on the patterns that are built
    from a key without operator of the syntax: [^setup_] and the key,
    where each underscore has become [[-_\s]+] and any other character
    stands for itself in either case, followed or not by
    [(.+?)(?:\_\(64bit\))?\_\(\d+\)\.exe$].  A pattern that holds an
    operator elsewhere is answered like [^setup_game(], which
    [re.compile] rejects because the parenthesis is never closed; no
    other such pattern occurs in the scenarios. *)
Definition version_suffix : str := txt "(.+?)(?:\_\(64bit\))?\_\(\d+\)\.exe$".

Definition version_tail : regex :=
  Cat (Group 1 (Plus false Dot))
 (Cat (Opt (Lit_i (txt "_(64bit)"))) (Cat (Lit_i (txt "_("))
 (Cat (Plus true (Chr is_digit)) (Cat (Lit_i (txt ").exe")) Eol)))).

Definition separators : regex :=
  Plus true (Chr (fun c => one_of (txt "-_") c || is_space c)).

Fixpoint compile_key (fuel : nat) (p : str) : option regex :=
  match fuel with
  | 0 => None
  | S fuel' =>
      match p with
      | [] => Some Eps
      | c :: p' =>
          if is_alnum c
          then option_map (Cat (Chr (fun x => Ascii.eqb (lower_char x) (lower_char c))))
                          (compile_key fuel' p')
          else match strip_prefix (txt "[-_\s]+") p with
               | Some rest => option_map (Cat separators) (compile_key fuel' rest)
               | None =>
                   if str_eqb p version_suffix then Some version_tail
                   else if one_of (txt ".^$*+?{}[]\|()") c then None
                        else option_map
                               (Cat (Chr (fun x => Ascii.eqb (lower_char x) (lower_char c))))
                               (compile_key fuel' p')
               end
      end
  end.

Definition compile_i (pattern : str) : option regex :=
  match strip_prefix (txt "^setup_") pattern with
  | Some p => option_map (fun r => Cat Bol (Cat (Lit_i (txt "setup_")) r))
                         (compile_key (S (length p)) p)
  | None => None
  end.

(** A source tree of the versioned kind and two destination roots. *)
Definition dirs : PyDict.dict (list str) :=
  [(txt "/src",
    [txt "game"; txt "game_windows_gog_(1.2.0)"; txt "mygame_windows_gog_(1.5.0)";
     txt "mygame_windows_gog_(1.4.9)"; txt "empty_windows_gog_(2.0)"; txt "backup_old"]);
   (txt "/src/game", []);
   (txt "/src/game_windows_gog_(1.2.0)",
    [txt "setup_game_1.2_(64bit)_(12345).exe"; txt "setup_game_dlc_(12345).exe"]);
   (txt "/src/mygame_windows_gog_(1.5.0)",
    [txt "setup_mygame.exe"; txt "setup_mygame_deluxe_content.exe";
     txt "setup_mygame_deluxe_content-1.bin"]);
   (txt "/src/mygame_windows_gog_(1.4.9)", [txt "setup_mygame.exe"]);
   (txt "/src/empty_windows_gog_(2.0)", [txt "readme.txt"]);
   (txt "/src/backup_old", []);
   (txt "/dst1/Mygame", []);
   (txt "/dst2/Mygame", [txt "game.exe"]);
   (txt "/plain", [txt "game("]);
   (txt "/plain/game(", [txt "setup_game.exe"])].

Definition env : Env := env_of dirs [] compile_i.

Definition src : str := txt "/src".
Definition dst : str := txt "/dst".
Definition dsts : list str := [txt "/dst1"; txt "/dst2"].

Definition dummy_record : game_record := GameRecord [] None [] [] [].

Definition manifest_of (run : M manifest) : manifest :=
  match outcome run with Ok m => m | Raise _ => [] end.

Definition record_of (game_key : str) (m : manifest) : game_record :=
  match PyDict.get game_key m with Some r => r | None => dummy_record end.

(** The manifest of the source tree without overrides, every installer
    wanted. *)
Definition manifest_all : manifest :=
  Eval vm_compute in
    manifest_of (generate_manifest env (txt "gog-games") src dst dsts [txt "*_old"] [] false).

Definition mygame_record : game_record :=
  Eval vm_compute in record_of (txt "mygame") manifest_all.

(** The same tree, base installers only, with an empty override for the
    latest folder of [mygame]. *)
Definition empty_override : PyDict.dict (list str) :=
  [(txt "mygame_windows_gog_(1.5.0)", [])].

Definition manifest_empty_override : manifest :=
  Eval vm_compute in
    manifest_of (generate_manifest env (txt "gog-games") src dst dsts [txt "*_old"]
                                   empty_override true).

(** The same tree with two installers listed for that folder. *)
Definition listed_override : PyDict.dict (list str) :=
  [(txt "mygame_windows_gog_(1.5.0)", [txt "extras/b.exe"; txt "a.exe"])].

Definition manifest_listed_override : manifest :=
  Eval vm_compute in
    manifest_of (generate_manifest env (txt "gog-games") src dst dsts [txt "*_old"]
                                   listed_override true).

End Example.

(** ** Notions of the specification *)

(** A directory that exists and lists at least one entry. *)
Definition populated (env : Env) (path : str) : Prop :=
  path_exists env path = true /\ exists e es, listdir env path = Some (e :: es).

(** A directory that is missing, or exists and is empty. *)
Definition unpopulated (env : Env) (path : str) : Prop :=
  path_exists env path = false \/ (path_exists env path = true /\ listdir env path = Some []).

(** What [generate_manifest] computes for one game key and its latest
    source folder: every field of the record is the outcome of the
    corresponding step. *)
Definition built_record (env : Env) (source_type source_dir default_dest_dir : str)
           (possible_dest_dirs : list str) (overrides : PyDict.dict (list str))
           (base_installer_only : bool) (item : str * str) (entry : str * game_record) : Prop :=
  let game_key := fst item in
  let source_folder_name := snd item in
  let game_data := snd entry in
  let clean_key := _clean_game_key game_key in
  let game_source_dir := join source_dir source_folder_name in
  fst entry = game_key /\
  exists name,
    outcome (_get_game_details env source_type clean_key game_source_dir)
    = Ok (name, game_version game_data) /\
    game_name game_data = _clean_game_name name /\
    source_directory game_data = game_source_dir /\
    outcome (existing_dest_dir env possible_dest_dirs (game_name game_data)
                               (join default_dest_dir (game_name game_data)))
    = Ok (destination_directory game_data) /\
    outcome (installers_for env overrides game_key source_folder_name clean_key
                            game_source_dir base_installer_only)
    = Ok (sorted_installers game_data).

(** What a regular expression can match, priorities and captures aside:
    [matches r b s b' s'] when [r] can read [s] down to [s'], [b] and
    [b'] telling whether the cursor is at the start of the subject. *)
Inductive matches : regex -> bool -> str -> bool -> str -> Prop :=
| M_Eps b s : matches Eps b s b s
| M_Chr (p : ascii -> bool) c b s : p c = true -> matches (Chr p) b (c :: s) false s
| M_Cat r1 r2 b s b1 s1 b2 s2 :
    matches r1 b s b1 s1 -> matches r2 b1 s1 b2 s2 -> matches (Cat r1 r2) b s b2 s2
| M_AltL r1 r2 b s b' s' : matches r1 b s b' s' -> matches (Alt r1 r2) b s b' s'
| M_AltR r1 r2 b s b' s' : matches r2 b s b' s' -> matches (Alt r1 r2) b s b' s'
| M_Star0 greedy r b s : matches (Star greedy r) b s b s
| M_StarS greedy r b s b1 s1 b2 s2 :
    matches r b s b1 s1 -> length s1 < length s ->
    matches (Star greedy r) b1 s1 b2 s2 -> matches (Star greedy r) b s b2 s2
| M_Group n r b s b' s' : matches r b s b' s' -> matches (Group n r) b s b' s'
| M_Bol s : matches Bol true s true s
| M_Eol b s : dollar s = true -> matches Eol b s b s.

(** A continuation whose success does not depend on the captures. *)
Definition blind {A : Type} (k : cont A) : Prop :=
  forall b s g g', found (k b s g) = found (k b s g').

(** The ignore patterns as the specification words them: the star
    stands for a sequence of characters that pass [star_ok], any other
    character of the pattern stands for itself, and the whole name is
    matched. *)
Inductive glob_match (star_ok : ascii -> bool) : str -> str -> Prop :=
| G_nil : glob_match star_ok [] []
| G_char c p s :
    Ascii.eqb c "*" = false -> glob_match star_ok p s -> glob_match star_ok (c :: p) (c :: s)
| G_star p w s :
    forallb star_ok w = true -> glob_match star_ok p s ->
    glob_match star_ok ("*"%char :: p) (w ++ s).

Definition any_char (c : ascii) : bool := true.

(** What one character of an ignore pattern becomes in the text given to
    [re.fullmatch], and in the expression compiled from it. *)
Definition glob_unit (c : ascii) : str :=
  if Ascii.eqb c "*" then txt ".*"
  else if is_special c then ["\"%char; c] else [c].

Definition glob_regex (ignore_pattern : str) : regex :=
  fold_right (fun c r => if Ascii.eqb c "*" then Cat (Star true Dot) r
                         else Cat (Chr (Ascii.eqb c)) r)
             Eps ignore_pattern.

(** The tuples of all the groups. *)
Definition grouped_tuples (groups : PyDict.dict (list source_folder_tuple))
  : list source_folder_tuple :=
  flat_map snd groups.

(** [suffix] ends [s]. *)
Fixpoint ends_with (suffix s : str) : bool :=
  str_eqb s suffix
  || match s with
     | [] => false
     | _ :: s' => ends_with suffix s'
     end.

(** [suffix] stands where [$] matches: at the end of [s], or just before
    its final newline. *)
Definition at_end (suffix s : str) : bool :=
  ends_with suffix s || ends_with (suffix ++ [LF]) s.

Definition qualifying_words : list str :=
  [txt "the"; txt "video"; txt "action"; txt "adventure"; txt "playing"].

(** A key that still carries a suffix which [_clean_game_key] strips. *)
Definition strippable (key : str) : bool :=
  at_end (txt "_base_game") key
  || (at_end (txt "_base") key && negb (at_end (txt "_second_base") key))
  || (at_end (txt "_game") key
      && negb (existsb (fun w => at_end (txt "_" ++ w ++ txt "_game") key) qualifying_words)).

(** [word$] matches at the very start of [s]. *)
Definition hit (word s : str) : bool :=
  match strip_prefix word s with
  | Some rest => dollar rest
  | None => false
  end.

(** An expression that matches, at a given place, exactly the words of a
    list followed by [$]. *)
Definition selects (r : regex) (words : list str) : Prop :=
  forall b s, found (run r b s [] accept) = existsb (fun w => hit w s) words.

(** [s] without the occurrence of [word] that [$] admits. *)
Fixpoint remove_at_end (word s : str) : str :=
  if str_eqb s word then []
  else if str_eqb s (word ++ [LF]) then [LF]
       else match s with
            | [] => []
            | c :: s' => c :: remove_at_end word s'
            end.

(** A key of a metadata record: a non-empty string of [[\w-]]. *)
Definition valid_key (key : str) : bool :=
  PyList.truthy key && forallb Utils.key_char key.

(** A text without line break. *)
Definition single_line (s : str) : bool :=
  forallb (fun c => negb (Ascii.eqb c LF) && negb (Ascii.eqb c CR)) s.

(** What a value is read back as: its text without the white space
    around it, or [None] when that text is empty or is [none] in any
    letter case. *)
Definition read_back (value : option str) : option str :=
  let text := strip (Utils.py_str value) in
  if str_eqb text [] || str_eqb (lower text) (txt "none") then None else Some text.

(** What the specification says a value is read back as: itself, or
    [None] when it is [None], empty or [none] in any letter case. *)
Definition read_back_as_specified (value : option str) : option str :=
  match value with
  | None => None
  | Some text =>
      if str_eqb text [] || str_eqb (lower text) (txt "none") then None else Some text
  end.

(** A string with no white space at either end. *)
Definition tight (s : str) : Prop :=
  match s with [] => True | c :: _ => is_space c = false end
  /\ match rev s with [] => True | c :: _ => is_space c = false end.

(** The input on which a repetition of a class stops. *)
Definition stops (p : ascii -> bool) (s : str) : Prop :=
  match s with [] => True | c :: _ => p c = false end.

(** The first element of greatest key, found in one pass: the candidate
    is replaced only by an element of greater key. *)
Definition first_greatest {A K : Type} (ltb : K -> K -> bool) (key : A -> K) (l : list A)
  : option A :=
  match l with
  | [] => None
  | x :: l' => Some (fold_left (fun m y => if ltb (key m) (key y) then y else m) l' x)
  end.

(** ** Notions of the further properties *)

(** [re.sub] of a class of characters: every character of the class is
    replaced. *)
Definition replace_each (p : ascii -> bool) (repl : str) (s : str) : str :=
  flat_map (fun c => if p c then repl else [c]) s.

(** [re.sub] of a non-empty run of a class: every maximal run is
    replaced once; [in_run] tells that the character before belonged to
    the class. *)
Fixpoint collapse_from (p : ascii -> bool) (repl : str) (in_run : bool) (s : str) : str :=
  match s with
  | [] => []
  | c :: s' =>
      if p c
      then (if in_run then [] else repl) ++ collapse_from p repl true s'
      else c :: collapse_from p repl false s'
  end.

(** The only white space of [s] is the space, and no space is followed
    by white space. *)
Fixpoint single_spaced (s : str) : bool :=
  match s with
  | [] => true
  | c :: s' =>
      (if is_space c
       then Ascii.eqb c " " && match s' with [] => true | d :: _ => negb (is_space d) end
       else true)
      && single_spaced s'
  end.

(** The expression that the concrete environment compiles for the
    installers of a key. *)
Definition example_installer_pattern (clean_key : str) : regex :=
  match Example.compile_i (txt "^setup_" ++ key_match_pattern clean_key) with
  | Some r => r
  | None => Eps
  end.

(** A value that the metadata file gives back as it is. *)
Definition kept_value (v : str) : Prop :=
  v <> [] /\ tight v /\ lower v <> txt "none".

(** Whether the loop over [ignores] leaves a folder out. *)
Definition ignored_name (ignores : list str) (name : str) : bool :=
  match outcome (is_ignored ignores name) with
  | Ok b => b
  | Raise _ => false
  end.

(** The tuples of the listed folders of one game key, in the order of
    the listing. *)
Definition tuples_of (source_type : str) (ignores names : list str) (game_key : str)
  : list source_folder_tuple :=
  map (fun name => (snd (key_and_version source_type name), name))
      (filter (fun name => negb (ignored_name ignores name)
                           && str_eqb (fst (key_and_version source_type name)) game_key)
              names).

(** The list a key stands for in a dictionary of lists. *)
Definition members {X : Type} (k : str) (d : PyDict.dict (list X)) : list X :=
  match PyDict.get k d with
  | Some l => l
  | None => []
  end.

(** A computation that only logs: it touches no manifest file. *)
Definition only_logs {A : Type} (m : M A) : Prop :=
  forall e, In e (events m) -> exists lvl msg, e = Log lvl msg.

(** The concrete environment with a disk on which the dump of the
    manifest fails after the file has been opened. *)
Definition failing_dump_env : Env :=
  {| isdir := isdir Example.env; path_exists := path_exists Example.env;
     listdir := listdir Example.env; glob := glob Example.env;
     relpath := relpath Example.env; read_text := read_text Example.env;
     re_compile_i := re_compile_i Example.env; db_available := db_available Example.env;
     db_title := db_title Example.env;
     manifests_output_dir := manifests_output_dir Example.env;
     save_ok := fun _ => false; save_opens := fun _ => true |}.

(** The greedy repetition of a class followed by [k], read off
    directly: the longest run is tried first, then each shorter one. *)
Fixpoint greedy_class {A : Type} (p : ascii -> bool) (k : cont A)
         (b : bool) (s : str) (g : captures) : option A :=
  match s with
  | c :: s' =>
      if p c
      then match greedy_class p k false s' g with
           | Some a => Some a
           | None => k b s g
           end
      else k b s g
  | [] => k b s g
  end.

(** The classes of the pattern of a versioned folder. *)
Definition key_class (c : ascii) : bool := is_alnum c || one_of (txt "_.") c.
Definition version_class (c : ascii) : bool := is_digit c || Ascii.eqb c ".".


(** A log directory of twelve logs and another file, with the creation
    time of each. *)
Definition example_logs : list (str * Z) :=
  [(txt "unpack_01.log", 1%Z); (txt "unpack_02.log", 2%Z); (txt "unpack_03.log", 3%Z);
   (txt "notes.txt", 0%Z); (txt "unpack_04.log", 4%Z); (txt "unpack_05.log", 5%Z);
   (txt "unpack_06.log", 6%Z); (txt "unpack_07.log", 7%Z); (txt "unpack_08.log", 8%Z);
   (txt "unpack_09.log", 9%Z); (txt "unpack_10.log", 10%Z); (txt "unpack_11.log", 11%Z);
   (txt "unpack_12.log", 12%Z)].

Definition example_ctime (f : str) : Z :=
  match PyDict.get f example_logs with
  | Some t => t
  | None => 0%Z
  end.

(** The no-break space, and a key with a letter beyond the ASCII
    range. *)
Definition NBSP : ascii := ascii_of_nat 160.
Definition accented_key : str := txt "cl" ++ [ascii_of_nat 233].

(** * Properties *)

(** ** Strings, dictionaries and computations *)

Lemma str_eqb_spec (a b : str) : reflect (a = b) (str_eqb a b).
Proof.
  unfold str_eqb. destruct (str_dec a b); constructor; assumption.
Qed.

Lemma str_eqb_refl (a : str) : str_eqb a a = true.
Proof. destruct (str_eqb_spec a a); congruence. Qed.

Lemma str_eqb_neq (a b : str) : a <> b -> str_eqb a b = false.
Proof. intros H. destruct (str_eqb_spec a b); congruence. Qed.

Section DictFacts.
Variable V : Type.
Implicit Types (d : PyDict.dict V) (k : str) (v : V).

Lemma get_set_same k v d : PyDict.get k (PyDict.set k v d) = Some v.
Proof.
  induction d as [|[k' v'] d IH]; simpl.
  - now rewrite str_eqb_refl.
  - destruct (str_eqb_spec k k') as [->|Hne]; simpl.
    + now rewrite str_eqb_refl.
    + now rewrite (str_eqb_neq Hne).
Qed.

Lemma get_set_other k k' v d : k <> k' -> PyDict.get k (PyDict.set k' v d) = PyDict.get k d.
Proof.
  intros Hne. induction d as [|[k0 v0] d IH]; simpl.
  - now rewrite (str_eqb_neq Hne).
  - destruct (str_eqb_spec k' k0) as [->|Hne0]; simpl.
    + now rewrite (str_eqb_neq Hne).
    + now rewrite IH.
Qed.

Lemma keys_set_fresh k v d :
  ~ In k (PyDict.keys d) -> PyDict.set k v d = d ++ [(k, v)].
Proof.
  induction d as [|[k0 v0] d IH]; simpl; intros Hnin; [reflexivity|].
  destruct (str_eqb_spec k k0) as [->|Hne]; [tauto|].
  f_equal. apply IH. tauto.
Qed.

Lemma keys_set k v d :
  PyDict.keys (PyDict.set k v d)
  = if in_dec str_dec k (PyDict.keys d)
    then PyDict.keys d else PyDict.keys d ++ [k].
Proof.
  induction d as [|[k0 v0] d IH]; simpl; [reflexivity|].
  destruct (str_eqb_spec k k0) as [->|Hne]; simpl.
  - destruct (str_dec k0 k0); [reflexivity|congruence].
  - rewrite IH. destruct (str_dec k0 k); [congruence|].
    destruct (in_dec str_dec k (PyDict.keys d)); reflexivity.
Qed.

Lemma keys_set_NoDup k v d : NoDup (PyDict.keys d) -> NoDup (PyDict.keys (PyDict.set k v d)).
Proof.
  intros Hnd. rewrite keys_set. destruct (in_dec str_dec k (PyDict.keys d)); [assumption|].
  apply NoDup_app; [assumption | repeat constructor; simpl; tauto |].
  intros x Hx [<-|[]]. contradiction.
Qed.

Lemma get_In k v d : NoDup (PyDict.keys d) -> In (k, v) d -> PyDict.get k d = Some v.
Proof.
  induction d as [|[k0 v0] d IH]; simpl; [tauto|].
  intros Hnd [Heq|Hin].
  - inversion Heq; subst. now rewrite str_eqb_refl.
  - inversion Hnd as [|? ? Hnin Hnd']; subst.
    destruct (str_eqb_spec k k0) as [->|Hne]; [|now apply IH].
    exfalso. apply Hnin. change k0 with (fst (k0, v)). now apply in_map.
Qed.

Lemma get_Some_In k v d : PyDict.get k d = Some v -> In (k, v) d.
Proof.
  induction d as [|[k0 v0] d IH]; simpl; [discriminate|].
  destruct (str_eqb_spec k k0) as [->|Hne]; intros H.
  - inversion H; subst. now left.
  - right. now apply IH.
Qed.
End DictFacts.

(** The outcome of a sequence of two computations. *)
Lemma bind_Ok {A B : Type} (m : M A) (f : A -> M B) (b : B) :
  outcome (bind m f) = Ok b ->
  exists a, outcome m = Ok a /\ outcome (f a) = Ok b.
Proof.
  unfold bind, outcome. destruct m as [t [a|e]]; simpl; [|discriminate].
  intros H. now exists a.
Qed.

Lemma bind_events {A B : Type} (m : M A) (f : A -> M B) (a : A) :
  outcome m = Ok a -> events (bind m f) = events m ++ events (f a).
Proof.
  unfold bind, outcome, events. destruct m as [t [a'|e]]; simpl; [|discriminate].
  intros H. inversion H; subst. reflexivity.
Qed.

Lemma bind_outcome {A B : Type} (m : M A) (f : A -> M B) (a : A) :
  outcome m = Ok a -> outcome (bind m f) = outcome (f a).
Proof.
  unfold bind, outcome. destruct m as [t [a'|e]]; simpl; [|discriminate].
  intros H. inversion H; subst. reflexivity.
Qed.

Lemma log_then {A : Type} (lvl : level) (msg : str) (k : M A) :
  outcome (bind (log lvl msg) (fun _ => k)) = outcome k.
Proof. reflexivity. Qed.

Ltac bind_inv H :=
  let a := fresh "a" in
  let Ha := fresh "Ha" in
  apply bind_Ok in H; destruct H as [a [Ha H]].

(** ** The structure of the manifest *)

Section ManifestStructure.
Variables (env : Env) (source_type source_dir default_dest_dir : str)
          (possible_dest_dirs ignores : list str) (overrides : PyDict.dict (list str))
          (base_installer_only : bool).

Local Abbreviation body :=
  (add_game env source_type source_dir default_dest_dir possible_dest_dirs
            overrides base_installer_only).
Local Abbreviation built :=
  (built_record env source_type source_dir default_dest_dir possible_dest_dirs
                overrides base_installer_only).

Lemma add_game_Ok (acc : manifest) (item : str * str) (m : manifest) :
  outcome (body acc item) = Ok m ->
  exists game_data, built item (fst item, game_data) /\ m = PyDict.set (fst item) game_data acc.
Proof.
  destruct item as [game_key source_folder_name]. unfold body, add_game.
  intros H. rewrite log_then in H.
  bind_inv H. destruct a as [name version].
  bind_inv H. rename a into dest.
  bind_inv H. rename a into installers.
  unfold ret, outcome in H; simpl in H. inversion H; subst m.
  eexists. split; [|reflexivity].
  split; [reflexivity|]. exists name. simpl. repeat split; assumption.
Qed.

Lemma for_each_add_game (items : list (str * str)) :
  forall (acc m : manifest),
    outcome (for_each items acc body) = Ok m ->
    NoDup (PyDict.keys items) ->
    (forall k, In k (PyDict.keys items) -> ~ In k (PyDict.keys acc)) ->
    exists entries, m = acc ++ entries /\ Forall2 built items entries.
Proof.
  induction items as [|item items IH]; intros acc m H Hnd Hfresh.
  - simpl in H. inversion H; subst. exists []. split; [now rewrite app_nil_r | constructor].
  - simpl in H. bind_inv H.
    destruct (add_game_Ok _ _ Ha) as [game_data [Hb ->]].
    simpl in Hnd. inversion Hnd as [|? ? Hnin Hnd']; subst.
    rewrite keys_set_fresh in H by (apply Hfresh; now left).
    destruct (IH _ _ H Hnd') as [entries [-> Hall]].
    + intros k Hk Hin. unfold PyDict.keys in Hin. rewrite map_app in Hin.
      apply in_app_or in Hin. destruct Hin as [Hin|[<-|[]]].
      * apply (Hfresh k); [now right | exact Hin].
      * apply Hnin. exact Hk.
    + exists ((fst item, game_data) :: entries). split; [now rewrite <- app_assoc|].
      constructor; assumption.
Qed.

Lemma latest_of_groups_NoDup (groups : PyDict.dict (list source_folder_tuple)) :
  NoDup (PyDict.keys (latest_of_groups groups)).
Proof.
  unfold latest_of_groups.
  assert (G : forall acc : PyDict.dict str, NoDup (PyDict.keys acc) ->
            NoDup (PyDict.keys (fold_left
              (fun latest '(game_key, source_folder_tuples) =>
                 match PyList.sort key_lt sort_key true source_folder_tuples with
                 | (_, latest_folder_name) :: _ => PyDict.set game_key latest_folder_name latest
                 | [] => latest
                 end) groups acc))).
  { induction groups as [|[k l] groups IH]; intros acc Hacc; cbn [fold_left]; [assumption|].
    apply IH. destruct (PyList.sort key_lt sort_key true l) as [|[? ?] ?]; [assumption|].
    now apply keys_set_NoDup. }
  apply G. constructor.
Qed.

Lemma latest_NoDup (latest : PyDict.dict str) :
  outcome (_get_latest_source_folder_by_game_key env source_type source_dir ignores)
  = Ok latest ->
  NoDup (PyDict.keys latest).
Proof.
  unfold _get_latest_source_folder_by_game_key. intros H.
  bind_inv H. bind_inv H. inversion H; subst. apply latest_of_groups_NoDup.
Qed.

(** A manifest that is returned was built entry by entry from the
    latest folders, and is the manifest that was written. *)
Lemma generate_manifest_Ok (m : manifest) :
  isdir env source_dir = true ->
  outcome (generate_manifest env source_type source_dir default_dest_dir possible_dest_dirs
                             ignores overrides base_installer_only) = Ok m ->
  exists latest,
    outcome (_get_latest_source_folder_by_game_key env source_type source_dir ignores)
    = Ok latest
    /\ Forall2 built latest m
    /\ In (SavedJson (join (manifests_output_dir env) (source_type ++ txt ".json")) m)
          (events (generate_manifest env source_type source_dir default_dest_dir
                                     possible_dest_dirs ignores overrides
                                     base_installer_only)).
Proof.
  intros Hdir H. unfold generate_manifest in *. rewrite Hdir in *. simpl negb in *. cbv iota in *.
  rewrite log_then in H.
  bind_inv H. rename a into latest. exists latest. split; [exact Ha|].
  bind_inv H. rename a into manifest_data. rename Ha0 into Hloop.
  bind_inv H. rename Ha0 into Hsave.
  rewrite log_then in H. inversion H; subst m.
  destruct (for_each_add_game _ _ Hloop (latest_NoDup Ha)) as [entries [-> Hall]];
    [intros k _ []|].
  split; [exact Hall|].
  simpl app in *.
  rewrite (bind_events _ _ (a:=tt)) by reflexivity.
  rewrite (bind_events _ _ Ha).
  rewrite (bind_events _ _ Hloop).
  apply in_or_app. right. apply in_or_app. right. apply in_or_app. right.
  unfold save_json in *. destruct (save_ok env _);
    [|destruct (save_opens env _); discriminate Hsave].
  rewrite (bind_events _ _ (a:=tt)) by reflexivity.
  apply in_or_app. left. now left.
Qed.

Lemma Forall2_built_keys (latest : PyDict.dict str) (m : manifest) :
  Forall2 built latest m -> PyDict.keys m = PyDict.keys latest.
Proof.
  induction 1 as [|item entry latest m Hb _ IH]; simpl; [reflexivity|].
  destruct Hb as [-> _]. now f_equal.
Qed.

Lemma Forall2_built_In (latest : PyDict.dict str) (m : manifest) (item : str * str) :
  Forall2 built latest m -> In item latest ->
  exists game_data, In (fst item, game_data) m /\ built item (fst item, game_data).
Proof.
  induction 1 as [|item' entry latest m Hb _ IH]; simpl; [tauto|].
  intros [->|Hin].
  - destruct entry as [k game_data]. destruct Hb as [Hk Hb]. simpl in Hk. subst k.
    exists game_data. split; [now left|]. split; [reflexivity|exact Hb].
  - destruct (IH Hin) as [game_data [Hm Hb']]. exists game_data. split; [now right|exact Hb'].
Qed.

End ManifestStructure.


(** ** The manifest builder *)

(** C9. When the source directory is missing or is not a directory,
    [generate_manifest] returns the empty manifest, its only effect is
    one warning, it raises nothing and writes no manifest file. *)
Theorem missing_source_dir_empty_manifest
        (env : Env) (source_type source_dir default_dest_dir : str)
        (possible_dest_dirs ignores : list str) (overrides : PyDict.dict (list str))
        (base_installer_only : bool) :
  isdir env source_dir = false ->
  let run := generate_manifest env source_type source_dir default_dest_dir
                               possible_dest_dirs ignores overrides base_installer_only in
  outcome run = Ok []
  /\ events run = [Log WARNING (txt "Source directory not found. Skipping: " ++ source_dir)]
  /\ forall path data, ~ In (SavedJson path data) (events run).
Proof.
  intros Hdir run. subst run. unfold generate_manifest. rewrite Hdir. simpl.
  repeat split. intros path data [H|[]]. discriminate H.
Qed.

Lemma missing_source_dir_empty_manifest_witness :
  let run := generate_manifest Example.env (txt "gog-games") (txt "/nowhere") Example.dst
                               Example.dsts [] [] false in
  outcome run = Ok []
  /\ events run = [Log WARNING (txt "Source directory not found. Skipping: " ++ txt "/nowhere")]
  /\ forall path data, ~ In (SavedJson path data) (events run).
Proof.
  apply (missing_source_dir_empty_manifest Example.env (txt "gog-games") (txt "/nowhere")).
  reflexivity.
Defined.

Lemma Forall2_In_r {A B : Type} (R : A -> B -> Prop) (l : list A) (l' : list B) (b : B) :
  Forall2 R l l' -> In b l' -> exists a, In a l /\ R a b.
Proof.
  induction 1 as [|x y l l' HR _ IH]; simpl; [tauto|].
  intros [<-|Hin].
  - exists x. split; [now left|assumption].
  - destruct (IH Hin) as [a [Ha HRa]]. exists a. split; [now right|assumption].
Qed.



(** ** The destination directory *)

Lemma existing_dest_dir_Ok (env : Env) (folder_name game_dest_dir d : str)
      (possible_dest_dirs : list str) :
  outcome (existing_dest_dir env possible_dest_dirs folder_name game_dest_dir) = Ok d ->
  (exists before x after,
      possible_dest_dirs = before ++ x :: after
      /\ Forall (fun d' => unpopulated env (join d' folder_name)) before
      /\ populated env (join x folder_name)
      /\ d = join x folder_name)
  \/ (Forall (fun d' => unpopulated env (join d' folder_name)) possible_dest_dirs
      /\ d = game_dest_dir).
Proof.
  induction possible_dest_dirs as [|x dirs IH]; simpl; intros H.
  - right. inversion H. split; [constructor|reflexivity].
  - assert (Hstep : unpopulated env (join x folder_name) ->
                    outcome (existing_dest_dir env dirs folder_name game_dest_dir) = Ok d ->
                    (exists before x0 after,
                        x :: dirs = before ++ x0 :: after
                        /\ Forall (fun d' => unpopulated env (join d' folder_name)) before
                        /\ populated env (join x0 folder_name)
                        /\ d = join x0 folder_name)
                    \/ (Forall (fun d' => unpopulated env (join d' folder_name)) (x :: dirs)
                        /\ d = game_dest_dir)).
    { intros Hun Hrest. destruct (IH Hrest) as [[before [x0 [after [-> [Hb [Hp ->]]]]]]|[Hall ->]].
      - left. exists (x :: before), x0, after.
        split; [reflexivity|]. split; [now constructor|]. split; [assumption|reflexivity].
      - right. split; [now constructor|reflexivity]. }
    destruct (path_exists env (join x folder_name)) eqn:Hex.
    + bind_inv H. unfold os_listdir in Ha.
      destruct (listdir env (join x folder_name)) as [entries|] eqn:Hls; [|discriminate Ha].
      inversion Ha; subst a. destruct entries as [|e es]; simpl in H.
      * apply Hstep; [|exact H]. right. now split.
      * left. exists [], x, dirs. inversion H.
        split; [reflexivity|]. split; [constructor|]. split; [|reflexivity].
        split; [assumption|]. now exists e, es.
    + apply Hstep; [|exact H]. now left.
Qed.

Lemma existing_dest_dir_ext (env env' : Env) (folder_name game_dest_dir : str)
      (possible_dest_dirs : list str) :
  (forall p, path_exists env' p = path_exists env p) ->
  (forall p, listdir env' p = listdir env p) ->
  existing_dest_dir env' possible_dest_dirs folder_name game_dest_dir
  = existing_dest_dir env possible_dest_dirs folder_name game_dest_dir.
Proof.
  intros Hex Hls. induction possible_dest_dirs as [|x dirs IH]; simpl; [reflexivity|].
  rewrite Hex, IH. unfold os_listdir. rewrite Hls. reflexivity.
Qed.

(** C5. In every record of a generated manifest the destination is
    [join d folder_name] for the first [d] of [possible_dest_dirs] under
    which [folder_name] exists and lists an entry, the directories before
    it being missing or empty, and it is [join default_dest_dir
    folder_name] when there is no such [d].  Only the existence test and
    the directory listings decide: an environment that agrees on these
    two yields the same destination. *)
Theorem destination_is_first_populated
        (env : Env) (source_type source_dir default_dest_dir : str)
        (possible_dest_dirs ignores : list str) (overrides : PyDict.dict (list str))
        (base_installer_only : bool) (m : manifest) (game_key : str) (game_data : game_record) :
  isdir env source_dir = true ->
  outcome (generate_manifest env source_type source_dir default_dest_dir possible_dest_dirs
                             ignores overrides base_installer_only) = Ok m ->
  PyDict.get game_key m = Some game_data ->
  let folder_name := game_name game_data in
  ((exists before d after,
       possible_dest_dirs = before ++ d :: after
       /\ Forall (fun d' => unpopulated env (join d' folder_name)) before
       /\ populated env (join d folder_name)
       /\ destination_directory game_data = join d folder_name)
   \/ (Forall (fun d' => unpopulated env (join d' folder_name)) possible_dest_dirs
       /\ destination_directory game_data = join default_dest_dir folder_name))
  /\ forall env' : Env,
      (forall p, path_exists env' p = path_exists env p) ->
      (forall p, listdir env' p = listdir env p) ->
      outcome (existing_dest_dir env' possible_dest_dirs folder_name
                                 (join default_dest_dir folder_name))
      = Ok (destination_directory game_data).
Proof.
  intros Hdir H Hget folder_name.
  destruct (generate_manifest_Ok _ _ _ _ _ _ _ _ Hdir H) as [latest [_ [Hall _]]].
  apply get_Some_In in Hget.
  destruct (@Forall2_In_r _ _ _ _ _ _ Hall Hget) as [item [_ Hb]].
  destruct Hb as [_ [name [_ [_ [_ [Hdest _]]]]]]. simpl in Hdest.
  split.
  - exact (@existing_dest_dir_Ok _ _ _ _ _ Hdest).
  - intros env' Hex Hls. subst folder_name.
    rewrite (@existing_dest_dir_ext env env' _ _ _ Hex Hls). exact Hdest.
Qed.

Lemma destination_is_first_populated_witness :
  let folder_name := game_name Example.mygame_record in
  ((exists before d after,
       Example.dsts = before ++ d :: after
       /\ Forall (fun d' => unpopulated Example.env (join d' folder_name)) before
       /\ populated Example.env (join d folder_name)
       /\ destination_directory Example.mygame_record = join d folder_name)
   \/ (Forall (fun d' => unpopulated Example.env (join d' folder_name)) Example.dsts
       /\ destination_directory Example.mygame_record = join Example.dst folder_name))
  /\ forall env' : Env,
      (forall p, path_exists env' p = path_exists Example.env p) ->
      (forall p, listdir env' p = listdir Example.env p) ->
      outcome (existing_dest_dir env' Example.dsts folder_name (join Example.dst folder_name))
      = Ok (destination_directory Example.mygame_record).
Proof.
  apply (destination_is_first_populated Example.env (txt "gog-games") Example.src Example.dst
                                        Example.dsts [txt "*_old"] [] false
                                        (m:=Example.manifest_all) (txt "mygame")).
  - reflexivity.
  - vm_compute. reflexivity.
  - vm_compute. reflexivity.
Defined.

(** The second destination root is the one chosen in the scenario: the
    first holds an empty [Mygame], the second a populated one. *)
Example destination_second_root :
  destination_directory Example.mygame_record = txt "/dst2/Mygame".
Proof. reflexivity. Qed.

(** ** Overrides *)

(** C4, as amended. For the latest folder of every game key, the record
    carries the override list verbatim, whatever the folder contains,
    when the overrides map gives the folder a non-empty list; when the
    folder is absent from the map, or mapped to the empty list, the
    record carries what [_get_sorted_installers] returns. *)
Theorem override_used_when_nonempty
        (env : Env) (source_type source_dir default_dest_dir : str)
        (possible_dest_dirs ignores : list str) (overrides : PyDict.dict (list str))
        (base_installer_only : bool) (m : manifest) (latest : PyDict.dict str)
        (game_key source_folder_name : str) :
  isdir env source_dir = true ->
  outcome (generate_manifest env source_type source_dir default_dest_dir possible_dest_dirs
                             ignores overrides base_installer_only) = Ok m ->
  outcome (_get_latest_source_folder_by_game_key env source_type source_dir ignores)
  = Ok latest ->
  In (game_key, source_folder_name) latest ->
  exists game_data,
    PyDict.get game_key m = Some game_data
    /\ match PyDict.get source_folder_name overrides with
       | Some (p :: ps) => sorted_installers game_data = p :: ps
       | _ => outcome (_get_sorted_installers env (_clean_game_key game_key)
                                              (join source_dir source_folder_name)
                                              base_installer_only)
              = Ok (sorted_installers game_data)
       end.
Proof.
  intros Hdir H Hl Hin.
  destruct (generate_manifest_Ok _ _ _ _ _ _ _ _ Hdir H) as [latest' [Hl' [Hall _]]].
  rewrite Hl in Hl'. inversion Hl'; subst latest'.
  destruct (Forall2_built_In (game_key, source_folder_name) Hall Hin) as [game_data [Hm Hb]].
  simpl in Hm. exists game_data. split.
  - apply get_In; [|exact Hm]. rewrite (Forall2_built_keys Hall).
    exact (latest_NoDup _ _ _ _ Hl).
  - destruct Hb as [_ [name [_ [_ [_ [_ Hi]]]]]]. simpl in Hi.
    unfold installers_for in Hi.
    destruct (PyDict.get source_folder_name overrides) as [[|p ps]|]; try exact Hi.
    rewrite log_then in Hi. now inversion Hi.
Qed.

Lemma override_used_when_nonempty_witness :
  exists game_data,
    PyDict.get (txt "mygame") Example.manifest_listed_override = Some game_data
    /\ match PyDict.get (txt "mygame_windows_gog_(1.5.0)") Example.listed_override with
       | Some (p :: ps) => sorted_installers game_data = p :: ps
       | _ => outcome (_get_sorted_installers Example.env (_clean_game_key (txt "mygame"))
                                              (join Example.src (txt "mygame_windows_gog_(1.5.0)"))
                                              true)
              = Ok (sorted_installers game_data)
       end.
Proof.
  apply (override_used_when_nonempty
           Example.env (txt "gog-games") Example.src Example.dst Example.dsts [txt "*_old"]
           Example.listed_override true (m:=Example.manifest_listed_override)
           (latest:=[(txt "game", txt "game");
                     (txt "mygame", txt "mygame_windows_gog_(1.5.0)");
                     (txt "empty", txt "empty_windows_gog_(2.0)")])).
  - reflexivity.
  - vm_compute. reflexivity.
  - vm_compute. reflexivity.
  - right. left. reflexivity.
Defined.

(** C4, as stated, fails on an override that is the empty list: the
    folder is a key of the overrides map, yet the record carries the
    installer found by the resolver. *)
Lemma empty_override_not_used :
  exists game_data,
    outcome (generate_manifest Example.env (txt "gog-games") Example.src Example.dst
                               Example.dsts [txt "*_old"] Example.empty_override true)
    = Ok Example.manifest_empty_override
    /\ PyDict.get (txt "mygame") Example.manifest_empty_override = Some game_data
    /\ source_directory game_data = join Example.src (txt "mygame_windows_gog_(1.5.0)")
    /\ PyDict.get (txt "mygame_windows_gog_(1.5.0)") Example.empty_override = Some []
    /\ sorted_installers game_data = [txt "setup_mygame_deluxe_content.exe"]
    /\ sorted_installers game_data <> [].
Proof.
  eexists. split; [vm_compute; reflexivity|].
  split; [vm_compute; reflexivity|].
  split; [vm_compute; reflexivity|].
  split; [vm_compute; reflexivity|].
  split; [reflexivity|]. discriminate.
Qed.

(** ** The base installer *)

Section SortFacts.
Variables (A K : Type) (ltb : K -> K -> bool) (key : A -> K).

Lemma insert_In (x y : A) (l : list A) :
  In y (PyList.insert ltb key x l) <-> y = x \/ In y l.
Proof.
  induction l as [|z l IH]; simpl.
  - intuition congruence.
  - destruct (ltb (key z) (key x)); simpl; [rewrite IH|]; intuition congruence.
Qed.

Lemma stable_sort_In (y : A) (l : list A) :
  In y (PyList.stable_sort ltb key l) <-> In y l.
Proof.
  induction l as [|x l IH]; simpl; [tauto|].
  unfold PyList.stable_sort in *. simpl. rewrite insert_In, IH. intuition congruence.
Qed.

Lemma sort_In (reverse : bool) (y : A) (l : list A) :
  In y (PyList.sort ltb key reverse l) <-> In y l.
Proof.
  unfold PyList.sort. destruct reverse; [|apply stable_sort_In].
  rewrite <- in_rev, stable_sort_In, <- in_rev. reflexivity.
Qed.

Lemma insert_not_nil (x : A) (l : list A) : PyList.insert ltb key x l <> [].
Proof. destruct l as [|z l]; simpl; [discriminate|]. now destruct (ltb (key z) (key x)). Qed.

Hypothesis ltb_asym :
  forall a b, ltb (key a) (key b) = true -> ltb (key b) (key a) = false.
Hypothesis not_ltb_trans :
  forall a b c, ltb (key b) (key a) = false -> ltb (key c) (key b) = false ->
                ltb (key c) (key a) = false.

Local Abbreviation ascending := (fun a b : A => ltb (key b) (key a) = false).

Lemma insert_ascending (x : A) (l : list A) :
  StronglySorted ascending l -> StronglySorted ascending (PyList.insert ltb key x l).
Proof.
  induction 1 as [|z l Hs IH Hall]; simpl.
  - repeat constructor.
  - destruct (ltb (key z) (key x)) eqn:Hlt.
    + constructor; [exact IH|].
      rewrite Forall_forall in *. intros y Hy. apply insert_In in Hy.
      destruct Hy as [->|Hy]; [now apply ltb_asym|now apply Hall].
    + constructor; [now constructor|].
      constructor; [exact Hlt|].
      rewrite Forall_forall in *. intros y Hy. specialize (Hall y Hy). simpl in *.
      now apply not_ltb_trans with z.
Qed.

Lemma stable_sort_ascending (l : list A) :
  StronglySorted ascending (PyList.stable_sort ltb key l).
Proof.
  induction l as [|x l IH]; [constructor|].
  unfold PyList.stable_sort in *. simpl. now apply insert_ascending.
Qed.

(** The last element after an insertion into an ascending list: the
    inserted element when it is greater than the last one, the last one
    otherwise. *)
Lemma last_cons (z d : A) (l : list A) : l <> [] -> last (z :: l) d = last l d.
Proof. destruct l; [congruence|reflexivity]. Qed.

Lemma last_insert (x d : A) (l : list A) :
  StronglySorted ascending l -> l <> [] ->
  last (PyList.insert ltb key x l) d
  = if ltb (key (last l d)) (key x) then x else last l d.
Proof.
  induction 1 as [|z l Hs IH Hall]; intros Hne; [congruence|].
  destruct l as [|y l].
  - simpl. now destruct (ltb (key z) (key x)).
  - change (PyList.insert ltb key x (z :: y :: l))
      with (if ltb (key z) (key x) then z :: PyList.insert ltb key x (y :: l)
            else x :: z :: y :: l).
    rewrite (last_cons z d (l:=y :: l)) by discriminate.
    destruct (ltb (key z) (key x)) eqn:Hlt.
    + rewrite last_cons by apply insert_not_nil. apply IH. discriminate.
    + rewrite !last_cons by discriminate.
      assert (Hlast : ltb (key (last (y :: l) d)) (key x) = false).
      { apply not_ltb_trans with z; [exact Hlt|].
        rewrite Forall_forall in Hall.
        apply Hall. destruct (exists_last (l:=y :: l)) as [l' [e E]]; [discriminate|].
        rewrite E, last_last. apply in_or_app. right. now left. }
      now rewrite Hlast.
Qed.

Lemma last_stable_sort_rev (d x : A) (l : list A) :
  last (PyList.stable_sort ltb key (rev (x :: l))) d
  = fold_left (fun m y => if ltb (key m) (key y) then y else m) l x.
Proof.
  induction l as [|y l IH] using rev_ind; [reflexivity|].
  rewrite fold_left_app. cbn [fold_left]. rewrite <- IH.
  change (x :: l ++ [y]) with ((x :: l) ++ [y]). rewrite rev_app_distr. cbn [rev app].
  change (PyList.stable_sort ltb key (y :: rev l ++ [x]))
    with (PyList.insert ltb key y (PyList.stable_sort ltb key (rev l ++ [x]))).
  change (rev l ++ [x]) with (rev (x :: l)).
  apply last_insert; [apply stable_sort_ascending|].
  intros E. apply (f_equal (fun t => In x t)) in E.
  assert (Hin : In x (PyList.stable_sort ltb key (rev (x :: l)))).
  { apply stable_sort_In, in_rev. rewrite rev_involutive. now left. }
  rewrite E in Hin. destruct Hin.
Qed.

(** The head of a descending sort is the first element of greatest key. *)
Lemma sort_reverse_head (l : list A) :
  hd_error (PyList.sort ltb key true l) = first_greatest ltb key l.
Proof.
  destruct l as [|x l]; [reflexivity|].
  unfold PyList.sort, first_greatest. rewrite <- (last_stable_sort_rev x x l).
  destruct (exists_last (l:=PyList.stable_sort ltb key (rev (x :: l)))) as [l' [e E]].
  - intros E. assert (Hin : In x (PyList.stable_sort ltb key (rev (x :: l)))).
    { apply stable_sort_In, in_rev. rewrite rev_involutive. now left. }
    rewrite E in Hin. destruct Hin.
  - rewrite E, last_last, rev_app_distr. reflexivity.
Qed.

End SortFacts.

Section SortByNat.
Variables (A : Type) (key : A -> nat).

Local Abbreviation insert_nat := (PyList.insert Nat.ltb key).
Local Abbreviation sort_nat := (PyList.stable_sort Nat.ltb key).
Local Abbreviation by_key := (fun a b : A => key a <= key b).

Lemma insert_sorted (x : A) (l : list A) :
  StronglySorted by_key l -> StronglySorted by_key (insert_nat x l).
Proof.
  induction 1 as [|z l Hs IH Hall]; simpl.
  - repeat constructor.
  - destruct (Nat.ltb_spec (key z) (key x)) as [Hlt|Hge].
    + constructor; [exact IH|].
      rewrite Forall_forall in *. intros y Hy. apply insert_In in Hy.
      destruct Hy as [->|Hy]; [lia|now apply Hall].
    + constructor; [now constructor|].
      constructor; [exact Hge|].
      rewrite Forall_forall in *. intros y Hy. specialize (Hall y Hy). simpl in *. lia.
Qed.

Lemma stable_sort_sorted (l : list A) : StronglySorted by_key (sort_nat l).
Proof.
  induction l as [|x l IH]; [constructor|].
  unfold PyList.stable_sort in *. simpl. now apply insert_sorted.
Qed.

(** The first element of a sorted list that passes a test has the least
    key among those that pass. *)
Lemma find_sorted_least (P : A -> bool) (l : list A) (q : A) :
  StronglySorted by_key l -> find P l = Some q ->
  forall p, In p l -> P p = true -> key q <= key p.
Proof.
  induction 1 as [|z l Hs IH Hall]; simpl; [discriminate|].
  destruct (P z) eqn:Hz; intros Hq p Hin Hp.
  - inversion Hq; subst q. destruct Hin as [->|Hin]; [lia|].
    rewrite Forall_forall in Hall. now apply Hall.
  - destruct Hin as [->|Hin]; [congruence|]. now apply IH.
Qed.

End SortByNat.

(** C3. When some [setup_*.exe] candidate of the game folder has its
    [-1.bin] companion there, the base installer is a candidate with a
    companion, the one of shortest name among them, whatever the clean
    key is and however long the names of the other candidates are;
    no pattern is compiled and nothing is logged. *)
Theorem companion_installer_wins (env : Env) (clean_key game_source_dir p : str) :
  let candidates := glob env (join game_source_dir (txt "setup_*.exe")) in
  In p candidates ->
  has_companion env game_source_dir p = true ->
  exists q,
    _get_base_installer_path env clean_key game_source_dir = ret (Some q)
    /\ In q candidates
    /\ has_companion env game_source_dir q = true
    /\ forall p', In p' candidates -> has_companion env game_source_dir p' = true ->
                  basename_length q <= basename_length p'.
Proof.
  intros candidates Hin Hp. unfold _get_base_installer_path. fold candidates.
  destruct candidates as [|c cs] eqn:Hc; [destruct Hin|]. rewrite <- Hc in *.
  replace (negb (PyList.truthy candidates)) with false by (now rewrite Hc).
  cbv iota. unfold PyList.sort.
  destruct (find (has_companion env game_source_dir)
                 (PyList.stable_sort Nat.ltb basename_length candidates)) as [q|] eqn:Hfind.
  - exists q. split; [reflexivity|].
    destruct (find_some _ _ Hfind) as [Hq1 Hq2]. apply stable_sort_In in Hq1.
    split; [exact Hq1|]. split; [exact Hq2|].
    intros p' Hin' Hp'.
    apply (@find_sorted_least _ basename_length _ _ _ (stable_sort_sorted basename_length candidates) Hfind).
    + now apply stable_sort_In.
    + exact Hp'.
  - exfalso. pose proof (find_none _ _ Hfind p) as Hnone.
    rewrite Hnone in Hp; [discriminate|]. now apply stable_sort_In.
Qed.

Lemma companion_installer_wins_witness :
  let dir := txt "/src/mygame_windows_gog_(1.5.0)" in
  let candidates := glob Example.env (join dir (txt "setup_*.exe")) in
  exists q,
    _get_base_installer_path Example.env (txt "mygame") dir = ret (Some q)
    /\ In q candidates
    /\ has_companion Example.env dir q = true
    /\ forall p', In p' candidates -> has_companion Example.env dir p' = true ->
                  basename_length q <= basename_length p'.
Proof.
  apply (companion_installer_wins Example.env (txt "mygame")
           (txt "/src/mygame_windows_gog_(1.5.0)")
           (txt "/src/mygame_windows_gog_(1.5.0)/setup_mygame_deluxe_content.exe")).
  - vm_compute. right. left. reflexivity.
  - vm_compute. reflexivity.
Defined.

(** In that folder the shorter [setup_mygame.exe] matches the key and has
    no companion; the longer installer with a companion is the base. *)
Example companion_beats_shorter_name :
  glob Example.env (join (txt "/src/mygame_windows_gog_(1.5.0)") (txt "setup_*.exe"))
  = [txt "/src/mygame_windows_gog_(1.5.0)/setup_mygame.exe";
     txt "/src/mygame_windows_gog_(1.5.0)/setup_mygame_deluxe_content.exe"]
  /\ _get_base_installer_path Example.env (txt "mygame") (txt "/src/mygame_windows_gog_(1.5.0)")
     = ret (Some (txt "/src/mygame_windows_gog_(1.5.0)/setup_mygame_deluxe_content.exe")).
Proof. split; vm_compute; reflexivity. Qed.

(** What [_get_sorted_installers] returns, when it returns, with
    [base_installer_only]: nothing when there is no candidate, the base
    installer alone otherwise. *)
Lemma base_only_shape (env : Env) (clean_key game_source_dir : str) (l : list str) :
  outcome (_get_sorted_installers env clean_key game_source_dir true) = Ok l ->
  length l <= 1
  /\ (glob env (join game_source_dir (txt "setup_*.exe")) = [] -> l = []).
Proof.
  unfold _get_sorted_installers. intros H. bind_inv H.
  split.
  - destruct a as [[|c base]|]; inversion H; simpl; lia.
  - intros Hnone. unfold _get_base_installer_path in Ha. rewrite Hnone in Ha.
    simpl in Ha. inversion Ha; subst a. now inversion H.
Qed.

(** The call returns whenever the pattern of the key compiles. *)
Lemma base_only_returns (env : Env) (clean_key game_source_dir : str) (r : regex) :
  re_compile_i env (txt "^setup_" ++ key_match_pattern clean_key) = Some r ->
  exists l, outcome (_get_sorted_installers env clean_key game_source_dir true) = Ok l
            /\ length l <= 1.
Proof.
  intros Hr.
  assert (H : exists o, outcome (_get_base_installer_path env clean_key game_source_dir) = Ok o).
  { unfold _get_base_installer_path, compile_i. rewrite Hr.
    set (all_paths := glob env (join game_source_dir (txt "setup_*.exe"))).
    destruct (negb (PyList.truthy all_paths)); [now eexists|].
    set (sorted := PyList.sort Nat.ltb basename_length false all_paths).
    destruct (find (has_companion env game_source_dir) sorted); [now eexists|].
    rewrite (bind_outcome _ _ (a:=r)) by reflexivity.
    destruct (filter (fun p => found (re_match r (basename p))) sorted); now eexists. }
  destruct H as [o Ho]. unfold _get_sorted_installers.
  rewrite (bind_outcome _ _ Ho).
  destruct o as [[|c base]|]; eexists; (split; [reflexivity|simpl; lia]).
Qed.

(** C8. With the clean key [game(] and a folder whose only candidate,
    [setup_game.exe], has no companion, the call with
    [base_installer_only] returns no sequence: compiling [^setup_game(]
    raises [re.error].  A source folder of that name, in a source of the
    default type, gives that key, and the manifest is not built. *)
Theorem base_only_raises_on_unclosed_parenthesis :
  _clean_game_key (txt "game(") = txt "game("
  /\ glob Example.env (join (txt "/plain/game(") (txt "setup_*.exe"))
     = [txt "/plain/game(/setup_game.exe"]
  /\ has_companion Example.env (txt "/plain/game(") (txt "/plain/game(/setup_game.exe") = false
  /\ outcome (_get_sorted_installers Example.env (txt "game(") (txt "/plain/game(") true)
     = Raise (ReError (txt "^setup_game("))
  /\ outcome (_get_latest_source_folder_by_game_key Example.env (txt "default")
                                                    (txt "/plain") [])
     = Ok [(txt "game(", txt "game(")]
  /\ outcome (generate_manifest Example.env (txt "default") (txt "/plain") Example.dst
                                Example.dsts [] [] true)
     = Raise (ReError (txt "^setup_game(")).
Proof. repeat split; vm_compute; reflexivity. Qed.

(** ** The latest folder of a game key *)

Lemma key_lt_asym (a b : source_folder_tuple) :
  key_lt (sort_key a) (sort_key b) = true -> key_lt (sort_key b) (sort_key a) = false.
Proof.
  destruct a as [[x|] na], b as [[y|] nb]; unfold key_lt, sort_key; simpl;
    try discriminate; try reflexivity.
  rewrite Z.ltb_lt, Z.ltb_ge. lia.
Qed.

Lemma key_lt_not_trans (a b c : source_folder_tuple) :
  key_lt (sort_key b) (sort_key a) = false -> key_lt (sort_key c) (sort_key b) = false ->
  key_lt (sort_key c) (sort_key a) = false.
Proof.
  destruct a as [[x|] na], b as [[y|] nb], c as [[z|] nc]; unfold key_lt, sort_key; simpl;
    try discriminate; try reflexivity.
  rewrite !Z.ltb_ge. lia.
Qed.

(** The folder selected for a group is the first tuple of greatest sort
    key: a later tuple of equal key does not replace it. *)
Lemma latest_is_first_greatest (source_folder_tuples : list source_folder_tuple) :
  hd_error (PyList.sort key_lt sort_key true source_folder_tuples)
  = first_greatest key_lt sort_key source_folder_tuples.
Proof. apply sort_reverse_head; [exact key_lt_asym|exact key_lt_not_trans]. Qed.

(** A tuple without version token has the greatest sort key: a group that
    holds one selects a folder without token. *)
Lemma null_token_always_wins (source_folder_tuples : list source_folder_tuple) (name : str) :
  In (None, name) source_folder_tuples ->
  exists name', hd_error (PyList.sort key_lt sort_key true source_folder_tuples)
                = Some (None, name').
Proof.
  rewrite latest_is_first_greatest. destruct source_folder_tuples as [|t l]; [intros []|].
  unfold first_greatest. intros Hin.
  assert (G : forall l m,
             fst m = None \/ (exists n, In (None, n) l) ->
             fst (fold_left (fun m y => if key_lt (sort_key m) (sort_key y) then y else m) l m)
             = None).
  { clear. induction l as [|y l IH]; intros m H; cbn [fold_left].
    - destruct H as [H|[n []]]. exact H.
    - apply IH. destruct H as [H|[n [->|H]]].
      + left. destruct m as [[x|] nm]; [discriminate H|].
        destruct y as [[v|] ny]; reflexivity.
      + left. destruct m as [[x|] nm]; reflexivity.
      + destruct (key_lt (sort_key m) (sort_key y)); right; now exists n. }
  specialize (G l t).
  destruct (fold_left (fun m y => if key_lt (sort_key m) (sort_key y) then y else m) l t)
    as [v n] eqn:E.
  exists n. simpl in G. rewrite G; [reflexivity|].
  destruct Hin as [->|Hin]; [now left|right; now exists name].
Qed.

(** C1. In a source of type [gog-games] that holds [game] and
    [game_windows_gog_(1.2.0)], both folders have the key [game], the
    first with no version token and the second with token 120; the
    descending sort puts the tuple without token first, and [game] is
    the folder selected.  Between two tokens the greater is selected. *)
Theorem null_token_folder_outranks_versioned :
  key_and_version (txt "gog-games") (txt "game") = (txt "game", None)
  /\ key_and_version (txt "gog-games") (txt "game_windows_gog_(1.2.0)")
     = (txt "game", Some 120%Z)
  /\ PyList.sort key_lt sort_key true
                 [(None, txt "game"); (Some 120%Z, txt "game_windows_gog_(1.2.0)")]
     = [(None, txt "game"); (Some 120%Z, txt "game_windows_gog_(1.2.0)")]
  /\ PyList.sort key_lt sort_key true
                 [(Some 120%Z, txt "game_windows_gog_(1.2.0)"); (None, txt "game")]
     = [(None, txt "game"); (Some 120%Z, txt "game_windows_gog_(1.2.0)")]
  /\ (exists latest,
        outcome (_get_latest_source_folder_by_game_key Example.env (txt "gog-games")
                                                       Example.src [])
        = Ok latest
        /\ PyDict.get (txt "game") latest = Some (txt "game"))
  /\ outcome (group_folders (txt "gog-games") []
                            [txt "game_windows_gog_(1.0.0)"; txt "game_windows_gog_(1.2.0)"])
     = Ok [(txt "game", [(Some 100%Z, txt "game_windows_gog_(1.0.0)");
                         (Some 120%Z, txt "game_windows_gog_(1.2.0)")])]
  /\ latest_of_groups [(txt "game", [(Some 100%Z, txt "game_windows_gog_(1.0.0)");
                                     (Some 120%Z, txt "game_windows_gog_(1.2.0)")])]
     = [(txt "game", txt "game_windows_gog_(1.2.0)")].
Proof.
  repeat split; try (vm_compute; reflexivity).
  eexists. split; vm_compute; reflexivity.
Qed.

(** ** The matcher finds a match exactly when there is one *)

Lemma bool_eq_iff (a b : bool) : (a = true <-> b = true) -> a = b.
Proof. destruct a, b; intuition congruence. Qed.

Lemma found_orelse {A : Type} (x y : option A) :
  found (match x with Some a => Some a | None => y end) = found x || found y.
Proof. now destruct x. Qed.

Section StarLoopFound.
Variables (A : Type) (r1 : regex) (greedy : bool) (k : cont A).
Variable step : bool -> str -> captures -> cont A -> option A.
Hypothesis step_found :
  forall (K : cont A) b s g, blind K ->
    (found (step b s g K) = true <->
     exists b' s', matches r1 b s b' s' /\ found (K b' s' []) = true).
Hypothesis k_blind : blind k.

Lemma star_loop_found (fuel : nat) :
  forall b s g, length s <= fuel ->
    (found (star_loop step greedy k fuel b s g) = true <->
     exists b' s', matches (Star greedy r1) b s b' s' /\ found (k b' s' []) = true).
Proof.
  induction fuel as [|fuel IH]; intros b s g Hlen.
  - assert (E : found (star_loop step greedy k 0 b s g) = found (k b s [])).
    { simpl. destruct greedy; rewrite ?found_orelse; simpl; rewrite (k_blind b s g []);
        now rewrite ?orb_false_r. }
    rewrite E. split.
    + intros Hk. exists b, s. split; [constructor|exact Hk].
    + intros [b' [s' [Hm Hk]]]. inversion Hm; subst; [exact Hk|lia].
  - set (K' := fun (b' : bool) (s' : str) (g' : captures) =>
                 if length s' <? length s then star_loop step greedy k fuel b' s' g' else None).
    assert (HK' : blind K').
    { intros b' s' g' g''. unfold K'. destruct (Nat.ltb_spec (length s') (length s)); [|reflexivity].
      apply bool_eq_iff. rewrite !IH by lia. reflexivity. }
    assert (E : found (star_loop step greedy k (S fuel) b s g)
                = found (step b s g K') || found (k b s [])).
    { simpl. fold K'. destruct greedy; rewrite found_orelse; rewrite (k_blind b s g []);
        [reflexivity|apply orb_comm]. }
    rewrite E, orb_true_iff, (step_found b s g HK'). split.
    + intros [[b1 [s1 [Hm HK1]]]|Hk].
      * unfold K' in HK1. destruct (Nat.ltb_spec (length s1) (length s)); [|discriminate HK1].
        apply IH in HK1; [|lia]. destruct HK1 as [b' [s' [Hm' Hk']]].
        exists b', s'. split; [|exact Hk']. now apply M_StarS with b1 s1.
      * exists b, s. split; [constructor|exact Hk].
    + intros [b' [s' [Hm Hk]]]. inversion Hm; subst.
      * now right.
      * left. exists b1, s1. split; [assumption|]. unfold K'.
        destruct (Nat.ltb_spec (length s1) (length s)); [|lia].
        apply IH; [lia|]. exists b', s'. now split.
Qed.
End StarLoopFound.

Theorem run_found (r : regex) :
  forall (A : Type) (k : cont A) b s g, blind k ->
    (found (run r b s g k) = true <->
     exists b' s', matches r b s b' s' /\ found (k b' s' []) = true).
Proof.
  induction r as [|p|r1 IH1 r2 IH2|r1 IH1 r2 IH2|greedy r1 IH1|n r1 IH1| |];
    intros A k b s g Hk; simpl.
  - rewrite (Hk b s g []). split.
    + intros H. exists b, s. split; [constructor|exact H].
    + intros [b' [s' [Hm H]]]. now inversion Hm; subst.
  - destruct s as [|c s].
    + split; [discriminate|]. intros [b' [s' [Hm _]]]. inversion Hm.
    + destruct (p c) eqn:Hp.
      * rewrite (Hk false s g []). split.
        -- intros H. exists false, s. split; [now constructor|exact H].
        -- intros [b' [s' [Hm H]]]. now inversion Hm; subst.
      * split; [discriminate|]. intros [b' [s' [Hm _]]]. inversion Hm; subst. congruence.
  - assert (HK : blind (fun b' s' g' => run r2 b' s' g' k)).
    { intros b' s' g' g''. apply bool_eq_iff. rewrite !IH2 by exact Hk. reflexivity. }
    rewrite (IH1 _ _ b s g HK). split.
    + intros [b1 [s1 [Hm1 H]]]. apply IH2 in H; [|exact Hk].
      destruct H as [b2 [s2 [Hm2 H]]]. exists b2, s2. split; [|exact H].
      now apply M_Cat with b1 s1.
    + intros [b2 [s2 [Hm H]]]. inversion Hm; subst.
      exists b1, s1. split; [assumption|]. apply IH2; [exact Hk|]. now exists b2, s2.
  - rewrite found_orelse, orb_true_iff, (IH1 _ _ b s g Hk), (IH2 _ _ b s g Hk). split.
    + intros [[b' [s' [Hm H]]]|[b' [s' [Hm H]]]]; exists b', s';
        (split; [|exact H]); [now apply M_AltL|now apply M_AltR].
    + intros [b' [s' [Hm H]]]. inversion Hm; subst; [left|right]; now exists b', s'.
  - apply star_loop_found; [|exact Hk|reflexivity].
    intros K b0 s0 g0 HK. now apply IH1.
  - assert (HK : blind (fun b' s' g' =>
                          k b' s' ((n, firstn (length s - length s') s) :: g'))).
    { intros b' s' g' g''. apply Hk. }
    rewrite (IH1 _ _ b s g HK). split.
    + intros [b' [s' [Hm H]]]. exists b', s'. split; [now constructor|].
      now rewrite (Hk b' s' [] [(n, firstn (length s - length s') s)]).
    + intros [b' [s' [Hm H]]]. inversion Hm; subst. exists b', s'. split; [assumption|].
      now rewrite (Hk b' s' _ []).
  - destruct b.
    + rewrite (Hk true s g []). split.
      * intros H. exists true, s. split; [constructor|exact H].
      * intros [b' [s' [Hm H]]]. now inversion Hm; subst.
    + split; [discriminate|]. intros [b' [s' [Hm _]]]. inversion Hm.
  - destruct (dollar s) eqn:Hd.
    + rewrite (Hk b s g []). split.
      * intros H. exists b, s. split; [now constructor|exact H].
      * intros [b' [s' [Hm H]]]. now inversion Hm; subst.
    + split; [discriminate|]. intros [b' [s' [Hm _]]]. inversion Hm; subst. congruence.
Qed.

(** ** Ignore patterns *)

Lemma special_not_alnum (c : ascii) : is_special c = true -> is_alnum c = false.
Proof.
  destruct c as [[|] [|] [|] [|] [|] [|] [|] [|]]; vm_compute; intros H;
    reflexivity || discriminate H.
Qed.

Lemma plain_not_operator (c : ascii) :
  is_special c = false ->
  Ascii.eqb c "\" = false /\ Ascii.eqb c "." = false /\ Ascii.eqb c "*" = false
  /\ one_of (txt "()[]{}?*+|^$") c = false.
Proof.
  destruct c as [[|] [|] [|] [|] [|] [|] [|] [|]]; vm_compute; intros H;
    (repeat split; reflexivity) || discriminate H.
Qed.

Lemma escape_cons (c : ascii) (p : str) :
  escape (c :: p) = (if is_special c then ["\"%char; c] else [c]) ++ escape p.
Proof. reflexivity. Qed.

Lemma escape_head_not_star (p : str) : strip_prefix ["*"%char] (escape p) = None.
Proof.
  destruct p as [|c p]; [reflexivity|]. rewrite escape_cons.
  destruct (is_special c) eqn:Hc; cbn [app strip_prefix]; [reflexivity|].
  destruct (plain_not_operator c Hc) as [_ [_ [Hstar _]]].
  rewrite Ascii.eqb_sym, Hstar. reflexivity.
Qed.

Lemma strip_prefix_cons (a b : ascii) (p s : str) :
  strip_prefix (a :: p) (b :: s) = if Ascii.eqb a b then strip_prefix p s else None.
Proof. reflexivity. Qed.

Lemma replace_fuel_step (fuel : nat) (old new : str) (c : ascii) (s : str) :
  replace_fuel (S fuel) old new (c :: s)
  = match strip_prefix old (c :: s) with
    | Some rest => new ++ replace_fuel fuel old new rest
    | None => c :: replace_fuel fuel old new s
    end.
Proof. reflexivity. Qed.

Lemma replace_escape (p : str) :
  forall fuel, length (escape p) <= fuel ->
    replace_fuel fuel (txt "\*") (txt ".*") (escape p) = flat_map glob_unit p.
Proof.
  change (txt "\*") with ["\"%char; "*"%char].
  induction p as [|c p IH]; intros fuel Hlen.
  - destruct fuel; reflexivity.
  - rewrite escape_cons in *. cbn [flat_map]. unfold glob_unit at 1.
    destruct (is_special c) eqn:Hc.
    + cbn [app length] in Hlen. destruct fuel as [|fuel]; [lia|].
      cbn [app]. rewrite replace_fuel_step, !strip_prefix_cons.
      change (Ascii.eqb "\" "\") with true. cbv iota.
      rewrite (Ascii.eqb_sym "*" c).
      destruct (Ascii.eqb c "*") eqn:Hstar.
      * cbn [strip_prefix]. rewrite IH by lia. reflexivity.
      * destruct fuel as [|fuel]; [lia|].
        rewrite replace_fuel_step, strip_prefix_cons, escape_head_not_star.
        rewrite IH by lia. now destruct (Ascii.eqb "\" c).
    + destruct (plain_not_operator c Hc) as [Hbs [_ [Hstar _]]]. rewrite Hstar.
      cbn [app length] in Hlen. destruct fuel as [|fuel]; [lia|].
      cbn [app]. rewrite replace_fuel_step, strip_prefix_cons.
      rewrite (Ascii.eqb_sym "\" c), Hbs, IH by lia. reflexivity.
Qed.

Lemma ignore_regex_text_units (p : str) : ignore_regex_text p = flat_map glob_unit p.
Proof.
  unfold ignore_regex_text, replace. change (txt "\*") with ["\"%char; "*"%char].
  cbv iota. apply (replace_escape p). lia.
Qed.

Lemma compile_units (p : str) : compile_escaped (flat_map glob_unit p) = Some (glob_regex p).
Proof.
  induction p as [|c p IH]; [reflexivity|].
  cbn [flat_map glob_regex fold_right]. unfold glob_unit at 1.
  destruct (Ascii.eqb c "*") eqn:Hstar.
  - change (txt ".*") with ["."%char; "*"%char]. cbn [app compile_escaped].
    change (Ascii.eqb "." "\") with false. change (Ascii.eqb "." ".") with true.
    change (Ascii.eqb "*" "*") with true. cbv iota. fold (glob_regex p).
    now rewrite IH.
  - destruct (is_special c) eqn:Hc.
    + cbn [app compile_escaped]. change (Ascii.eqb "\" "\") with true. cbv iota.
      rewrite (special_not_alnum c Hc). fold (glob_regex p). now rewrite IH.
    + destruct (plain_not_operator c Hc) as [Hbs [Hdot [_ Hop]]].
      cbn [app compile_escaped]. rewrite Hbs, Hdot, Hop. fold (glob_regex p). now rewrite IH.
Qed.

Lemma star_chr_elim (greedy : bool) (p : ascii -> bool) (b b' : bool) (s s' : str) :
  matches (Star greedy (Chr p)) b s b' s' ->
  exists w, s = w ++ s' /\ forallb p w = true.
Proof.
  intros H. remember (Star greedy (Chr p)) as r eqn:Hr.
  induction H as [| | | | | |gr r0 b s b1 s1 b2 s2 H1 _ Hlt H2 IH2| | |]; try discriminate Hr.
  - exists []. now split.
  - inversion Hr; subst. inversion H1; subst.
    destruct (IH2 eq_refl) as [w [-> Hw]]. exists (c :: w). split; [reflexivity|].
    simpl. apply andb_true_iff. now split.
Qed.

Lemma star_chr_intro (greedy : bool) (p : ascii -> bool) (w s' : str) :
  forallb p w = true ->
  forall b, exists b', matches (Star greedy (Chr p)) b (w ++ s') b' s'.
Proof.
  induction w as [|c w IH]; intros Hw b.
  - exists b. constructor.
  - simpl in Hw. apply andb_true_iff in Hw. destruct Hw as [Hc Hw].
    destruct (IH Hw false) as [b' Hm]. exists b'.
    apply M_StarS with false (w ++ s'); [now constructor|simpl; lia|exact Hm].
Qed.

Lemma matches_glob (p : str) :
  forall b s, (exists b', matches (glob_regex p) b s b' []) <-> glob_match not_newline p s.
Proof.
  induction p as [|c p IH]; intros b s; cbn [glob_regex fold_right].
  - split.
    + intros [b' H]. inversion H; subst. constructor.
    + intros H. inversion H; subst. exists b. constructor.
  - fold (glob_regex p). destruct (Ascii.eqb c "*") eqn:Hstar.
    + apply Ascii.eqb_eq in Hstar. subst c. split.
      * intros [b' H]. inversion H as [| |r1 r2 b0 s0 b1 s1 b2 s2 Hm1 Hm2| | | | | | |]; subst.
        destruct (star_chr_elim Hm1) as [w [-> Hw]].
        apply G_star; [exact Hw|]. apply (IH b1). now exists b'.
      * intros H. inversion H as [|c p0 s0 Hc Hg|p0 w s0 Hw Hg]; subst; [discriminate|].
        destruct (star_chr_intro true not_newline w s0 Hw b) as [b1 Hm].
        apply (IH b1) in Hg. destruct Hg as [b' Hm']. exists b'.
        now apply M_Cat with b1 s0.
    + split.
      * intros [b' H]. inversion H as [| |r1 r2 b0 s0 b1 s1 b2 s2 Hm1 Hm2| | | | | | |]; subst.
        inversion Hm1 as [|q d b0 s0 Hq| | | | | | | |]; subst.
        apply Ascii.eqb_eq in Hq. subst d. apply G_char; [exact Hstar|].
        apply (IH false). now exists b'.
      * intros H. inversion H as [|c0 p0 s0 Hc Hg|p0 w s0 Hw Hg]; subst.
        -- apply (IH false) in Hg. destruct Hg as [b' Hm]. exists b'.
           apply M_Cat with false s0; [|exact Hm]. constructor. apply Ascii.eqb_refl.
        -- discriminate Hstar.
Qed.

Lemma fullmatch_found (r : regex) (s : str) :
  found (re_fullmatch r s) = true <-> exists b', matches r true s b' [].
Proof.
  unfold re_fullmatch. rewrite run_found.
  - split.
    + intros [b' [s' [Hm H]]]. destruct s'; [|discriminate H]. now exists b'.
    + intros [b' Hm]. now exists b', [].
  - intros b0 s0 g g'. now destruct s0.
Qed.

Lemma is_ignored_spec (ignores : list str) (name : str) :
  exists b, outcome (is_ignored ignores name) = Ok b
            /\ (b = true <-> Exists (fun pat => glob_match not_newline pat name) ignores).
Proof.
  induction ignores as [|pat ignores [b [Hb Hiff]]]; cbn [is_ignored].
  - exists false. split; [reflexivity|]. split; [discriminate|]. intros H. inversion H.
  - rewrite ignore_regex_text_units, compile_units.
    destruct (found (re_fullmatch (glob_regex pat) name)) eqn:Hf.
    + exists true. split; [reflexivity|]. split; [|reflexivity]. intros _.
      apply Exists_cons_hd. apply (matches_glob pat true). now apply fullmatch_found.
    + exists b. split; [exact Hb|]. rewrite Hiff. split.
      * intros H. now apply Exists_cons_tl.
      * intros H. inversion H as [? ? Hhd|? ? Htl]; subst; [|assumption].
        apply (matches_glob pat true) in Hhd. apply fullmatch_found in Hhd. congruence.
Qed.

Lemma grouped_set_existing (k : str) (x : source_folder_tuple)
      (d : PyDict.dict (list source_folder_tuple)) (l : list source_folder_tuple)
      (t : source_folder_tuple) :
  PyDict.get k d = Some l ->
  (In t (grouped_tuples (PyDict.set k (l ++ [x]) d)) <-> t = x \/ In t (grouped_tuples d)).
Proof.
  unfold grouped_tuples. induction d as [|[k' v'] d IH]; simpl; [discriminate|].
  destruct (str_eqb k k'); intros Hget; simpl.
  - inversion Hget; subst. rewrite !in_app_iff. simpl. intuition congruence.
  - rewrite !in_app_iff, (IH Hget). tauto.
Qed.

Lemma grouped_set_new (k : str) (x : source_folder_tuple)
      (d : PyDict.dict (list source_folder_tuple)) (t : source_folder_tuple) :
  PyDict.get k d = None ->
  (In t (grouped_tuples (PyDict.set k [x] d)) <-> t = x \/ In t (grouped_tuples d)).
Proof.
  unfold grouped_tuples. induction d as [|[k' v'] d IH]; simpl.
  - intuition congruence.
  - destruct (str_eqb k k'); intros Hget; [discriminate|]. simpl.
    rewrite !in_app_iff, (IH Hget). tauto.
Qed.

Lemma grouped_setdefault_append (k : str) (x : source_folder_tuple)
      (d : PyDict.dict (list source_folder_tuple)) (t : source_folder_tuple) :
  In t (grouped_tuples (PyDict.setdefault_append k x d)) <-> t = x \/ In t (grouped_tuples d).
Proof.
  unfold PyDict.setdefault_append. destruct (PyDict.get k d) as [l|] eqn:Hget.
  - now apply grouped_set_existing.
  - now apply grouped_set_new.
Qed.

(** The folders that enter the groups are those that no pattern
    matches. *)
Lemma group_folders_spec (source_type : str) (ignores names : list str) :
  forall acc,
  exists groups,
    outcome (for_each names acc
               (fun groups source_folder_name =>
                  bind (is_ignored ignores source_folder_name)
                       (fun ignored =>
                          if ignored then ret groups
                          else
                            let '(game_key, package_version) :=
                              key_and_version source_type source_folder_name in
                            ret (PyDict.setdefault_append
                                   game_key (package_version, source_folder_name) groups))))
    = Ok groups
    /\ forall t,
        In t (grouped_tuples groups) <->
        In t (grouped_tuples acc)
        \/ (In (snd t) names
            /\ ~ Exists (fun pat => glob_match not_newline pat (snd t)) ignores
            /\ fst t = snd (key_and_version source_type (snd t))).
Proof.
  induction names as [|name names IH]; intros acc; cbn [for_each].
  - exists acc. split; [reflexivity|]. intros t. simpl. tauto.
  - destruct (is_ignored_spec ignores name) as [b [Hb Hiff]].
    destruct b.
    + destruct (IH acc) as [groups [Hg Hall]]. exists groups. split.
      * erewrite bind_outcome; [exact Hg|]. erewrite bind_outcome; [|exact Hb]. reflexivity.
      * intros t. rewrite Hall. split; [intros [H|[H1 [H2 H3]]]; [now left|right]|].
        -- split; [now right|]. now split.
        -- intros [H|[[Hn|H1] [H2 H3]]]; [now left| |right; now repeat split].
           exfalso. apply H2. rewrite <- Hn. now apply Hiff.
    + destruct (key_and_version source_type name) as [game_key package_version] eqn:Hkv.
      destruct (IH (PyDict.setdefault_append game_key (package_version, name) acc))
        as [groups [Hg Hall]].
      exists groups. split.
      * erewrite bind_outcome; [exact Hg|]. erewrite bind_outcome; [|exact Hb].
        reflexivity.
      * intros t. rewrite Hall, grouped_setdefault_append.
        assert (Hno : ~ Exists (fun pat => glob_match not_newline pat name) ignores).
        { intros H. apply Hiff in H. discriminate H. }
        split.
        -- intros [[->|H]|[H1 [H2 H3]]]; [right|now left|right].
           ++ simpl. rewrite Hkv. split; [now left|]. now split.
           ++ split; [now right|]. now split.
        -- intros [H|[[Hn|H1] [H2 H3]]]; [left; now right| |right; now repeat split].
           left. left. destruct t as [v n]. simpl in *. subst n. rewrite Hkv in H3.
           simpl in H3. now subst.
Qed.

Lemma set_In_inv {V : Type} (k k' : str) (v v' : V) (d : PyDict.dict V) :
  In (k', v') (PyDict.set k v d) -> v' = v \/ In (k', v') d.
Proof.
  induction d as [|[k0 v0] d IH]; simpl.
  - intros [H|[]]. left. congruence.
  - destruct (str_eqb k k0); simpl; intros [H|H].
    + left. congruence.
    + right. now right.
    + right. now left.
    + destruct (IH H); [now left|right; now right].
Qed.

(** Every selected folder stands in one of the groups. *)
Lemma latest_of_groups_In (groups : PyDict.dict (list source_folder_tuple))
      (game_key folder : str) :
  In (game_key, folder) (latest_of_groups groups) ->
  exists version, In (version, folder) (grouped_tuples groups).
Proof.
  unfold latest_of_groups.
  assert (G : forall gs (acc : PyDict.dict str),
             In (game_key, folder)
                (fold_left
                   (fun latest '(game_key, source_folder_tuples) =>
                      match PyList.sort key_lt sort_key true source_folder_tuples with
                      | (_, latest_folder_name) :: _ =>
                          PyDict.set game_key latest_folder_name latest
                      | [] => latest
                      end) gs acc) ->
             In (game_key, folder) acc
             \/ exists version, In (version, folder) (grouped_tuples gs)).
  { induction gs as [|[k l] gs IH]; intros acc H; cbn [fold_left] in H; [now left|].
    apply IH in H. destruct H as [H|[version H]].
    - destruct (PyList.sort key_lt sort_key true l) as [|[v f] rest] eqn:Es; [now left|].
      apply set_In_inv in H. destruct H as [->|H]; [|now left].
      right. exists v. unfold grouped_tuples. cbn [flat_map snd]. apply in_or_app. left.
      apply (sort_In key_lt sort_key true). rewrite Es. now left.
    - right. exists version. unfold grouped_tuples. cbn [flat_map]. apply in_or_app.
      now right. }
  intros H. destruct (G groups [] H) as [[]|H']. exact H'.
Qed.

(** C7, as amended. A folder name is dropped by the grouper exactly when
    some ignore pattern matches the whole of it, the star of a pattern
    standing for any sequence of characters other than the newline and
    every other character for itself: the test [is_ignored] returns, and
    returns true, exactly then; the folders that enter the groups are
    the listed names that no pattern matches; and every folder selected
    for the manifest is one of these. *)
Theorem ignored_iff_glob_match (source_type : str) (ignores names : list str) :
  (forall name,
      exists b, outcome (is_ignored ignores name) = Ok b
                /\ (b = true <-> Exists (fun pat => glob_match not_newline pat name) ignores))
  /\ (exists groups,
         outcome (group_folders source_type ignores names) = Ok groups
         /\ forall name,
             (exists version, In (version, name) (grouped_tuples groups))
             <-> In name names
                 /\ ~ Exists (fun pat => glob_match not_newline pat name) ignores)
  /\ forall (env : Env) (source_dir : str) (latest : PyDict.dict str),
      listdir env source_dir = Some names ->
      outcome (_get_latest_source_folder_by_game_key env source_type source_dir ignores)
      = Ok latest ->
      forall game_key folder,
        In (game_key, folder) latest ->
        In folder names /\ ~ Exists (fun pat => glob_match not_newline pat folder) ignores.
Proof.
  split; [intros name; apply is_ignored_spec|].
  destruct (group_folders_spec source_type ignores names []) as [groups [Hg Hall]].
  split.
  - exists groups. split; [exact Hg|]. intros name. split.
    + intros [version H]. apply Hall in H. destruct H as [[]|[H1 [H2 _]]]. now split.
    + intros [H1 H2]. exists (snd (key_and_version source_type name)).
      apply Hall. right. simpl. now repeat split.
  - intros env source_dir latest Hls H game_key folder Hin.
    unfold _get_latest_source_folder_by_game_key, os_listdir in H. rewrite Hls in H.
    bind_inv H. inversion Ha; subst a. bind_inv H. inversion H; subst latest.
    assert (E : Ok a = Ok groups) by (rewrite <- Ha0; exact Hg).
    inversion E; subst a.
    destruct (latest_of_groups_In _ _ _ Hin) as [version Hv].
    apply Hall in Hv. destruct Hv as [[]|[H1 [H2 _]]]. now split.
Qed.

Lemma ignored_iff_glob_match_witness :
  In (txt "mygame_windows_gog_(1.5.0)")
     [txt "game"; txt "game_windows_gog_(1.2.0)"; txt "mygame_windows_gog_(1.5.0)";
      txt "mygame_windows_gog_(1.4.9)"; txt "empty_windows_gog_(2.0)"; txt "backup_old"]
  /\ ~ Exists (fun pat => glob_match not_newline pat (txt "mygame_windows_gog_(1.5.0)"))
              [txt "*_old"].
Proof.
  apply (proj2 (proj2 (ignored_iff_glob_match
                         (txt "gog-games") [txt "*_old"]
                         [txt "game"; txt "game_windows_gog_(1.2.0)";
                          txt "mygame_windows_gog_(1.5.0)"; txt "mygame_windows_gog_(1.4.9)";
                          txt "empty_windows_gog_(2.0)"; txt "backup_old"]))
               Example.env Example.src
               [(txt "game", txt "game");
                (txt "mygame", txt "mygame_windows_gog_(1.5.0)");
                (txt "empty", txt "empty_windows_gog_(2.0)")]
               eq_refl)
    with (game_key := txt "mygame").
  - vm_compute. reflexivity.
  - right. left. reflexivity.
Defined.

(** The pattern [*_old] drops the folder [mygame_old]. *)
Example old_folder_ignored :
  glob_match not_newline (txt "*_old") (txt "mygame_old")
  /\ outcome (is_ignored [txt "*_old"] (txt "mygame_old")) = Ok true
  /\ outcome (group_folders (txt "default") [txt "*_old"] [txt "mygame_old"; txt "mygame"])
     = Ok [(txt "mygame", [(None, txt "mygame")])].
Proof.
  split; [|split; vm_compute; reflexivity].
  apply (@G_star not_newline (txt "_old") (txt "mygame") (txt "_old")); [reflexivity|].
  repeat (apply G_char; [reflexivity|]). constructor.
Qed.

(** C7, as stated, fails on a folder name that holds a newline: with the
    star read as any sequence of characters the pattern [*_old] matches
    the name, yet the folder is not dropped. *)
Lemma star_does_not_cross_newline :
  let name := txt "my" ++ [LF] ++ txt "game_old" in
  glob_match any_char (txt "*_old") name
  /\ outcome (is_ignored [txt "*_old"] name) = Ok false
  /\ outcome (group_folders (txt "default") [txt "*_old"] [name])
     = Ok [(name, [(None, name)])].
Proof.
  split; [|split; vm_compute; reflexivity].
  apply (@G_star any_char (txt "_old") (txt "my" ++ [LF] ++ txt "game") (txt "_old"));
    [reflexivity|].
  repeat (apply G_char; [reflexivity|]). constructor.
Qed.

(** ** Suffixes of the game key *)

Lemma strip_prefix_spec (w s rest : str) : strip_prefix w s = Some rest <-> s = w ++ rest.
Proof.
  revert s. induction w as [|a w IH]; intros s; simpl.
  - split; intros H; [now inversion H|now subst].
  - destruct s as [|b s]; [split; discriminate|].
    destruct (Ascii.eqb_spec a b) as [->|Hne].
    + rewrite IH. split; intros H; [now subst|now inversion H].
    + split; [discriminate|]. intros H. inversion H. congruence.
Qed.

Lemma strip_prefix_app (a b s : str) :
  strip_prefix (a ++ b) s
  = match strip_prefix a s with Some rest => strip_prefix b rest | None => None end.
Proof.
  revert s. induction a as [|c a IH]; intros s; simpl; [reflexivity|].
  destruct s as [|d s]; [reflexivity|]. destruct (Ascii.eqb c d); [apply IH|reflexivity].
Qed.

Lemma run_Lit (w : str) :
  forall (A : Type) (k : cont A) b s g,
    run (Lit w) b s g k
    = match strip_prefix w s with
      | Some rest => k (match w with [] => b | _ :: _ => false end) rest g
      | None => None
      end.
Proof.
  induction w as [|c w IH]; intros A k b s g; [reflexivity|].
  change (Lit (c :: w)) with (Cat (Chr (Ascii.eqb c)) (Lit w)). cbn [run strip_prefix].
  destruct s as [|d s]; [reflexivity|].
  destruct (Ascii.eqb c d); [|reflexivity]. rewrite IH. now destruct w.
Qed.

Lemma hit_eq (w s : str) : hit w s = str_eqb s w || str_eqb s (w ++ [LF]).
Proof.
  unfold hit. destruct (strip_prefix w s) as [rest|] eqn:Hs.
  - apply strip_prefix_spec in Hs. subst s.
    destruct rest as [|c [|d rest]]; simpl.
    + rewrite app_nil_r, str_eqb_refl. reflexivity.
    + destruct (Ascii.eqb_spec c LF) as [->|Hne].
      * rewrite str_eqb_refl, orb_true_r. reflexivity.
      * rewrite !str_eqb_neq; [reflexivity| |].
        -- intros H. apply app_inv_head in H. congruence.
        -- intros H. apply (f_equal (@length ascii)) in H. rewrite length_app in H. simpl in H. lia.
    + rewrite !str_eqb_neq; [reflexivity| |].
      * intros H. apply app_inv_head in H. discriminate H.
      * intros H. apply (f_equal (@length ascii)) in H. rewrite length_app in H. simpl in H. lia.
  - rewrite !str_eqb_neq; [reflexivity| |].
    + intros ->. rewrite (proj2 (strip_prefix_spec w (w ++ [LF]) [LF]) eq_refl) in Hs.
      discriminate Hs.
    + intros ->. rewrite (proj2 (strip_prefix_spec w w []) (eq_sym (app_nil_r w))) in Hs.
      discriminate Hs.
Qed.

Lemma ends_with_spec (w s : str) : ends_with w s = true <-> exists pre, s = pre ++ w.
Proof.
  induction s as [|c s IH]; cbn [ends_with].
  - rewrite orb_false_r. destruct (str_eqb_spec [] w) as [<-|Hne].
    + split; [intros _; now exists []|reflexivity].
    + split; [discriminate|]. intros [pre E]. destruct pre; simpl in E; [congruence|].
      discriminate E.
  - rewrite orb_true_iff, IH. destruct (str_eqb_spec (c :: s) w) as [<-|Hne].
    + split; [intros _; now exists []|now left].
    + split.
      * intros [H|[pre ->]]; [discriminate H|]. now exists (c :: pre).
      * intros [pre E]. right. destruct pre as [|d pre]; simpl in E; [congruence|].
        inversion E; subst. now exists pre.
Qed.

Lemma at_end_cons (w : str) (c : ascii) (s : str) :
  at_end w (c :: s) = hit w (c :: s) || at_end w s.
Proof.
  unfold at_end. cbn [ends_with]. rewrite hit_eq.
  destruct (str_eqb (c :: s) w), (str_eqb (c :: s) (w ++ [LF])), (ends_with w s); reflexivity.
Qed.

Lemma at_end_nil (w : str) : at_end w [] = hit w [].
Proof.
  unfold at_end. cbn [ends_with]. rewrite hit_eq.
  now rewrite !orb_false_r.
Qed.

Lemma search_at_end (r : regex) (ws : list str) :
  selects r ws ->
  forall b s, found (search_from r b s) = existsb (fun w => at_end w s) ws.
Proof.
  intros Hsel b s. revert b. induction s as [|c s IH]; intros b; cbn [search_from].
  - rewrite found_orelse, Hsel. simpl. rewrite orb_false_r.
    clear. induction ws as [|w ws IHw]; simpl; [reflexivity|]. now rewrite at_end_nil, IHw.
  - rewrite found_orelse, Hsel, IH.
    clear. induction ws as [|w ws IHw]; simpl; [reflexivity|].
    rewrite at_end_cons, <- IHw.
    destruct (hit w (c :: s)), (at_end w s), (existsb (fun w0 => hit w0 (c :: s)) ws),
      (existsb (fun w0 => at_end w0 s) ws); reflexivity.
Qed.

Lemma run_lit_eol (w : str) (b : bool) (s : str) (g : captures) :
  run (Cat (Lit w) Eol) b s g accept
  = match strip_prefix w s with
    | Some rest => if dollar rest then Some (MatchObj g rest) else None
    | None => None
    end.
Proof.
  cbn [run]. rewrite run_Lit. destruct (strip_prefix w s) as [rest|]; [|reflexivity].
  cbn [run]. now destruct (dollar rest).
Qed.

Lemma selects_lit_eol (w : str) : selects (Cat (Lit w) Eol) [w].
Proof.
  intros b s. rewrite run_lit_eol. simpl. rewrite orb_false_r. unfold hit.
  destruct (strip_prefix w s) as [rest|]; [|reflexivity]. now destruct (dollar rest).
Qed.

Lemma selects_second_base : selects re_second_base [txt "_second_base"].
Proof.
  intros b s. unfold re_second_base. cbn [run]. rewrite run_Lit.
  cbn [existsb]. rewrite orb_false_r. unfold hit.
  change (txt "_second_base") with (txt "_" ++ txt "second" ++ txt "_base").
  rewrite strip_prefix_app.
  destruct (strip_prefix (txt "_") s) as [s1|]; [|reflexivity].
  rewrite run_Lit, strip_prefix_app.
  destruct (strip_prefix (txt "second") s1) as [s2|]; [|reflexivity].
  rewrite run_Lit. destruct (strip_prefix (txt "_base") s2) as [s3|]; [|reflexivity].
  cbn [run]. now destruct (dollar s3).
Qed.

Lemma selects_qualified_game :
  selects re_qualified_game
          (map (fun w => txt "_" ++ w ++ txt "_game") qualifying_words).
Proof.
  intros b s. unfold re_qualified_game. cbn [run]. rewrite run_Lit.
  unfold qualifying_words. cbn [map existsb]. unfold hit. rewrite !strip_prefix_app.
  destruct (strip_prefix (txt "_") s) as [s1|]; [|reflexivity].
  rewrite !found_orelse, !run_Lit, orb_false_r, !strip_prefix_app.
  repeat match goal with
         | |- context [strip_prefix ?w s1] =>
             lazymatch w with
             | txt "_" => fail
             | _ => destruct (strip_prefix w s1) as [?s2|]
             end
         end;
    repeat match goal with
           | |- context [run (Lit ?w) ?b ?x ?g ?k] => rewrite (run_Lit w k b x g)
           end;
    repeat match goal with
           | |- context [strip_prefix (txt "_game") ?x] =>
               destruct (strip_prefix (txt "_game") x) as [?s3|]
           end;
    cbn [run found]; repeat match goal with |- context [dollar ?x] => destruct (dollar x) end;
    reflexivity.
Qed.

Section SubstituteSuffix.
Variables (c0 : ascii) (w' : str).
Hypothesis c0_not_LF : c0 <> LF.

Local Abbreviation w := (c0 :: w').
Local Abbreviation r := (Cat (Lit w) Eol).

Lemma sub_from_nil (fuel : nat) (b : bool) : sub_from fuel r [] b [] = [].
Proof. destruct fuel; [reflexivity|]. cbn [sub_from]. now rewrite run_lit_eol. Qed.

Lemma sub_from_LF (fuel : nat) (b : bool) : 0 < fuel -> sub_from fuel r [] b [LF] = [LF].
Proof.
  destruct fuel as [|fuel]; [lia|]. intros _. cbn [sub_from]. rewrite run_lit_eol.
  cbn [strip_prefix]. destruct (Ascii.eqb_spec c0 LF) as [E|_]; [contradiction|].
  now rewrite sub_from_nil.
Qed.

Lemma sub_from_lit (s : str) :
  forall fuel b, length s < fuel -> sub_from fuel r [] b s = remove_at_end w s.
Proof.
  induction s as [|c s IH]; intros fuel b Hlen.
  - rewrite sub_from_nil. reflexivity.
  - destruct fuel as [|fuel]; [lia|]. cbn [sub_from remove_at_end]. rewrite run_lit_eol.
    destruct (str_eqb_spec (c :: s) w) as [E|Hne1].
    + rewrite E. rewrite (proj2 (strip_prefix_spec w w []) (eq_sym (app_nil_r w))).
      change (dollar []) with true. cbv iota. simpl m_rest.
      change (length [] <? length w) with true. cbv iota. apply sub_from_nil.
    + destruct (str_eqb_spec (c :: s) (w ++ [LF])) as [E|Hne2].
      * rewrite E. rewrite (proj2 (strip_prefix_spec w (w ++ [LF]) [LF]) eq_refl).
        change (dollar [LF]) with true. cbv iota. simpl m_rest.
        destruct (Nat.ltb_spec (length [LF]) (length (w ++ [LF]))) as [_|Hge].
        -- apply sub_from_LF. rewrite E, length_app in Hlen. simpl in Hlen. lia.
        -- rewrite length_app in Hge. simpl in Hge. lia.
      * pose proof (hit_eq w (c :: s)) as Hh.
        rewrite (str_eqb_neq Hne1), (str_eqb_neq Hne2) in Hh. unfold hit in Hh.
        destruct (strip_prefix w (c :: s)) as [rest|].
        -- rewrite Hh. rewrite IH by (simpl in Hlen; lia). reflexivity.
        -- rewrite IH by (simpl in Hlen; lia). reflexivity.
Qed.

Lemma re_sub_lit (s : str) : re_sub r [] s = remove_at_end w s.
Proof. unfold re_sub. apply sub_from_lit. lia. Qed.

Lemma remove_fixed (s : str) : at_end w s = false -> remove_at_end w s = s.
Proof.
  induction s as [|c s IH]; intros H.
  - rewrite at_end_nil, hit_eq in H. apply orb_false_iff in H. destruct H as [H1 H2].
    cbn [remove_at_end]. now rewrite H1, H2.
  - rewrite at_end_cons, hit_eq in H. apply orb_false_iff in H. destruct H as [H H3].
    apply orb_false_iff in H. destruct H as [H1 H2].
    cbn [remove_at_end]. rewrite H1, H2, (IH H3). reflexivity.
Qed.

Lemma remove_shorter (s : str) :
  at_end w s = true -> length (remove_at_end w s) < length s.
Proof.
  induction s as [|c s IH]; intros H.
  - rewrite at_end_nil, hit_eq in H. apply orb_true_iff in H.
    destruct H as [H|H]; destruct (str_eqb_spec [] w) as [E|_];
      try discriminate E; try discriminate H.
  - cbn [remove_at_end].
    destruct (str_eqb_spec (c :: s) w) as [E|Hne1]; [simpl; lia|].
    destruct (str_eqb_spec (c :: s) (w ++ [LF])) as [E|Hne2].
    + rewrite E, length_app. simpl. lia.
    + rewrite at_end_cons, hit_eq, (str_eqb_neq Hne1), (str_eqb_neq Hne2) in H.
      simpl in H. specialize (IH H). simpl. lia.
Qed.

Lemma remove_le (s : str) : length (remove_at_end w s) <= length s.
Proof.
  destruct (at_end w s) eqn:H.
  - pose proof (remove_shorter s H). lia.
  - now rewrite remove_fixed.
Qed.

End SubstituteSuffix.

Lemma underscore_not_LF : "_"%char <> LF.
Proof. discriminate. Qed.

(** [_clean_game_key] in terms of suffixes. *)
Lemma clean_game_key_suffixes (raw_key : str) :
  _clean_game_key raw_key
  = let s1 := remove_at_end (txt "_base_game") raw_key in
    let s2 := if negb (at_end (txt "_second_base") s1)
              then remove_at_end (txt "_base") s1 else s1 in
    if negb (existsb (fun w => at_end (txt "_" ++ w ++ txt "_game") s2) qualifying_words)
    then remove_at_end (txt "_game") s2 else s2.
Proof.
  unfold _clean_game_key, re_search.
  rewrite (search_at_end selects_second_base), (search_at_end selects_qualified_game).
  unfold re_base_game, re_base, re_game.
  change (txt "_base_game") with ("_"%char :: txt "base_game").
  change (txt "_base") with ("_"%char :: txt "base").
  change (txt "_game") with ("_"%char :: txt "game").
  rewrite !(@re_sub_lit _ _ underscore_not_LF).
  cbn [existsb map qualifying_words]. rewrite !orb_false_r.
  cbv zeta. reflexivity.
Qed.

(** The keys that [_clean_game_key] leaves unchanged are those without a
    suffix to strip. *)
Lemma clean_game_key_fixed (key : str) :
  _clean_game_key key = key <-> strippable key = false.
Proof.
  rewrite clean_game_key_suffixes. cbv zeta. unfold strippable.
  set (bg := txt "_base_game"). set (ba := txt "_base"). set (ga := txt "_game").
  set (q := fun s => existsb (fun w => at_end (txt "_" ++ w ++ ga) s) qualifying_words).
  change (existsb (fun w => at_end (txt "_" ++ w ++ ga) key) qualifying_words) with (q key).
  set (s1 := remove_at_end bg key).
  set (s2 := if negb (at_end (txt "_second_base") s1) then remove_at_end ba s1 else s1).
  change (existsb (fun w => at_end (txt "_" ++ w ++ ga) s2) qualifying_words) with (q s2).
  assert (L1 : length s1 <= length key) by apply (@remove_le "_"%char (txt "base_game") key).
  assert (L2 : length s2 <= length s1).
  { unfold s2. destruct (negb (at_end (txt "_second_base") s1));
      [apply (@remove_le "_"%char (txt "base") s1)|lia]. }
  set (s3 := if negb (q s2) then remove_at_end ga s2 else s2).
  assert (L3 : length s3 <= length s2).
  { unfold s3. destruct (negb (q s2)); [apply (@remove_le "_"%char (txt "game") s2)|lia]. }
  destruct (at_end bg key) eqn:H1.
  { split; [|discriminate]. intros E.
    pose proof (@remove_shorter "_"%char (txt "base_game") key H1) as Hs.
    change (length s1 < length key) in Hs.
    apply (f_equal (@length ascii)) in E. exfalso. lia. }
  assert (E1 : s1 = key) by (apply (@remove_fixed "_"%char (txt "base_game") key); exact H1).
  cbn [orb].
  destruct (at_end ba key && negb (at_end (txt "_second_base") key)) eqn:H2.
  { split; [|discriminate]. intros E.
    apply andb_true_iff in H2. destruct H2 as [H2a H2b].
    assert (Hs : length s2 < length s1).
    { unfold s2. rewrite E1, H2b. apply (@remove_shorter "_"%char (txt "base") key). exact H2a. }
    apply (f_equal (@length ascii)) in E. exfalso. lia. }
  assert (E2 : s2 = key).
  { unfold s2. rewrite E1. destruct (at_end (txt "_second_base") key); [reflexivity|].
    simpl. rewrite andb_true_r in H2. apply (@remove_fixed "_"%char (txt "base") key). exact H2. }
  cbn [orb]. unfold s3. rewrite E2.
  destruct (at_end ga key && negb (q key)) eqn:H3.
  { split; [|discriminate]. intros E.
    apply andb_true_iff in H3. destruct H3 as [H3a H3b]. rewrite H3b in E.
    pose proof (@remove_shorter "_"%char (txt "game") key H3a) as Hs.
    change (length (remove_at_end ga key) < length key) in Hs.
    apply (f_equal (@length ascii)) in E. exfalso. lia. }
  split; [reflexivity|]. intros _.
  destruct (q key); [reflexivity|]. simpl. rewrite andb_true_r in H3.
  apply (@remove_fixed "_"%char (txt "game") key). exact H3.
Qed.

(** C2, as amended. Applying the clean-key function twice gives the same
    as applying it once exactly for the raw keys whose cleaned form has
    no suffix left to strip: no [_base_game], no [_base] outside
    [_second_base], no [_game] outside [_the_game], [_video_game],
    [_action_game], [_adventure_game] and [_playing_game], each taken
    where [$] matches.  [foo_base] maps to [foo], [a_second_base] to
    itself and [second_base_base] to [second_base]. *)
Theorem clean_key_idempotent_iff_settled :
  (forall raw_key,
      _clean_game_key (_clean_game_key raw_key) = _clean_game_key raw_key
      <-> strippable (_clean_game_key raw_key) = false)
  /\ _clean_game_key (txt "foo_base") = txt "foo"
  /\ _clean_game_key (_clean_game_key (txt "foo_base")) = _clean_game_key (txt "foo_base")
  /\ _clean_game_key (txt "a_second_base") = txt "a_second_base"
  /\ _clean_game_key (txt "second_base_base") = txt "second_base".
Proof.
  split; [intros raw_key; apply clean_game_key_fixed|].
  repeat split; vm_compute; reflexivity.
Qed.

(** C2, as stated, fails: [foo_base_base] is cleaned to [foo_base], which
    is cleaned to [foo], and [second_base_base] is not returned
    unchanged. *)
Lemma clean_key_not_idempotent :
  _clean_game_key (txt "foo_base_base") = txt "foo_base"
  /\ _clean_game_key (_clean_game_key (txt "foo_base_base")) = txt "foo"
  /\ _clean_game_key (_clean_game_key (txt "foo_base_base"))
     <> _clean_game_key (txt "foo_base_base")
  /\ _clean_game_key (txt "second_base_base") <> txt "second_base_base".
Proof.
  split; [vm_compute; reflexivity|]. split; [vm_compute; reflexivity|].
  split; vm_compute; discriminate.
Qed.

(** ** White space and lines *)

Lemma drop_while_split (p : ascii -> bool) (s : str) :
  exists pre, s = pre ++ drop_while p s /\ forallb p pre = true.
Proof.
  induction s as [|c s [pre [E Hp]]]; simpl.
  - exists []. now split.
  - destruct (p c) eqn:Hc.
    + exists (c :: pre). simpl. rewrite Hc, Hp. split; [now f_equal|reflexivity].
    + exists []. now split.
Qed.

Lemma drop_while_stops (p : ascii -> bool) (s : str) : stops p (drop_while p s).
Proof.
  induction s as [|c s IH]; simpl; [exact I|].
  destruct (p c) eqn:Hc; [exact IH|exact Hc].
Qed.

Lemma drop_while_fixed (p : ascii -> bool) (s : str) : stops p s -> drop_while p s = s.
Proof. destruct s as [|c s]; simpl; [reflexivity|]. now intros ->. Qed.

Lemma strip_In (s : str) (c : ascii) : In c (strip s) -> In c s.
Proof.
  unfold strip, rstrip, lstrip. intros H. apply in_rev in H.
  destruct (drop_while_split is_space (rev (drop_while is_space s))) as [pre1 [E1 _]].
  destruct (drop_while_split is_space s) as [pre2 [E2 _]].
  rewrite E2. apply in_or_app. right. apply in_rev. rewrite E1. apply in_or_app. now right.
Qed.

Lemma strip_forallb (q : ascii -> bool) (s : str) :
  forallb q s = true -> forallb q (strip s) = true.
Proof.
  rewrite !forallb_forall. intros H c Hc. apply H. now apply strip_In.
Qed.

Lemma strip_tight (s : str) : tight (strip s).
Proof.
  unfold strip, rstrip, lstrip, tight. rewrite rev_involutive.
  set (u := drop_while is_space s).
  pose proof (drop_while_stops is_space s) as Hu. fold u in Hu.
  pose proof (drop_while_stops is_space (rev u)) as Hx.
  destruct (drop_while_split is_space (rev u)) as [pre [E _]].
  set (x := drop_while is_space (rev u)) in *.
  split; [|exact Hx].
  assert (Eu : u = rev x ++ rev pre).
  { rewrite <- (rev_involutive u), E, rev_app_distr. reflexivity. }
  destruct (rev x) as [|c t] eqn:Hr; [exact I|].
  rewrite Eu in Hu. exact Hu.
Qed.

Lemma tight_strip (s : str) : tight s -> strip s = s.
Proof.
  intros [H1 H2]. unfold strip, rstrip, lstrip.
  rewrite (drop_while_fixed is_space s H1), (drop_while_fixed is_space (rev s) H2).
  apply rev_involutive.
Qed.

Lemma strip_idempotent (s : str) : strip (strip s) = strip s.
Proof. apply tight_strip, strip_tight. Qed.

Lemma key_char_plain (c : ascii) :
  Utils.key_char c = true ->
  is_space c = false /\ Ascii.eqb c LF = false /\ Ascii.eqb c CR = false
  /\ Ascii.eqb c ":" = false.
Proof.
  destruct c as [[|] [|] [|] [|] [|] [|] [|] [|]]; vm_compute; intros H;
    (repeat split; reflexivity) || discriminate H.
Qed.

Lemma valid_key_tight (key : str) : valid_key key = true -> tight key.
Proof.
  unfold valid_key. intros H. apply andb_true_iff in H. destruct H as [_ H].
  rewrite forallb_forall in H.
  assert (G : forall t : str, (forall c, In c t -> In c key) ->
                match t with [] => True | c :: _ => is_space c = false end).
  { intros [|c t] Hin; [exact I|]. apply key_char_plain, H, Hin. now left. }
  split; apply G; [tauto|]. intros c Hc. now apply in_rev.
Qed.

Lemma universal_newlines_fixed (s : str) :
  forallb (fun c => negb (Ascii.eqb c CR)) s = true -> universal_newlines s = s.
Proof.
  induction s as [|c s IH]; simpl; [reflexivity|].
  intros H. apply andb_true_iff in H. destruct H as [Hc Hs].
  destruct (Ascii.eqb c CR); [discriminate Hc|]. now rewrite IH.
Qed.

Lemma lines_from_line (body rest : str) :
  forallb (fun c => negb (Ascii.eqb c LF)) body = true ->
  forall cur, lines_from cur (body ++ LF :: rest)
              = (rev cur ++ body ++ [LF]) :: lines_from [] rest.
Proof.
  induction body as [|c body IH]; simpl; intros H cur.
  - change (Ascii.eqb LF LF) with true. cbv iota. simpl. reflexivity.
  - apply andb_true_iff in H. destruct H as [Hc Hs].
    destruct (Ascii.eqb c LF); [discriminate Hc|].
    rewrite (IH Hs). simpl. now rewrite <- app_assoc.
Qed.

Lemma lines_of_concat (bodies : list str) :
  Forall (fun body => forallb (fun c => negb (Ascii.eqb c LF)) body = true) bodies ->
  lines_from [] (concat (map (fun body => body ++ [LF]) bodies))
  = map (fun body => body ++ [LF]) bodies.
Proof.
  induction 1 as [|body bodies Hb _ IH]; [reflexivity|].
  cbn [map concat]. rewrite <- app_assoc. cbn [app].
  rewrite (lines_from_line body _ Hb). rewrite IH. reflexivity.
Qed.

(** ** Greedy repetition of a class *)

Lemma star_loop_greedy_step (A : Type) (step : bool -> str -> captures -> cont A -> option A)
      (k : cont A) (fuel : nat) (b : bool) (s : str) (g : captures) :
  star_loop step true k (S fuel) b s g
  = match step b s g (fun b' s' g' =>
                        if length s' <? length s then star_loop step true k fuel b' s' g'
                        else None) with
    | Some a => Some a
    | None => k b s g
    end.
Proof. reflexivity. Qed.

Lemma run_Chr_cons (A : Type) (p : ascii -> bool) (k : cont A) (b : bool) (c : ascii)
      (s : str) (g : captures) :
  run (Chr p) b (c :: s) g k = if p c then k false s g else None.
Proof. reflexivity. Qed.

Section GreedyClass.
Variables (A : Type) (p : ascii -> bool) (k : cont A) (s' : str) (a : A).
Hypothesis s'_stops : stops p s'.

Lemma star_loop_greedy (w : str) :
  forall fuel b g,
    forallb p w = true -> length w <= fuel ->
    k (match w with [] => b | _ :: _ => false end) s' g = Some a ->
    star_loop (run (Chr p)) true k fuel b (w ++ s') g = Some a.
Proof.
  induction w as [|c w IH]; intros fuel b g Hw Hlen Hk.
  - cbn [app]. destruct fuel as [|fuel]; [exact Hk|].
    rewrite star_loop_greedy_step.
    assert (E : forall K : cont A, run (Chr p) b s' g K = None).
    { intros K. destruct s' as [|d t]; [reflexivity|]. unfold stops in s'_stops.
      now rewrite run_Chr_cons, s'_stops. }
    rewrite E. exact Hk.
  - destruct fuel as [|fuel]; [simpl in Hlen; lia|].
    cbn [forallb] in Hw. apply andb_true_iff in Hw. destruct Hw as [Hc Hw].
    cbn [app]. rewrite star_loop_greedy_step, run_Chr_cons, Hc.
    replace (length (w ++ s') <? length (c :: w ++ s')) with true
      by (symmetry; apply Nat.ltb_lt; simpl; lia).
    rewrite (IH fuel false g Hw); [reflexivity|simpl in Hlen; lia|].
    now destruct w.
Qed.

Lemma run_star_greedy (w s : str) (b : bool) (g : captures) :
  s = w ++ s' -> forallb p w = true ->
  k (match w with [] => b | _ :: _ => false end) s' g = Some a ->
  run (Star true (Chr p)) b s g k = Some a.
Proof.
  intros -> Hw Hk. cbn [run]. apply star_loop_greedy; [exact Hw| |exact Hk].
  rewrite length_app. lia.
Qed.

End GreedyClass.

Lemma firstn_app_exact (w rest : str) : firstn (length (w ++ rest) - length rest) (w ++ rest) = w.
Proof.
  rewrite length_app, Nat.add_sub, firstn_app, firstn_all, Nat.sub_diag. simpl.
  apply app_nil_r.
Qed.

(** ** The lines of a metadata file *)

(** The group of the key. *)
Lemma key_group_match (A : Type) (k : cont A) (key s' : str) (b : bool) (g : captures) (a : A) :
  valid_key key = true -> stops Utils.key_char s' ->
  k false s' ((1, key) :: g) = Some a ->
  run (Group 1 (Plus true (Chr Utils.key_char))) b (key ++ s') g k = Some a.
Proof.
  unfold valid_key. intros Hv Hstop Hk. apply andb_true_iff in Hv.
  destruct Hv as [Hne Hall]. destruct key as [|c0 key]; [discriminate Hne|].
  cbn [forallb] in Hall. apply andb_true_iff in Hall. destruct Hall as [Hc0 Hall].
  unfold Plus. cbn [run app]. rewrite Hc0.
  apply (@run_star_greedy _ Utils.key_char _ s' a Hstop key); [reflexivity|exact Hall|].
  assert (E : firstn (length (c0 :: key ++ s') - length s') (c0 :: key ++ s') = c0 :: key)
    by apply (firstn_app_exact (c0 :: key) s').
  rewrite E. now destruct key.
Qed.

(** The separator and the group of the value. *)
Lemma value_group_match (v : str) (b : bool) (g : captures) :
  forallb not_newline v = true -> stops is_space v ->
  exists rest,
    run (Cat (Star true (Chr is_space)) (Group 2 (Star true Dot))) b
        (" "%char :: v ++ [LF]) g accept
    = Some (MatchObj ((2, v) :: g) rest).
Proof.
  intros Hnl Hstop. destruct v as [|c v].
  - exists []. cbn [run app].
    apply (@run_star_greedy _ is_space _ [] _ I [" "%char; LF]); [reflexivity|reflexivity|].
    cbn [run].
    apply (@run_star_greedy _ not_newline _ [] _ I []); reflexivity.
  - exists [LF]. cbn [run].
    apply (@run_star_greedy _ is_space _ ((c :: v) ++ [LF]) _ Hstop [" "%char]);
      [reflexivity|reflexivity|].
    cbn [run].
    apply (@run_star_greedy _ not_newline _ [LF] _ eq_refl (c :: v)); [reflexivity|exact Hnl|].
    unfold accept. now rewrite (firstn_app_exact (c :: v) [LF]).
Qed.

Lemma run_Cat (A : Type) (r1 r2 : regex) (k : cont A) (b : bool) (s : str) (g : captures) :
  run (Cat r1 r2) b s g k = run r1 b s g (fun b' s' g' => run r2 b' s' g' k).
Proof. reflexivity. Qed.

Lemma run_Bol_start (A : Type) (k : cont A) (s : str) (g : captures) :
  run Bol true s g k = k true s g.
Proof. reflexivity. Qed.

Lemma key_value_match (key v : str) :
  valid_key key = true -> forallb not_newline v = true -> stops is_space v ->
  exists rest,
    re_match Utils.re_key_value (key ++ txt ": " ++ v ++ [LF])
    = Some (MatchObj [(2, v); (1, key)] rest).
Proof.
  intros Hkey Hnl Hstop.
  destruct (@value_group_match v false [(1, key)] Hnl Hstop) as [rest Hvalue].
  exists rest. unfold re_match, Utils.re_key_value.
  rewrite run_Cat, run_Bol_start, run_Cat.
  assert (Hhead : stops is_space (key ++ txt ": " ++ v ++ [LF])).
  { destruct (valid_key_tight key Hkey) as [H _]. unfold valid_key in Hkey.
    destruct key as [|c0 key]; [discriminate Hkey|exact H]. }
  apply (@run_star_greedy _ is_space _ _ _ Hhead []); [reflexivity|reflexivity|].
  rewrite run_Cat.
  apply key_group_match; [exact Hkey|reflexivity|].
  rewrite run_Cat.
  apply (@run_star_greedy _ is_space _ (txt ": " ++ v ++ [LF]) _ eq_refl []);
    [reflexivity|reflexivity|].
  rewrite run_Cat, run_Lit.
  change (txt ": " ++ v ++ [LF]) with (":"%char :: " "%char :: v ++ [LF]).
  change (txt ":") with [":"%char]. cbn [strip_prefix].
  change (Ascii.eqb ":" ":") with true. cbv iota.
  exact Hvalue.
Qed.

Lemma single_line_plain (s : str) :
  single_line s = true ->
  forallb (fun c => negb (Ascii.eqb c LF)) s = true
  /\ forallb (fun c => negb (Ascii.eqb c CR)) s = true.
Proof.
  unfold single_line. rewrite !forallb_forall. intros H.
  split; intros c Hc; specialize (H c Hc); apply andb_true_iff in H; tauto.
Qed.

Lemma valid_key_plain (key : str) :
  valid_key key = true ->
  forallb (fun c => negb (Ascii.eqb c LF)) key = true
  /\ forallb (fun c => negb (Ascii.eqb c CR)) key = true.
Proof.
  unfold valid_key. intros H. apply andb_true_iff in H. destruct H as [_ H].
  rewrite !forallb_forall in *.
  split; intros c Hc; destruct (key_char_plain c (H c Hc)) as [_ [H1 [H2 _]]];
    [now rewrite H1|now rewrite H2].
Qed.

(** One line of the file, without its newline. *)
Lemma meta_line_body (item : str * option str) :
  valid_key (fst item) = true ->
  Utils.meta_line item
  = (fst item ++ txt ": " ++ strip (Utils.py_str (snd item))) ++ [LF].
Proof.
  intros Hk. unfold Utils.meta_line.
  rewrite (tight_strip (valid_key_tight _ Hk)). now rewrite <- !app_assoc.
Qed.

Lemma meta_body_plain (item : str * option str) :
  valid_key (fst item) = true -> single_line (Utils.py_str (snd item)) = true ->
  let body := fst item ++ txt ": " ++ strip (Utils.py_str (snd item)) in
  forallb (fun c => negb (Ascii.eqb c LF)) body = true
  /\ forallb (fun c => negb (Ascii.eqb c CR)) body = true.
Proof.
  intros Hk Hv body. subst body.
  destruct (valid_key_plain _ Hk) as [K1 K2].
  destruct (single_line_plain _ Hv) as [V1 V2].
  rewrite !forallb_app, K1, K2, (strip_forallb _ _ V1), (strip_forallb _ _ V2).
  split; reflexivity.
Qed.

Lemma read_line_item (data : PyDict.dict (option str)) (item : str * option str) :
  valid_key (fst item) = true -> single_line (Utils.py_str (snd item)) = true ->
  Utils.read_line data (Utils.meta_line item)
  = PyDict.set (fst item) (read_back (snd item)) data.
Proof.
  intros Hk Hv. rewrite (meta_line_body _ Hk). rewrite <- !app_assoc.
  set (v := strip (Utils.py_str (snd item))).
  assert (Hnl : forallb not_newline v = true).
  { apply strip_forallb. exact (proj1 (single_line_plain _ Hv)). }
  assert (Hstop : stops is_space v) by exact (proj1 (strip_tight _)).
  destruct (key_value_match (fst item) v Hk Hnl Hstop) as [rest Hm].
  unfold Utils.read_line. rewrite Hm.
  change (group_text 1 (MatchObj [(2, v); (1, fst item)] rest)) with (fst item).
  change (group_text 2 (MatchObj [(2, v); (1, fst item)] rest)) with v.
  rewrite (tight_strip (valid_key_tight _ Hk)).
  assert (Ev : strip v = v) by apply strip_idempotent.
  cbv zeta. rewrite !Ev.
  unfold valid_key in Hk. destruct (fst item) as [|c0 key] eqn:Ekey; [discriminate Hk|].
  unfold read_back. fold v. now destruct (str_eqb v [] || str_eqb (lower v) (txt "none")).
Qed.

Lemma fold_read_lines (game_data : PyDict.dict (option str)) :
  NoDup (PyDict.keys game_data) ->
  Forall (fun item => valid_key (fst item) = true
                      /\ single_line (Utils.py_str (snd item)) = true) game_data ->
  forall acc,
    (forall k, In k (PyDict.keys game_data) -> ~ In k (PyDict.keys acc)) ->
    fold_left Utils.read_line (map Utils.meta_line game_data) acc
    = acc ++ map (fun item => (fst item, read_back (snd item))) game_data.
Proof.
  induction game_data as [|item game_data IH]; intros Hnd Hall acc Hfresh.
  - simpl. now rewrite app_nil_r.
  - inversion Hall as [|? ? [Hk Hv] Hall']; subst.
    cbn [map fold_left]. rewrite (read_line_item acc item Hk Hv).
    rewrite keys_set_fresh by (apply Hfresh; now left).
    cbn [PyDict.keys map] in Hnd. inversion Hnd as [|? ? Hnin Hnd']; subst.
    rewrite IH; [now rewrite <- app_assoc|exact Hnd'|exact Hall'|].
    intros k Hin Hacc. unfold PyDict.keys in Hacc. rewrite map_app in Hacc.
    apply in_app_or in Hacc. destruct Hacc as [Hacc|[<-|[]]].
    + apply (Hfresh k); [now right|exact Hacc].
    + apply Hnin. exact Hin.
Qed.

Lemma readlines_meta (game_data : PyDict.dict (option str)) :
  Forall (fun item => valid_key (fst item) = true
                      /\ single_line (Utils.py_str (snd item)) = true) game_data ->
  readlines (concat (map Utils.meta_line game_data)) = map Utils.meta_line game_data.
Proof.
  intros Hall. unfold readlines.
  set (body := fun item : str * option str =>
                 fst item ++ txt ": " ++ strip (Utils.py_str (snd item))).
  assert (E : map Utils.meta_line game_data
              = map (fun b => b ++ [LF]) (map body game_data)).
  { rewrite map_map. apply map_ext_in. intros item Hin.
    rewrite Forall_forall in Hall. destruct (Hall item Hin) as [Hk _].
    now apply meta_line_body. }
  rewrite E.
  assert (Hplain : Forall (fun b => forallb (fun c => negb (Ascii.eqb c LF)) b = true
                                    /\ forallb (fun c => negb (Ascii.eqb c CR)) b = true)
                          (map body game_data)).
  { rewrite Forall_forall in *. intros b Hb. apply in_map_iff in Hb.
    destruct Hb as [item [<- Hin]]. destruct (Hall item Hin) as [Hk Hv].
    now apply meta_body_plain. }
  rewrite universal_newlines_fixed.
  - apply lines_of_concat. eapply Forall_impl; [|exact Hplain]. now intros b [H _].
  - clear E. induction Hplain as [|b bs [_ Hb] _ IH]; [reflexivity|].
    cbn [map concat]. rewrite !forallb_app, Hb, IH. reflexivity.
Qed.

(** C6, as amended. For a record whose keys are distinct non-empty
    strings of [[\w-]] and whose values are [None] or strings without
    line break, writing the metadata file and reading it back gives, key
    by key and in the same order, the text of the value without the
    white space around it, or [None] when that text is empty or is
    [none] in any letter case, which is where [None] itself ends up. *)
Theorem meta_roundtrip_stripped (d : Utils.disk) (target_dir : str)
        (game_data : PyDict.dict (option str)) :
  Utils.denied d (join target_dir (txt "!meta.txt")) = false ->
  NoDup (PyDict.keys game_data) ->
  Forall (fun item => valid_key (fst item) = true
                      /\ single_line (Utils.py_str (snd item)) = true) game_data ->
  let written := snd (Utils.create_meta_file d target_dir game_data) in
  snd written = true
  /\ snd (Utils.read_meta_file (fst written) target_dir)
     = map (fun item => (fst item, read_back (snd item))) game_data.
Proof.
  intros Hd Hnd Hall written. subst written.
  unfold Utils.create_meta_file. rewrite Hd. cbn [fst snd].
  split; [reflexivity|].
  unfold Utils.read_meta_file. cbn [Utils.files Utils.denied].
  rewrite get_set_same, Hd. cbn [snd].
  rewrite (readlines_meta Hall).
  apply (fold_read_lines Hnd Hall []). intros k _ [].
Qed.

Lemma meta_roundtrip_stripped_witness :
  let d := Utils.Disk [] (fun _ => false) in
  let game_data := [(txt "game_name", Some (txt "  My Game "));
                    (txt "game_version", None);
                    (txt "rel-launcher_path", Some (txt "NoNe"));
                    (txt "source_directory", Some (txt "/src: a"))] in
  let written := snd (Utils.create_meta_file d (txt "/dst/Mygame") game_data) in
  snd written = true
  /\ snd (Utils.read_meta_file (fst written) (txt "/dst/Mygame"))
     = map (fun item => (fst item, read_back (snd item))) game_data.
Proof.
  apply (@meta_roundtrip_stripped (Utils.Disk [] (fun _ => false)) (txt "/dst/Mygame")).
  - reflexivity.
  - repeat (constructor; [simpl; intuition discriminate|]). constructor.
  - repeat (constructor; [split; vm_compute; reflexivity|]). constructor.
Defined.

(** What is read back in that scenario. *)
Example meta_roundtrip_values :
  map (fun item => (fst item, read_back (snd item)))
      [(txt "game_name", Some (txt "  My Game "));
       (txt "game_version", None);
       (txt "rel-launcher_path", Some (txt "NoNe"));
       (txt "source_directory", Some (txt "/src: a"))]
  = [(txt "game_name", Some (txt "My Game"));
     (txt "game_version", None);
     (txt "rel-launcher_path", None);
     (txt "source_directory", Some (txt "/src: a"))].
Proof. vm_compute. reflexivity. Qed.

(** C6, as stated, fails on a value with white space around it, which
    comes back without it, and on a value of two lines, whose second
    line is read as a line of the file. *)
Lemma meta_roundtrip_loses_padding :
  let d := Utils.Disk [] (fun _ => false) in
  let dir := txt "/dst/Mygame" in
  let padded := [(txt "game_name", Some (txt " x"))] in
  let two_lines := [(txt "game_name", Some (txt "a" ++ [LF] ++ txt "b: c"))] in
  snd (Utils.read_meta_file (fst (snd (Utils.create_meta_file d dir padded))) dir)
  = [(txt "game_name", Some (txt "x"))]
  /\ map (fun item => (fst item, read_back_as_specified (snd item))) padded = padded
  /\ snd (Utils.read_meta_file (fst (snd (Utils.create_meta_file d dir padded))) dir)
     <> map (fun item => (fst item, read_back_as_specified (snd item))) padded
  /\ snd (Utils.read_meta_file (fst (snd (Utils.create_meta_file d dir two_lines))) dir)
     = [(txt "game_name", Some (txt "a")); (txt "b", Some (txt "c"))]
  /\ snd (Utils.read_meta_file (fst (snd (Utils.create_meta_file d dir two_lines))) dir)
     <> map (fun item => (fst item, read_back_as_specified (snd item))) two_lines.
Proof.
  split; [vm_compute; reflexivity|]. split; [vm_compute; reflexivity|].
  split; [vm_compute; discriminate|]. split; [vm_compute; reflexivity|].
  vm_compute; discriminate.
Qed.

(** * Further properties *)

(** ** Substitution of a class and of its runs *)

Lemma sub_from_class (p : ascii -> bool) (repl : str) (s : str) :
  forall fuel b, length s < fuel -> sub_from fuel (Chr p) repl b s = replace_each p repl s.
Proof.
  induction s as [|c s IH]; intros fuel b Hlen; (destruct fuel as [|fuel]; [simpl in Hlen; lia|]).
  - reflexivity.
  - cbn [sub_from]. rewrite run_Chr_cons. unfold replace_each. cbn [flat_map].
    destruct (p c).
    + unfold accept. cbn [m_rest].
      replace (length s <? length (c :: s)) with true
        by (symmetry; apply Nat.ltb_lt; simpl; lia).
      rewrite IH by (simpl in Hlen; lia). reflexivity.
    + rewrite IH by (simpl in Hlen; lia). reflexivity.
Qed.

Lemma re_sub_class (p : ascii -> bool) (repl : str) (s : str) :
  re_sub (Chr p) repl s = replace_each p repl s.
Proof. unfold re_sub. apply sub_from_class. lia. Qed.

Lemma replace_each_In (p : ascii -> bool) (repl : str) (s : str) (c : ascii) :
  In c (replace_each p repl s) -> In c repl \/ (In c s /\ p c = false).
Proof.
  unfold replace_each. intros H. apply in_flat_map in H. destruct H as [x [Hx H]].
  destruct (p x) eqn:E; [now left|]. right. destruct H as [<-|[]]. now split.
Qed.

Lemma replace_each_fixed (p : ascii -> bool) (repl : str) (s : str) :
  forallb (fun c => negb (p c)) s = true -> replace_each p repl s = s.
Proof.
  unfold replace_each. induction s as [|c s IH]; [reflexivity|].
  cbn [forallb flat_map]. intros H. apply andb_true_iff in H. destruct H as [Hc H].
  apply negb_true_iff in Hc. rewrite Hc, (IH H). reflexivity.
Qed.

Lemma drop_while_length (p : ascii -> bool) (s : str) : length (drop_while p s) <= length s.
Proof.
  induction s as [|c s IH]; simpl; [lia|]. destruct (p c); simpl; lia.
Qed.

Lemma run_plus_class (p : ascii -> bool) (b : bool) (c : ascii) (s : str) :
  run (Plus true (Chr p)) b (c :: s) [] accept
  = if p c then Some (MatchObj [] (drop_while p s)) else None.
Proof.
  unfold Plus. rewrite run_Cat, run_Chr_cons. destruct (p c); [|reflexivity].
  destruct (drop_while_split p s) as [pre [E Hpre]].
  apply (@run_star_greedy _ p accept (drop_while p s) _ (drop_while_stops p s) pre);
    [exact E|exact Hpre|reflexivity].
Qed.

Lemma collapse_in_run (p : ascii -> bool) (repl : str) (s : str) :
  collapse_from p repl true s = collapse_from p repl false (drop_while p s).
Proof.
  induction s as [|c s IH]; [reflexivity|]. cbn [collapse_from drop_while].
  destruct (p c) eqn:E; [exact IH|]. cbn [collapse_from]. now rewrite E.
Qed.

Lemma sub_from_plus (p : ascii -> bool) (repl : str) :
  forall fuel s b, length s < fuel ->
    sub_from fuel (Plus true (Chr p)) repl b s = collapse_from p repl false s.
Proof.
  induction fuel as [|fuel IH]; intros s b Hlen; [lia|].
  destruct s as [|c s]; [reflexivity|].
  cbn [sub_from]. rewrite run_plus_class. cbn [collapse_from].
  pose proof (drop_while_length p s) as Hd.
  destruct (p c).
  - cbn [m_rest].
    replace (length (drop_while p s) <? length (c :: s)) with true
      by (symmetry; apply Nat.ltb_lt; simpl; lia).
    rewrite IH by (simpl in Hlen; lia). now rewrite collapse_in_run.
  - rewrite IH by (simpl in Hlen; lia). reflexivity.
Qed.

Lemma re_sub_plus (p : ascii -> bool) (repl : str) (s : str) :
  re_sub (Plus true (Chr p)) repl s = collapse_from p repl false s.
Proof. unfold re_sub. apply sub_from_plus. lia. Qed.

Lemma collapse_In (p : ascii -> bool) (repl : str) (s : str) (c : ascii) :
  forall in_run, In c (collapse_from p repl in_run s) -> In c repl \/ (In c s /\ p c = false).
Proof.
  induction s as [|x s IH]; intros in_run H; [destruct H|].
  cbn [collapse_from] in H. destruct (p x) eqn:E.
  - apply in_app_or in H. destruct H as [H|H].
    + destruct in_run; [destruct H|now left].
    + destruct (IH _ H) as [Hr|[Hs Hp]]; [now left|right; split; [now right|exact Hp]].
  - destruct H as [<-|H]; [right; split; [now left|exact E]|].
    destruct (IH _ H) as [Hr|[Hs Hp]]; [now left|right; split; [now right|exact Hp]].
Qed.

Lemma collapse_head (s : str) :
  stops is_space (collapse_from is_space (txt " ") true s).
Proof.
  induction s as [|c s IH]; [exact I|]. cbn [collapse_from].
  destruct (is_space c) eqn:E; [exact IH|exact E].
Qed.

Lemma collapse_single_spaced (s : str) :
  forall in_run, single_spaced (collapse_from is_space (txt " ") in_run s) = true.
Proof.
  induction s as [|c s IH]; intros in_run; [reflexivity|]. cbn [collapse_from].
  destruct (is_space c) eqn:E.
  - destruct in_run; [apply IH|].
    change (txt " " ++ collapse_from is_space (txt " ") true s)
      with (" "%char :: collapse_from is_space (txt " ") true s).
    cbn [single_spaced]. rewrite (IH true).
    change (is_space " ") with true. change (Ascii.eqb " " " ") with true.
    pose proof (collapse_head s) as Hh.
    destruct (collapse_from is_space (txt " ") true s) as [|d t]; [reflexivity|].
    unfold stops in Hh. now rewrite Hh.
  - cbn [single_spaced]. rewrite E. apply IH.
Qed.

Lemma single_spaced_fixed (s : str) :
  single_spaced s = true -> collapse_from is_space (txt " ") false s = s.
Proof.
  induction s as [|c s IH]; [reflexivity|]. cbn [single_spaced collapse_from].
  intros H. apply andb_true_iff in H. destruct H as [Hc Hs].
  destruct (is_space c) eqn:E.
  - apply andb_true_iff in Hc. destruct Hc as [Hc Hn].
    apply Ascii.eqb_eq in Hc. subst c.
    rewrite collapse_in_run.
    assert (Hd : drop_while is_space s = s).
    { apply drop_while_fixed. destruct s as [|d t]; [exact I|].
      now apply negb_true_iff in Hn. }
    rewrite Hd, (IH Hs). reflexivity.
  - now rewrite (IH Hs).
Qed.

Lemma single_spaced_suffix (a b : str) :
  single_spaced (a ++ b) = true -> single_spaced b = true.
Proof.
  induction a as [|c a IH]; [trivial|]. cbn [app single_spaced]. intros H.
  apply andb_true_iff in H. now apply IH.
Qed.

Lemma single_spaced_prefix (a b : str) :
  single_spaced (a ++ b) = true -> single_spaced a = true.
Proof.
  induction a as [|c a IH]; [reflexivity|]. cbn [app single_spaced]. intros H.
  apply andb_true_iff in H. destruct H as [Hc Hs]. rewrite (IH Hs), andb_true_r.
  destruct (is_space c); [|reflexivity].
  apply andb_true_iff in Hc. destruct Hc as [Hc Hn]. rewrite Hc.
  destruct a as [|d a]; [reflexivity|exact Hn].
Qed.

Lemma strip_single_spaced (s : str) :
  single_spaced s = true -> single_spaced (strip s) = true.
Proof.
  unfold strip, rstrip, lstrip. intros H.
  destruct (drop_while_split is_space s) as [pre [E _]].
  set (u := drop_while is_space s) in *.
  destruct (drop_while_split is_space (rev u)) as [pre' [E' _]].
  set (x := drop_while is_space (rev u)) in *.
  assert (Eu : u = rev x ++ rev pre').
  { rewrite <- (rev_involutive u), E', rev_app_distr. reflexivity. }
  rewrite E in H. apply single_spaced_suffix in H. rewrite Eu in H.
  now apply single_spaced_prefix in H.
Qed.

(** ** The folder name of a game *)

Lemma clean_game_name_eq (raw_name : str) :
  _clean_game_name raw_name
  = strip (collapse_from is_space (txt " ") false
             (replace_each (one_of (DQUOTE :: txt "<>:/\|?*")) (txt " ") raw_name)).
Proof.
  unfold _clean_game_name, re_path_illegal, re_spaces.
  now rewrite re_sub_class, re_sub_plus.
Qed.

Lemma clean_game_name_chars (raw_name : str) (c : ascii) :
  In c (_clean_game_name raw_name) ->
  one_of (DQUOTE :: txt "<>:/\|?*") c = false.
Proof.
  rewrite clean_game_name_eq. intros H. apply strip_In in H.
  apply collapse_In in H. destruct H as [H|[H _]].
  - destruct H as [<-|[]]. reflexivity.
  - apply replace_each_In in H. destruct H as [H|[_ H]]; [|exact H].
    destruct H as [<-|[]]. reflexivity.
Qed.

(** X1.  The folder name that [_clean_game_name] returns holds none of
    the characters [<], [>], [:], the double quote, [/], [\], [|], [?]
    and the star, whatever the raw name is. *)
Theorem clean_game_name_has_no_illegal_character (raw_name : str) (c : ascii) :
  In c (_clean_game_name raw_name) ->
  one_of (DQUOTE :: txt "<>:/\|?*") c = false.
Proof. apply clean_game_name_chars. Qed.

Lemma clean_game_name_has_no_illegal_character_witness :
  In "b"%char (_clean_game_name (txt "a/b")) /\
  one_of (DQUOTE :: txt "<>:/\|?*") "b"%char = false.
Proof.
  assert (H : In "b"%char (_clean_game_name (txt "a/b"))) by (vm_compute; tauto).
  split; [exact H|]. exact (@clean_game_name_has_no_illegal_character (txt "a/b") "b"%char H).
Defined.

(** X2.  In the folder name that [_clean_game_name] returns, white
    space occurs only as single spaces between other characters: the
    name neither starts nor ends with white space, its only white-space
    character is the space, and no two spaces are adjacent. *)
Theorem clean_game_name_white_space_normalised (raw_name : str) :
  tight (_clean_game_name raw_name)
  /\ single_spaced (_clean_game_name raw_name) = true.
Proof.
  rewrite clean_game_name_eq. split; [apply strip_tight|].
  apply strip_single_spaced, collapse_single_spaced.
Qed.

(** X3.  [_clean_game_name] is idempotent: a folder name it returned is
    returned unchanged. *)
Theorem clean_game_name_idempotent (raw_name : str) :
  _clean_game_name (_clean_game_name raw_name) = _clean_game_name raw_name.
Proof.
  set (y := _clean_game_name raw_name).
  assert (Hc : forallb (fun c => negb (one_of (DQUOTE :: txt "<>:/\|?*") c)) y = true).
  { apply forallb_forall. intros c Hc. apply negb_true_iff.
    now apply (@clean_game_name_chars raw_name). }
  assert (Hs : single_spaced y = true /\ tight y).
  { unfold y. rewrite clean_game_name_eq. split; [|apply strip_tight].
    apply strip_single_spaced, collapse_single_spaced. }
  rewrite (clean_game_name_eq y), (replace_each_fixed _ _ _ Hc).
  rewrite (single_spaced_fixed _ (proj1 Hs)). apply tight_strip, Hs.
Qed.

(** ** The name of a game *)

(** X4.  A name that [get_game_name] returns from the database holds
    only ASCII characters and none of [\], [/], [:], the star, [?], the
    double quote, [<], [>] and [|]. *)
Theorem db_game_name_is_ascii_and_legal (env : Env) (game_key name : str) (c : ascii) :
  outcome (get_game_name env game_key) = Ok (Some name) ->
  In c name ->
  code c < 128 /\ one_of (DQUOTE :: txt "\/:*?<>|") c = false.
Proof.
  unfold get_game_name. destruct (db_available env); [|discriminate]. cbn [negb].
  rewrite log_then. destruct (db_title env _) as [title|].
  - rewrite log_then. cbn [ret outcome snd]. intros E Hc. injection E as <-.
    unfold re_title_illegal in Hc. rewrite re_sub_class in Hc.
    apply replace_each_In in Hc. destruct Hc as [[]|[Hc Hl]].
    split; [|exact Hl]. unfold ascii_only in Hc. apply filter_In in Hc.
    now apply Nat.ltb_lt.
  - rewrite log_then. discriminate.
Qed.

Lemma db_game_name_is_ascii_and_legal_witness :
  let env := Example.env_of [] [] (fun _ => None) in
  let env := {| isdir := isdir env; path_exists := path_exists env; listdir := listdir env;
                glob := glob env; relpath := relpath env; read_text := read_text env;
                re_compile_i := re_compile_i env; db_available := true;
                db_title := fun _ => Some (txt "Game: One?");
                manifests_output_dir := manifests_output_dir env; save_ok := save_ok env;
                save_opens := save_opens env |} in
  outcome (get_game_name env (txt "game_one")) = Ok (Some (txt "Game One"))
  /\ code "G"%char < 128 /\ one_of (DQUOTE :: txt "\/:*?<>|") "G"%char = false.
Proof.
  intros env0 env.
  assert (H : outcome (get_game_name env (txt "game_one")) = Ok (Some (txt "Game One")))
    by (vm_compute; reflexivity).
  split; [exact H|].
  apply (@db_game_name_is_ascii_and_legal env (txt "game_one") (txt "Game One") "G"%char H).
  now left.
Defined.

Lemma replace_char (a b : ascii) (s : str) :
  replace [a] [b] s = map (fun c => if Ascii.eqb a c then b else c) s.
Proof.
  unfold replace. induction s as [|c s IH]; [reflexivity|].
  cbn [length]. rewrite replace_fuel_step, strip_prefix_cons. cbn [strip_prefix map].
  destruct (Ascii.eqb a c); cbn [app]; now rewrite IH.
Qed.

Lemma case_keeps_space (c : ascii) :
  forallb is_space (title_char c) = is_space c /\ is_space (lower_char c) = is_space c.
Proof.
  destruct c as [[|] [|] [|] [|] [|] [|] [|] [|]]; vm_compute; split; reflexivity.
Qed.

Lemma title_from_spaces (s : str) :
  forall prev, forallb is_space (title_from prev s) = forallb is_space s.
Proof.
  induction s as [|c s IH]; intros prev; [reflexivity|]. cbn [title_from].
  destruct (case_keeps_space c) as [H1 H2].
  rewrite forallb_app, IH. cbn [forallb]. f_equal.
  destruct prev; [cbn [forallb]; now rewrite H2, andb_true_r|exact H1].
Qed.

Lemma strip_nil_spaces (s : str) : strip s = [] -> forallb is_space s = true.
Proof.
  unfold strip, rstrip, lstrip. intros H.
  destruct (drop_while_split is_space s) as [pre [E Hpre]].
  set (u := drop_while is_space s) in *.
  destruct (drop_while_split is_space (rev u)) as [pre' [E' Hpre']].
  assert (Hx : drop_while is_space (rev u) = []).
  { rewrite <- (rev_involutive (drop_while is_space (rev u))), H. reflexivity. }
  rewrite Hx, app_nil_r in E'. rewrite E, forallb_app, Hpre. cbn [andb].
  rewrite <- (rev_involutive u), E'. apply forallb_forall. intros c Hc.
  apply in_rev in Hc. rewrite forallb_forall in Hpre'. now apply Hpre'.
Qed.

(** X5.  [_get_game_details] returns an empty name only for a cleaned
    key made of underscores and white space: a name taken from the info
    file or from the database is used only when it is not empty, and the
    name derived from any other key is not empty. *)
Theorem empty_name_only_from_blank_key
        (env : Env) (source_type clean_key game_source_dir name : str) (version : option str) :
  outcome (_get_game_details env source_type clean_key game_source_dir) = Ok (name, version) ->
  name = [] ->
  forallb (fun c => is_space c || Ascii.eqb c "_") clean_key = true.
Proof.
  unfold _get_game_details. intros H Hn.
  bind_inv H. destruct a as [n0 v0]. bind_inv H. bind_inv H.
  assert (Hf : strip (title (replace (txt "_") (txt " ") clean_key)) = []).
  { destruct a0 as [[|c n]|].
    - rewrite log_then in H. cbn [ret outcome snd] in H. injection H as H _.
      rewrite Hn in H. exact H.
    - cbn [ret outcome snd] in H. injection H as H _. rewrite Hn in H. discriminate H.
    - rewrite log_then in H. cbn [ret outcome snd] in H. injection H as H _.
      rewrite Hn in H. exact H. }
  apply strip_nil_spaces in Hf. unfold title in Hf. rewrite title_from_spaces in Hf.
  change (txt "_") with ["_"%char] in Hf. change (txt " ") with [" "%char] in Hf.
  rewrite replace_char in Hf. rewrite forallb_forall in Hf. apply forallb_forall.
  intros c Hc. specialize (Hf _ (in_map _ _ _ Hc)). cbv beta in Hf.
  rewrite Ascii.eqb_sym. destruct (Ascii.eqb "_" c); [apply orb_true_r|].
  now rewrite Hf.
Qed.

Lemma empty_name_only_from_blank_key_witness :
  outcome (_get_game_details Example.env (txt "default") (txt "_") (txt "/nowhere"))
  = Ok ([], None)
  /\ forallb (fun c => is_space c || Ascii.eqb c "_") (txt "_") = true.
Proof.
  assert (H : outcome (_get_game_details Example.env (txt "default") (txt "_") (txt "/nowhere"))
              = Ok ([], None)) by (vm_compute; reflexivity).
  split; [exact H|].
  exact (@empty_name_only_from_blank_key Example.env (txt "default") (txt "_")
           (txt "/nowhere") [] None H eq_refl).
Defined.

(** ** The installers of a game *)

Lemma find_all_false {A : Type} (P : A -> bool) (l : list A) :
  (forall x, In x l -> P x = false) -> find P l = None.
Proof.
  induction l as [|x l IH]; intros H; [reflexivity|]. cbn [find].
  rewrite (H x (or_introl eq_refl)). apply IH. intros y Hy. apply H. now right.
Qed.

Lemma hd_filter_find {A : Type} (P : A -> bool) (l : list A) :
  hd_error (filter P l) = find P l.
Proof.
  induction l as [|x l IH]; [reflexivity|]. cbn [filter find].
  destruct (P x); [reflexivity|exact IH].
Qed.

Lemma hd_find_any {A : Type} (l : list A) : hd_error l = find (fun _ => true) l.
Proof. now destruct l. Qed.

Lemma base_installer_is_candidate_aux
        (env : Env) (clean_key game_source_dir : str) (base : option str) :
  let candidates := glob env (join game_source_dir (txt "setup_*.exe")) in
  outcome (_get_base_installer_path env clean_key game_source_dir) = Ok base ->
  match base with
  | Some path => In path candidates
  | None => candidates = []
  end.
Proof.
  intros candidates. unfold _get_base_installer_path. fold candidates.
  destruct candidates as [|c cs] eqn:Hc.
  - cbn [PyList.truthy negb]. rewrite log_then. cbn [ret outcome snd].
    intros E. injection E as <-. reflexivity.
  - rewrite <- Hc. replace (negb (PyList.truthy candidates)) with false by (now rewrite Hc).
    cbv iota. unfold PyList.sort.
    set (sorted := PyList.stable_sort Nat.ltb basename_length candidates).
    assert (Hne : sorted <> []).
    { unfold sorted. rewrite Hc. cbn [PyList.stable_sort fold_right]. apply insert_not_nil. }
    destruct (find (has_companion env game_source_dir) sorted) as [q|] eqn:Hfind.
    + cbn [ret outcome snd]. intros E. injection E as <-.
      apply find_some in Hfind. now apply (stable_sort_In Nat.ltb basename_length).
    + intros H. bind_inv H.
      destruct (filter (fun p => found (re_match a (basename p))) sorted) as [|q qs] eqn:Hf.
      * cbn [ret outcome snd] in H. injection H as <-.
        destruct sorted as [|q qs] eqn:Hs; [contradiction|]. cbn [hd_error].
        apply (stable_sort_In Nat.ltb basename_length). fold sorted. rewrite Hs. now left.
      * cbn [ret outcome snd] in H. injection H as <-.
        assert (Hq : In q (filter (fun p => found (re_match a (basename p))) sorted))
          by (rewrite Hf; now left).
        apply filter_In in Hq. now apply (stable_sort_In Nat.ltb basename_length).
Qed.

(** X6.  When [_get_base_installer_path] returns, the base installer
    is one of the [setup_*.exe] candidates of the game folder, and there
    is none only when the folder has no candidate. *)
Theorem base_installer_is_a_candidate
        (env : Env) (clean_key game_source_dir : str) (base : option str) :
  let candidates := glob env (join game_source_dir (txt "setup_*.exe")) in
  outcome (_get_base_installer_path env clean_key game_source_dir) = Ok base ->
  match base with
  | Some path => In path candidates
  | None => candidates = []
  end.
Proof. apply base_installer_is_candidate_aux. Qed.

Lemma base_installer_is_a_candidate_witness :
  In (txt "/src/game_windows_gog_(1.2.0)/setup_game_dlc_(12345).exe")
     (glob Example.env (join (txt "/src/game_windows_gog_(1.2.0)") (txt "setup_*.exe"))).
Proof.
  apply (@base_installer_is_a_candidate Example.env (txt "game")
           (txt "/src/game_windows_gog_(1.2.0)")
           (Some (txt "/src/game_windows_gog_(1.2.0)/setup_game_dlc_(12345).exe"))).
  vm_compute. reflexivity.
Defined.

(** X7.  When no candidate of the game folder has a [-1.bin]
    companion and the pattern built from the clean key compiles, the
    base installer is the candidate of shortest name among those whose
    name the pattern matches at its start, and the candidate of shortest
    name of all when the pattern matches none; nothing is logged. *)
Theorem shortest_installer_without_companion
        (env : Env) (clean_key game_source_dir : str) (r : regex) :
  let candidates := glob env (join game_source_dir (txt "setup_*.exe")) in
  let fits path := found (re_match r (basename path)) in
  candidates <> [] ->
  (forall path, In path candidates -> has_companion env game_source_dir path = false) ->
  re_compile_i env (txt "^setup_" ++ key_match_pattern clean_key) = Some r ->
  exists q,
    _get_base_installer_path env clean_key game_source_dir = ret (Some q)
    /\ In q candidates
    /\ if existsb fits candidates
       then fits q = true
            /\ forall path, In path candidates -> fits path = true ->
                            basename_length q <= basename_length path
       else forall path, In path candidates -> basename_length q <= basename_length path.
Proof.
  intros candidates fits Hne Hnc Hr. unfold _get_base_installer_path. fold candidates.
  replace (negb (PyList.truthy candidates)) with false by (now destruct candidates).
  cbv iota. unfold PyList.sort.
  set (sorted := PyList.stable_sort Nat.ltb basename_length candidates).
  assert (Hin : forall p, In p sorted <-> In p candidates)
    by (intros p; apply stable_sort_In).
  assert (Hs : StronglySorted (fun a b => basename_length a <= basename_length b) sorted)
    by apply stable_sort_sorted.
  rewrite (find_all_false (has_companion env game_source_dir) sorted)
    by (intros x Hx; apply Hnc, Hin, Hx).
  unfold compile_i. rewrite Hr. unfold bind, ret. cbn [fst snd app].
  fold fits. pose proof (hd_filter_find fits sorted) as Hhd.
  destruct (filter fits sorted) as [|q qs] eqn:Hf; cbn [hd_error] in Hhd.
  - assert (Hnone : forall p, In p candidates -> fits p = false).
    { intros p Hp. symmetry in Hhd. apply (find_none _ _ Hhd). now apply Hin. }
    replace (existsb fits candidates) with false.
    2:{ symmetry. apply not_true_is_false. intros E. apply existsb_exists in E.
        destruct E as [p [Hp Hfp]]. rewrite (Hnone p Hp) in Hfp. discriminate Hfp. }
    destruct sorted as [|q qs] eqn:Hsorted.
    + exfalso. destruct candidates as [|c cs]; [now apply Hne|].
      destruct (proj2 (Hin c) (or_introl eq_refl)).
    + exists q. cbn [hd_error fst snd]. split; [reflexivity|].
      split; [apply Hin; now left|].
      intros p Hp.
      apply (@find_sorted_least _ basename_length (fun _ => true) (q :: qs) q Hs eq_refl);
        [now apply Hin|reflexivity].
  - exists q. cbn [fst snd]. split; [reflexivity|]. symmetry in Hhd.
    destruct (find_some _ _ Hhd) as [Hq1 Hq2].
    split; [now apply Hin|].
    replace (existsb fits candidates) with true.
    2:{ symmetry. apply existsb_exists. exists q. split; [now apply Hin|exact Hq2]. }
    split; [exact Hq2|]. intros p Hp Hfp.
    apply (@find_sorted_least _ basename_length fits sorted q Hs Hhd); [now apply Hin|exact Hfp].
Qed.

Lemma shortest_installer_without_companion_witness :
  let dir := txt "/src/game_windows_gog_(1.2.0)" in
  let candidates := glob Example.env (join dir (txt "setup_*.exe")) in
  let fits path :=
    found (re_match (example_installer_pattern (txt "game")) (basename path)) in
  exists q,
    _get_base_installer_path Example.env (txt "game") dir = ret (Some q)
    /\ In q candidates
    /\ if existsb fits candidates
       then fits q = true
            /\ forall path, In path candidates -> fits path = true ->
                            basename_length q <= basename_length path
       else forall path, In path candidates -> basename_length q <= basename_length path.
Proof.
  apply (@shortest_installer_without_companion Example.env (txt "game")
           (txt "/src/game_windows_gog_(1.2.0)") (example_installer_pattern (txt "game"))).
  - vm_compute. discriminate.
  - intros path Hp. vm_compute in Hp.
    destruct Hp as [<-|[<-|[]]]; vm_compute; reflexivity.
  - vm_compute. reflexivity.
Defined.

Lemma base_first_permutation (base : str) (l : list str) :
  NoDup l -> In base l ->
  Permutation (base :: filter (fun p => negb (str_eqb p base)) l) l.
Proof.
  induction l as [|x l IH]; intros Hnd Hin; [destruct Hin|].
  inversion Hnd as [|x' l' Hx Hnd']; subst. cbn [filter].
  destruct (str_eqb_spec x base) as [E|Hne].
  - subst x. cbn [negb]. apply perm_skip.
    assert (Hid : filter (fun p => negb (str_eqb p base)) l = l).
    { clear -Hx. induction l as [|y l IH]; [reflexivity|]. cbn [filter].
      destruct (str_eqb_spec y base) as [E|_].
      - exfalso. apply Hx. now left.
      - cbn [negb]. f_equal. apply IH. intros H. apply Hx. now right. }
    rewrite Hid. apply Permutation_refl.
  - cbn [negb]. destruct Hin as [E|Hin]; [contradiction|].
    eapply perm_trans; [apply perm_swap|]. apply perm_skip. now apply IH.
Qed.

(** X8.  Without [base_installer_only], when the candidates of the
    game folder are distinct, non-empty paths, [_get_sorted_installers]
    lists every candidate exactly once, the base installer first, each
    as its path relative to the game folder. *)
Theorem every_installer_listed_once
        (env : Env) (clean_key game_source_dir : str) (installers : list str) :
  let candidates := glob env (join game_source_dir (txt "setup_*.exe")) in
  NoDup candidates -> ~ In [] candidates ->
  outcome (_get_sorted_installers env clean_key game_source_dir false) = Ok installers ->
  exists order,
    installers = map (fun path => relpath env path game_source_dir) order
    /\ Permutation order candidates
    /\ outcome (_get_base_installer_path env clean_key game_source_dir) = Ok (hd_error order).
Proof.
  intros candidates Hnd Hne H. unfold _get_sorted_installers in H. bind_inv H.
  pose proof (@base_installer_is_candidate_aux env clean_key game_source_dir a Ha) as Hb.
  fold candidates in Hb, H. destruct a as [[|c base]|].
  - contradiction.
  - cbn [negb ret outcome snd] in H. injection H as <-.
    exists ((c :: base) :: filter (fun p => negb (str_eqb p (c :: base))) candidates).
    split; [reflexivity|]. split; [now apply base_first_permutation|exact Ha].
  - cbn [ret outcome snd] in H. injection H as <-. exists []. rewrite Hb.
    split; [reflexivity|]. split; [apply perm_nil|exact Ha].
Qed.

Lemma every_installer_listed_once_witness :
  let dir := txt "/src/game_windows_gog_(1.2.0)" in
  let candidates := glob Example.env (join dir (txt "setup_*.exe")) in
  exists order,
    [txt "setup_game_dlc_(12345).exe"; txt "setup_game_1.2_(64bit)_(12345).exe"]
    = map (fun path => relpath Example.env path dir) order
    /\ Permutation order candidates
    /\ outcome (_get_base_installer_path Example.env (txt "game") dir) = Ok (hd_error order).
Proof.
  apply (@every_installer_listed_once Example.env (txt "game")
           (txt "/src/game_windows_gog_(1.2.0)")).
  - vm_compute. repeat constructor; cbn [In]; intros H;
      repeat (destruct H as [H|H]; [discriminate H|]); exact H.
  - vm_compute. intros H. repeat (destruct H as [H|H]; [discriminate H|]). exact H.
  - vm_compute. reflexivity.
Defined.

Lemma strip_chars_ends (chars s : str) :
  stops (one_of chars) (strip_chars chars s)
  /\ stops (one_of chars) (rev (strip_chars chars s)).
Proof.
  unfold strip_chars. fold (one_of chars). rewrite rev_involutive.
  set (u := drop_while (one_of chars) s).
  pose proof (drop_while_stops (one_of chars) s) as Hu. fold u in Hu.
  pose proof (drop_while_stops (one_of chars) (rev u)) as Hx.
  destruct (drop_while_split (one_of chars) (rev u)) as [pre [E _]].
  set (x := drop_while (one_of chars) (rev u)) in *.
  split; [|exact Hx].
  assert (Eu : u = rev x ++ rev pre).
  { rewrite <- (rev_involutive u), E, rev_app_distr. reflexivity. }
  destruct (rev x) as [|c t] eqn:Hr; [exact I|].
  rewrite Eu in Hu. exact Hu.
Qed.

(** X9.  A version that [_get_game_version_from_base_installer] takes
    from the name of the base installer neither starts nor ends with an
    underscore or a hyphen, whatever the compiled pattern captures. *)
Theorem installer_version_has_no_separator_at_its_ends
        (env : Env) (clean_key game_source_dir version : str) :
  outcome (_get_game_version_from_base_installer env clean_key game_source_dir)
  = Ok (Some version) ->
  stops (one_of (txt "_-")) version /\ stops (one_of (txt "_-")) (rev version).
Proof.
  unfold _get_game_version_from_base_installer. intros H. bind_inv H.
  destruct a as [[|c base]|]; try discriminate H.
  bind_inv H. destruct (re_search a (basename (c :: base))) as [m|]; [|discriminate H].
  cbn [ret outcome snd] in H. injection H as <-. apply strip_chars_ends.
Qed.

Lemma installer_version_has_no_separator_at_its_ends_witness :
  outcome (_get_game_version_from_base_installer Example.env (txt "game")
             (txt "/src/game_windows_gog_(1.2.0)")) = Ok (Some (txt "dlc"))
  /\ stops (one_of (txt "_-")) (txt "dlc") /\ stops (one_of (txt "_-")) (rev (txt "dlc")).
Proof.
  assert (H : outcome (_get_game_version_from_base_installer Example.env (txt "game")
                         (txt "/src/game_windows_gog_(1.2.0)")) = Ok (Some (txt "dlc")))
    by (vm_compute; reflexivity).
  split; [exact H|].
  exact (@installer_version_has_no_separator_at_its_ends Example.env (txt "game")
           (txt "/src/game_windows_gog_(1.2.0)") (txt "dlc") H).
Defined.

(** ** What the metadata file gives back *)

Lemma set_In_key {V : Type} (k k' : str) (v v' : V) (d : PyDict.dict V) :
  In (k', v') (PyDict.set k v d) -> (k' = k /\ v' = v) \/ In (k', v') d.
Proof.
  induction d as [|[k0 v0] d IH]; cbn [PyDict.set].
  - intros [E|[]]. injection E as <- <-. now left.
  - destruct (str_eqb_spec k k0) as [E|_].
    + subst k0. intros [E|H]; [injection E as <- <-; now left|right; now right].
    + intros [E|H]; [right; now left|].
      destruct (IH H) as [E|Hd]; [now left|right; now right].
Qed.

Lemma read_line_kept (data : PyDict.dict (option str)) (line : str) :
  (forall k v, In (k, v) data ->
               k <> [] /\ tight k /\ match v with Some x => kept_value x | None => True end) ->
  forall k v, In (k, v) (Utils.read_line data line) ->
              k <> [] /\ tight k /\ match v with Some x => kept_value x | None => True end.
Proof.
  intros Hdata k v. unfold Utils.read_line.
  destruct (re_match Utils.re_key_value line) as [m|]; [|apply Hdata].
  pose proof (strip_tight (group_text 1 m)) as Hk.
  pose proof (strip_tight (group_text 2 m)) as Hv.
  set (key := strip (group_text 1 m)) in *. set (value := strip (group_text 2 m)) in *.
  destruct key as [|c key]; [apply Hdata|].
  destruct (str_eqb value [] || str_eqb (lower value) (txt "none")) eqn:E; intros H;
    apply set_In_key in H; destruct H as [[-> ->]|H]; try (now apply Hdata).
  - split; [discriminate|]. now split.
  - apply orb_false_iff in E. destruct E as [E1 E2].
    split; [discriminate|]. split; [exact Hk|]. unfold kept_value.
    split; [|split; [exact Hv|]].
    + intros E. rewrite E, str_eqb_refl in E1. discriminate E1.
    + intros E. rewrite E, str_eqb_refl in E2. discriminate E2.
Qed.

Lemma read_lines_kept (lines : list str) :
  forall data,
    (forall k v, In (k, v) data ->
                 k <> [] /\ tight k /\ match v with Some x => kept_value x | None => True end) ->
    forall k v, In (k, v) (fold_left Utils.read_line lines data) ->
                k <> [] /\ tight k /\ match v with Some x => kept_value x | None => True end.
Proof.
  induction lines as [|line lines IH]; intros data Hdata; [exact Hdata|].
  cbn [fold_left]. apply IH. now apply read_line_kept.
Qed.

Lemma read_meta_kept (d : Utils.disk) (target_dir : str) :
  forall k v, In (k, v) (snd (Utils.read_meta_file d target_dir)) ->
              k <> [] /\ tight k /\ match v with Some x => kept_value x | None => True end.
Proof.
  unfold Utils.read_meta_file.
  destruct (PyDict.get (join target_dir (txt "!meta.txt")) (Utils.files d)) as [content|];
    [|intros k v []].
  destruct (Utils.denied d (join target_dir (txt "!meta.txt"))); [intros k v []|].
  cbn [snd]. apply read_lines_kept. intros k v [].
Qed.

(** X10.  Whatever the metadata file holds, every key that
    [read_meta_file] returns is a non-empty string without white space
    at its ends, and every value is [None] or a non-empty string without
    white space at its ends that is not [none] in any letter case. *)
Theorem read_meta_file_values_are_normalised
        (d : Utils.disk) (target_dir key : str) (value : option str) :
  In (key, value) (snd (Utils.read_meta_file d target_dir)) ->
  key <> [] /\ tight key
  /\ match value with
     | Some text => text <> [] /\ tight text /\ lower text <> txt "none"
     | None => True
     end.
Proof. apply read_meta_kept. Qed.

Lemma read_meta_file_values_are_normalised_witness :
  let d := Utils.Disk [(txt "/dst/Mygame/!meta.txt",
                        txt "  game_version :   1.0  " ++ [LF] ++ txt "junk" ++ [LF]
                          ++ txt "name: NONE" ++ [CR; LF])]
                      (fun _ => false) in
  In (txt "game_version", Some (txt "1.0")) (snd (Utils.read_meta_file d (txt "/dst/Mygame")))
  /\ txt "game_version" <> [] /\ tight (txt "game_version")
  /\ txt "1.0" <> [] /\ tight (txt "1.0") /\ lower (txt "1.0") <> txt "none".
Proof.
  intros d.
  assert (H : In (txt "game_version", Some (txt "1.0"))
                 (snd (Utils.read_meta_file d (txt "/dst/Mygame"))))
    by (vm_compute; left; reflexivity).
  split; [exact H|].
  exact (@read_meta_file_values_are_normalised d (txt "/dst/Mygame") (txt "game_version")
           (Some (txt "1.0")) H).
Defined.

(** ** The test for an unchanged game *)

Lemma value_eqb_eq (a b : option str) : Unpack.value_eqb a b = true -> a = b.
Proof.
  destruct a as [x|], b as [y|]; cbn; try discriminate; [|reflexivity].
  destruct (str_eqb_spec x y) as [->|_]; [reflexivity|discriminate].
Qed.

Lemma value_eqb_refl (a : option str) : Unpack.value_eqb a a = true.
Proof. destruct a as [x|]; [apply str_eqb_refl|reflexivity]. Qed.

Lemma meta_get_kept (d : Utils.disk) (target_dir key v : str) :
  Unpack.meta_get key (snd (Utils.read_meta_file d target_dir)) = Some v -> kept_value v.
Proof.
  unfold Unpack.meta_get.
  destruct (PyDict.get key (snd (Utils.read_meta_file d target_dir))) as [value|] eqn:E;
    [|discriminate].
  intros ->. apply get_Some_In in E. exact (proj2 (proj2 (read_meta_kept _ _ _ _ E))).
Qed.

(** X12.  A game whose source directory or version is a string that
    the metadata file cannot give back -- empty, with white space at an
    end, or [none] in any letter case -- is never found up to date,
    whatever the destination holds: it is extracted again on every
    run. *)
Theorem unreadable_record_is_never_up_to_date
        (d : Utils.disk) (dest_exists force : bool) (game_data : game_record) :
  (~ kept_value (source_directory game_data)
   \/ exists v, game_version game_data = Some v /\ ~ kept_value v) ->
  Unpack.up_to_date d dest_exists force game_data = false.
Proof.
  intros H. unfold Unpack.up_to_date.
  destruct (dest_exists && negb force); [|reflexivity]. cbv zeta.
  apply not_true_is_false. intros E. apply andb_true_iff in E. destruct E as [E1 E2].
  apply value_eqb_eq in E1. apply value_eqb_eq in E2.
  destruct H as [H|[v [Hv H]]]; apply H.
  - exact (meta_get_kept _ _ _ E1).
  - rewrite Hv in E2. exact (meta_get_kept _ _ _ E2).
Qed.

Lemma unreadable_record_is_never_up_to_date_witness :
  let game_data := GameRecord (txt "Game") (Some []) (txt "/src/game") (txt "/dst/Game")
                              [txt "setup_game.exe"] in
  let d := fst (snd (Utils.create_meta_file (Utils.Disk [] (fun _ => false)) (txt "/dst/Game")
                       (Unpack.meta_data None None game_data))) in
  Unpack.up_to_date d true false game_data = false.
Proof.
  intros game_data d. apply unreadable_record_is_never_up_to_date.
  right. exists []. split; [reflexivity|]. intros [H _]. now apply H.
Defined.

Lemma repr_char_single_line (c : ascii) :
  single_line (PyRepr.repr_char "'" c) = true
  /\ single_line (PyRepr.repr_char DQUOTE c) = true.
Proof.
  destruct c as [[|] [|] [|] [|] [|] [|] [|] [|]]; split; vm_compute; reflexivity.
Qed.

Lemma single_line_app (a b : str) :
  single_line (a ++ b) = single_line a && single_line b.
Proof. apply forallb_app. Qed.

Lemma repr_single_line (s : str) : single_line (PyRepr.repr s) = true.
Proof.
  unfold PyRepr.repr.
  assert (Hq : PyRepr.quote_of s = "'"%char \/ PyRepr.quote_of s = DQUOTE).
  { unfold PyRepr.quote_of. destruct (_ && _); [now right|now left]. }
  generalize dependent (PyRepr.quote_of s). intros q Hq.
  assert (Hb : forall t, single_line (flat_map (PyRepr.repr_char q) t) = true).
  { induction t as [|c t IH]; [reflexivity|]. cbn [flat_map].
    rewrite single_line_app, IH, andb_true_r.
    destruct Hq as [-> | ->]; apply repr_char_single_line. }
  change (single_line ([q] ++ flat_map (PyRepr.repr_char q) s ++ [q]) = true).
  rewrite !single_line_app, Hb. destruct Hq as [-> | ->]; reflexivity.
Qed.

Lemma str_of_list_single_line (l : list str) : single_line (PyRepr.str_of_list l) = true.
Proof.
  unfold PyRepr.str_of_list. rewrite !single_line_app. cbn [andb].
  change (single_line (txt "[")) with true. change (single_line (txt "]")) with true.
  rewrite andb_true_r. cbn [andb].
  induction l as [|x l IH]; [reflexivity|]. cbn [map PyRepr.join_with].
  destruct (map PyRepr.repr l) as [|y ys] eqn:E.
  - apply repr_single_line.
  - rewrite !single_line_app, repr_single_line, IH. reflexivity.
Qed.

Lemma read_back_kept (v : str) : kept_value v -> read_back (Some v) = Some v.
Proof.
  intros [Hne [Ht Hn]]. unfold read_back. cbn [Utils.py_str]. rewrite (tight_strip Ht).
  rewrite (str_eqb_neq Hne), (str_eqb_neq Hn). reflexivity.
Qed.

(** X13.  After the metadata of an extracted game has been written,
    the next run finds the game up to date, when its source directory
    and its version, if it has one, are single-line strings that the
    metadata file gives back as they are, and the name and the launcher
    path written with them hold no line break. *)
Theorem extracted_game_is_up_to_date
        (d : Utils.disk) (info_name rel_launcher_path : option str) (game_data : game_record) :
  Utils.denied d (join (destination_directory game_data) (txt "!meta.txt")) = false ->
  single_line (Unpack.or_else info_name (game_name game_data)) = true ->
  single_line (Utils.py_str rel_launcher_path) = true ->
  single_line (source_directory game_data) = true ->
  kept_value (source_directory game_data) ->
  match game_version game_data with
  | Some v => single_line v = true /\ kept_value v
  | None => True
  end ->
  let written := snd (Utils.create_meta_file d (destination_directory game_data)
                        (Unpack.meta_data info_name rel_launcher_path game_data)) in
  snd written = true
  /\ Unpack.up_to_date (fst written) true false game_data = true.
Proof.
  intros Hd Hname Hlaunch Hsrc Hkept Hver written. subst written.
  set (data := Unpack.meta_data info_name rel_launcher_path game_data).
  assert (Hvs : single_line (Unpack.or_else (game_version game_data) []) = true).
  { destruct (game_version game_data) as [[|c v]|]; try reflexivity. apply Hver. }
  assert (Hall : Forall (fun item => valid_key (fst item) = true
                                     /\ single_line (Utils.py_str (snd item)) = true) data).
  { unfold data, Unpack.meta_data.
    repeat (constructor; [split; [vm_compute; reflexivity|cbn [snd Utils.py_str]]|]);
      [exact Hname|exact Hvs|exact Hlaunch|exact Hsrc|apply str_of_list_single_line|].
    constructor. }
  assert (Hnd : NoDup (PyDict.keys data)).
  { unfold data, Unpack.meta_data. cbn [PyDict.keys map fst].
    repeat (constructor; [cbn [In]; intuition discriminate|]). constructor. }
  unfold Utils.create_meta_file. rewrite Hd. cbn [fst snd]. split; [reflexivity|].
  unfold Unpack.up_to_date. cbn [andb negb]. cbv zeta.
  unfold Utils.read_meta_file. cbn [Utils.files Utils.denied].
  rewrite get_set_same, Hd. cbn [snd]. rewrite (readlines_meta Hall).
  rewrite (fold_read_lines Hnd Hall []) by (intros k _ []).
  cbn [app]. unfold data, Unpack.meta_data. cbn [map fst snd].
  assert (E1 : Unpack.meta_get (txt "source_directory")
                 [(txt "game_name", read_back (Some (Unpack.or_else info_name (game_name game_data))));
                  (txt "game_version", read_back (Some (Unpack.or_else (game_version game_data) [])));
                  (txt "rel_launcher_path", read_back rel_launcher_path);
                  (txt "source_directory", read_back (Some (source_directory game_data)));
                  (txt "sorted_installers",
                   read_back (Some (PyRepr.str_of_list (sorted_installers game_data))))]
               = read_back (Some (source_directory game_data))) by reflexivity.
  assert (E2 : Unpack.meta_get (txt "game_version")
                 [(txt "game_name", read_back (Some (Unpack.or_else info_name (game_name game_data))));
                  (txt "game_version", read_back (Some (Unpack.or_else (game_version game_data) [])));
                  (txt "rel_launcher_path", read_back rel_launcher_path);
                  (txt "source_directory", read_back (Some (source_directory game_data)));
                  (txt "sorted_installers",
                   read_back (Some (PyRepr.str_of_list (sorted_installers game_data))))]
               = read_back (Some (Unpack.or_else (game_version game_data) []))) by reflexivity.
  rewrite E1, E2, (read_back_kept Hkept), value_eqb_refl. cbn [andb].
  destruct (game_version game_data) as [v|].
  - destruct Hver as [_ Hk]. assert (Ev : Unpack.or_else (Some v) [] = v).
    { destruct v as [|c v]; [|reflexivity]. destruct Hk as [Hk _]. now contradiction Hk. }
    rewrite Ev, (read_back_kept Hk). apply value_eqb_refl.
  - reflexivity.
Qed.

Lemma extracted_game_is_up_to_date_witness :
  let game_data := GameRecord (txt "Game") (Some (txt "1.2")) (txt "/src/game_windows_gog_(1.2.0)")
                              (txt "/dst/Game") [txt "setup_game.exe"; txt "setup_dlc.exe"] in
  let written := snd (Utils.create_meta_file (Utils.Disk [] (fun _ => false)) (txt "/dst/Game")
                        (Unpack.meta_data (Some (txt "The Game")) None game_data)) in
  snd written = true
  /\ Unpack.up_to_date (fst written) true false game_data = true.
Proof.
  apply (@extracted_game_is_up_to_date (Utils.Disk [] (fun _ => false)) (Some (txt "The Game")) None
           (GameRecord (txt "Game") (Some (txt "1.2")) (txt "/src/game_windows_gog_(1.2.0)")
                       (txt "/dst/Game") [txt "setup_game.exe"; txt "setup_dlc.exe"])).
  - reflexivity.
  - reflexivity.
  - reflexivity.
  - reflexivity.
  - split; [discriminate|]. split; [split; reflexivity|]. vm_compute. discriminate.
  - split; [reflexivity|]. split; [discriminate|]. split; [split; reflexivity|].
    vm_compute. discriminate.
Defined.

(** ** The latest folder of every game key *)

Lemma get_None_keys {V : Type} (k : str) (d : PyDict.dict V) :
  PyDict.get k d = None <-> ~ In k (PyDict.keys d).
Proof.
  induction d as [|[k0 v0] d IH]; cbn [PyDict.get PyDict.keys map fst In]; [tauto|].
  destruct (str_eqb_spec k k0) as [E|Hne].
  - split; [discriminate|]. intros H. exfalso. apply H. now left.
  - rewrite IH. unfold PyDict.keys. split.
    + intros H [E|Hin]; [now apply Hne|now apply H].
    + intros H Hin. apply H. now right.
Qed.

Lemma members_setdefault_append {X : Type} (k k' : str) (x : X) (d : PyDict.dict (list X)) :
  members k' (PyDict.setdefault_append k x d)
  = if str_eqb k' k then members k d ++ [x] else members k' d.
Proof.
  unfold members, PyDict.setdefault_append.
  destruct (str_eqb_spec k' k) as [->|Hne].
  - destruct (PyDict.get k d) as [l|]; now rewrite get_set_same.
  - destruct (PyDict.get k d) as [l|]; now rewrite get_set_other.
Qed.

Lemma set_values {V : Type} (P : V -> Prop) (k : str) (v : V) (d : PyDict.dict V) :
  P v -> Forall (fun kv => P (snd kv)) d -> Forall (fun kv => P (snd kv)) (PyDict.set k v d).
Proof.
  intros Hv. induction 1 as [|[k0 v0] d H0 Hd IH]; cbn [PyDict.set].
  - now repeat constructor.
  - destruct (str_eqb k k0); constructor; assumption.
Qed.

Section Grouping.
Variables (source_type : str) (ignores : list str).

Local Abbreviation group_body :=
  (fun (groups : PyDict.dict (list source_folder_tuple)) (source_folder_name : str) =>
     bind (is_ignored ignores source_folder_name)
          (fun ignored =>
             if ignored then ret groups
             else
               let '(game_key, package_version) :=
                 key_and_version source_type source_folder_name in
               ret (PyDict.setdefault_append
                      game_key (package_version, source_folder_name) groups))).

Lemma group_body_outcome (groups : PyDict.dict (list source_folder_tuple)) (name : str) :
  outcome (group_body groups name)
  = Ok (if ignored_name ignores name then groups
        else PyDict.setdefault_append (fst (key_and_version source_type name))
               (snd (key_and_version source_type name), name) groups).
Proof.
  destruct (is_ignored_spec ignores name) as [b [Hb _]].
  rewrite (bind_outcome _ _ Hb). unfold ignored_name. rewrite Hb.
  destruct b; [reflexivity|]. now destruct (key_and_version source_type name).
Qed.

Lemma tuples_of_cons (name : str) (names : list str) (k : str) :
  tuples_of source_type ignores (name :: names) k
  = (if negb (ignored_name ignores name)
        && str_eqb (fst (key_and_version source_type name)) k
     then [(snd (key_and_version source_type name), name)] else [])
    ++ tuples_of source_type ignores names k.
Proof.
  unfold tuples_of. cbn [filter].
  now destruct (negb (ignored_name ignores name)
                && str_eqb (fst (key_and_version source_type name)) k).
Qed.

Lemma group_fold (names : list str) :
  forall acc,
  exists groups,
    outcome (for_each names acc group_body) = Ok groups
    /\ (forall k, members k groups = members k acc ++ tuples_of source_type ignores names k)
    /\ (NoDup (PyDict.keys acc) -> NoDup (PyDict.keys groups))
    /\ (Forall (fun kv => snd kv <> []) acc -> Forall (fun kv => snd kv <> []) groups).
Proof.
  induction names as [|name names IH]; intros acc.
  - exists acc. split; [reflexivity|]. split; [|split; trivial].
    intros k. unfold tuples_of. cbn [filter map]. now rewrite app_nil_r.
  - cbn [for_each]. rewrite (bind_outcome _ _ (group_body_outcome acc name)).
    set (acc1 := if ignored_name ignores name then acc
                 else PyDict.setdefault_append (fst (key_and_version source_type name))
                        (snd (key_and_version source_type name), name) acc).
    destruct (IH acc1) as [groups [Hout [Hmem [Hnd Hne]]]].
    exists groups. split; [exact Hout|]. split; [|split].
    + intros k. rewrite Hmem, tuples_of_cons, app_assoc. f_equal. unfold acc1.
      destruct (ignored_name ignores name); cbn [negb andb]; [now rewrite app_nil_r|].
      rewrite members_setdefault_append.
      destruct (str_eqb_spec k (fst (key_and_version source_type name))) as [->|Hk].
      * now rewrite str_eqb_refl.
      * rewrite str_eqb_neq by congruence. now rewrite app_nil_r.
    + intros H. apply Hnd. unfold acc1. destruct (ignored_name ignores name); [exact H|].
      unfold PyDict.setdefault_append. match goal with |- context [match ?g with Some _ => _ | None => _ end] => destruct g end;
        now apply keys_set_NoDup.
    + intros H. apply Hne. unfold acc1. destruct (ignored_name ignores name); [exact H|].
      unfold PyDict.setdefault_append.
      match goal with
      | |- context [match ?g with Some _ => _ | None => _ end] => destruct g as [l|]
      end;
        apply (@set_values _ (fun x : list source_folder_tuple => x <> [])); try exact H.
      * now destruct l.
      * discriminate.
Qed.

End Grouping.

Lemma latest_of_groups_get (groups : PyDict.dict (list source_folder_tuple)) (k : str) :
  NoDup (PyDict.keys groups) ->
  PyDict.get k (latest_of_groups groups)
  = match PyDict.get k groups with
    | Some l => option_map snd (hd_error (PyList.sort key_lt sort_key true l))
    | None => None
    end.
Proof.
  unfold latest_of_groups.
  set (f := fun (latest : PyDict.dict str) '(game_key, source_folder_tuples) =>
              match PyList.sort key_lt sort_key true source_folder_tuples with
              | (_, latest_folder_name) :: _ => PyDict.set game_key latest_folder_name latest
              | [] => latest
              end).
  assert (G : forall acc, NoDup (PyDict.keys groups) ->
              PyDict.get k (fold_left f groups acc)
              = match PyDict.get k groups with
                | Some l => match hd_error (PyList.sort key_lt sort_key true l) with
                            | Some t => Some (snd t)
                            | None => PyDict.get k acc
                            end
                | None => PyDict.get k acc
                end).
  { induction groups as [|[k0 l0] groups IH]; intros acc Hnd; [reflexivity|].
    cbn [fold_left PyDict.get]. cbn [PyDict.keys map fst] in Hnd.
    inversion Hnd as [|k0' ks Hk0 Hnd']; subst.
    rewrite (IH _ Hnd').
    assert (Hstep : forall k', PyDict.get k' (f acc (k0, l0))
                    = if str_eqb k' k0
                      then match hd_error (PyList.sort key_lt sort_key true l0) with
                           | Some t => Some (snd t)
                           | None => PyDict.get k' acc
                           end
                      else PyDict.get k' acc).
    { intros k'. unfold f. destruct (PyList.sort key_lt sort_key true l0) as [|[v n] rest].
      - cbn [hd_error]. now destruct (str_eqb k' k0).
      - cbn [hd_error snd]. destruct (str_eqb_spec k' k0) as [->|Hne].
        + apply get_set_same.
        + now apply get_set_other. }
    destruct (str_eqb_spec k k0) as [->|Hne].
    - rewrite (proj2 (get_None_keys k0 groups) Hk0), Hstep, str_eqb_refl. reflexivity.
    - destruct (PyDict.get k groups) as [l|].
      + destruct (hd_error (PyList.sort key_lt sort_key true l)); [reflexivity|].
        rewrite Hstep. now rewrite (str_eqb_neq Hne).
      + rewrite Hstep. now rewrite (str_eqb_neq Hne). }
  intros Hnd. rewrite (G [] Hnd). destruct (PyDict.get k groups) as [l|]; [|reflexivity].
  now destruct (hd_error (PyList.sort key_lt sort_key true l)).
Qed.

Lemma latest_characterised (env : Env) (source_type source_dir : str)
      (ignores names : list str) :
  listdir env source_dir = Some names ->
  exists latest,
    outcome (_get_latest_source_folder_by_game_key env source_type source_dir ignores)
    = Ok latest
    /\ forall game_key,
        PyDict.get game_key latest
        = option_map snd (first_greatest key_lt sort_key
                            (tuples_of source_type ignores names game_key)).
Proof.
  intros Hl. unfold _get_latest_source_folder_by_game_key, os_listdir. rewrite Hl.
  unfold group_folders.
  destruct (group_fold source_type ignores names []) as [groups [Hout [Hmem [Hnd Hne]]]].
  exists (latest_of_groups groups). split.
  - rewrite (bind_outcome _ _ (a:=names)) by reflexivity.
    rewrite (bind_outcome _ _ Hout). reflexivity.
  - intros k. rewrite latest_of_groups_get by (apply Hnd; constructor).
    specialize (Hmem k). unfold members at 2 in Hmem. cbn [PyDict.get app] in Hmem.
    rewrite <- Hmem. unfold members.
    destruct (PyDict.get k groups) as [l|] eqn:E.
    + now rewrite latest_is_first_greatest.
    + reflexivity.
Qed.

Lemma first_greatest_In {A K : Type} (ltb : K -> K -> bool) (key : A -> K) (l : list A) (x : A) :
  first_greatest ltb key l = Some x -> In x l.
Proof.
  destruct l as [|y l]; [discriminate|]. cbn [first_greatest]. intros E. injection E as <-.
  revert y. induction l as [|z l IH]; intros y; [now left|]. cbn [fold_left].
  destruct (ltb (key y) (key z)).
  - right. apply IH.
  - destruct (IH y) as [E|H]; [now left|right; now right].
Qed.

(** X14.  When the source directory can be listed,
    [_get_latest_source_folder_by_game_key] returns, and what it maps a
    game key to is decided by the folders of the listing that are not
    ignored and have that key, taken in the order of the listing: no
    entry when there is none, otherwise the first of them whose rank is
    not exceeded, a folder without version token ranking above every
    folder with one and a greater token above a smaller one. *)
Theorem latest_folder_is_first_of_greatest_rank
        (env : Env) (source_type source_dir : str) (ignores names : list str) :
  listdir env source_dir = Some names ->
  exists latest,
    outcome (_get_latest_source_folder_by_game_key env source_type source_dir ignores)
    = Ok latest
    /\ forall game_key,
        PyDict.get game_key latest
        = option_map snd (first_greatest key_lt sort_key
                            (tuples_of source_type ignores names game_key)).
Proof. apply latest_characterised. Qed.

Lemma latest_folder_is_first_of_greatest_rank_witness :
  exists latest,
    outcome (_get_latest_source_folder_by_game_key Example.env (txt "gog-games") Example.src
                                                   [txt "*_old"])
    = Ok latest
    /\ forall game_key,
        PyDict.get game_key latest
        = option_map snd (first_greatest key_lt sort_key
                            (tuples_of (txt "gog-games") [txt "*_old"]
                               [txt "game"; txt "game_windows_gog_(1.2.0)";
                                txt "mygame_windows_gog_(1.5.0)";
                                txt "mygame_windows_gog_(1.4.9)";
                                txt "empty_windows_gog_(2.0)"; txt "backup_old"]
                               game_key)).
Proof.
  apply (@latest_folder_is_first_of_greatest_rank Example.env (txt "gog-games") Example.src
           [txt "*_old"]).
  vm_compute. reflexivity.
Defined.

(** ** The records of a manifest *)

(** X15.  Every record of a manifest that [generate_manifest] returns
    stands for a folder of the listing of the source directory that no
    ignore pattern matches and whose game key is the key of the record;
    its source directory is that folder in the source directory, its
    destination directory is the folder name of the game in one of the
    possible destination directories or in the default one, and that
    folder name holds none of the characters that [_clean_game_name]
    replaces. *)
Theorem manifest_record_is_well_formed
        (env : Env) (source_type source_dir default_dest_dir : str)
        (possible_dest_dirs ignores : list str) (overrides : PyDict.dict (list str))
        (base_installer_only : bool) (names : list str) (m : manifest)
        (game_key : str) (game_data : game_record) :
  isdir env source_dir = true ->
  listdir env source_dir = Some names ->
  outcome (generate_manifest env source_type source_dir default_dest_dir possible_dest_dirs
                             ignores overrides base_installer_only) = Ok m ->
  In (game_key, game_data) m ->
  (exists folder,
      In folder names
      /\ ~ Exists (fun pat => glob_match not_newline pat folder) ignores
      /\ fst (key_and_version source_type folder) = game_key
      /\ source_directory game_data = join source_dir folder)
  /\ (exists root,
         In root (possible_dest_dirs ++ [default_dest_dir])
         /\ destination_directory game_data = join root (game_name game_data))
  /\ forall c, In c (game_name game_data) -> one_of (DQUOTE :: txt "<>:/\|?*") c = false.
Proof.
  intros Hdir Hl Hm Hin.
  destruct (generate_manifest_Ok _ _ _ _ _ _ _ _ Hdir Hm) as [latest [Hlatest [Hall _]]].
  destruct (@Forall2_In_r _ _ _ _ _ _ Hall Hin) as [[k folder] [Hitem Hbuilt]].
  destruct Hbuilt as [Hk [name [_ [Hname [Hsrc [Hdest _]]]]]].
  cbn [fst snd] in Hk, Hname, Hsrc, Hdest. subst k.
  split; [|split].
  - exists folder.
    destruct (latest_characterised env source_type source_dir ignores Hl)
      as [latest' [Hlatest' Hget]].
    rewrite Hlatest in Hlatest'. injection Hlatest' as <-.
    pose proof (get_In _ _ _ (latest_NoDup _ _ _ _ Hlatest) Hitem) as Hg.
    rewrite Hget in Hg.
    destruct (first_greatest key_lt sort_key (tuples_of source_type ignores names game_key))
      as [[v f]|] eqn:Hfg; [|discriminate Hg].
    cbn [option_map snd] in Hg. injection Hg as ->.
    apply first_greatest_In in Hfg. unfold tuples_of in Hfg. apply in_map_iff in Hfg.
    destruct Hfg as [n [En Hn]]. injection En as _ ->.
    apply filter_In in Hn. destruct Hn as [Hnames Hkeep].
    apply andb_true_iff in Hkeep. destruct Hkeep as [Hign Hkey].
    split; [exact Hnames|]. split; [|split; [|exact Hsrc]].
    + apply negb_true_iff in Hign. unfold ignored_name in Hign.
      destruct (is_ignored_spec ignores folder) as [b [Hb Hiff]]. rewrite Hb in Hign.
      subst b. intros HE. apply Hiff in HE. discriminate HE.
    + now destruct (str_eqb_spec (fst (key_and_version source_type folder)) game_key).
  - destruct (existing_dest_dir_Ok _ _ _ _ Hdest)
      as [[before [x [after [Hp [_ [_ Hd]]]]]]|[_ Hd]].
    + exists x. split; [|exact Hd]. rewrite Hp. apply in_or_app. left.
      apply in_or_app. right. now left.
    + exists default_dest_dir. split; [|exact Hd]. apply in_or_app. right. now left.
  - intros c Hc. rewrite Hname in Hc. now apply (@clean_game_name_chars name).
Qed.

Lemma manifest_record_is_well_formed_witness :
  let names := [txt "game"; txt "game_windows_gog_(1.2.0)"; txt "mygame_windows_gog_(1.5.0)";
                txt "mygame_windows_gog_(1.4.9)"; txt "empty_windows_gog_(2.0)";
                txt "backup_old"] in
  let game_data := Example.mygame_record in
  (exists folder,
      In folder names
      /\ ~ Exists (fun pat => glob_match not_newline pat folder) [txt "*_old"]
      /\ fst (key_and_version (txt "gog-games") folder) = txt "mygame"
      /\ source_directory game_data = join Example.src folder)
  /\ (exists root,
         In root (Example.dsts ++ [Example.dst])
         /\ destination_directory game_data = join root (game_name game_data))
  /\ forall c, In c (game_name game_data) -> one_of (DQUOTE :: txt "<>:/\|?*") c = false.
Proof.
  apply (@manifest_record_is_well_formed Example.env (txt "gog-games") Example.src Example.dst
           Example.dsts [txt "*_old"] [] false
           [txt "game"; txt "game_windows_gog_(1.2.0)"; txt "mygame_windows_gog_(1.5.0)";
            txt "mygame_windows_gog_(1.4.9)"; txt "empty_windows_gog_(2.0)";
            txt "backup_old"]
           Example.manifest_all (txt "mygame") Example.mygame_record).
  - vm_compute. reflexivity.
  - vm_compute. reflexivity.
  - vm_compute. reflexivity.
  - vm_compute. right. left. reflexivity.
Defined.

(** ** What a run writes *)

Lemma only_logs_ret {A : Type} (a : A) : only_logs (ret a).
Proof. intros e []. Qed.

Lemma only_logs_raise {A : Type} (e : exn) : only_logs (raise e : M A).
Proof. intros ev []. Qed.

Lemma only_logs_log (lvl : level) (msg : str) : only_logs (log lvl msg).
Proof. intros e [<-|[]]. now exists lvl, msg. Qed.

Lemma event_in_bind {A B : Type} (m : M A) (f : A -> M B) (e : event) :
  In e (events (bind m f)) ->
  In e (events m) \/ exists a, outcome m = Ok a /\ In e (events (f a)).
Proof.
  unfold bind, events, outcome. destruct m as [ev [a|x]]; cbn [fst snd].
  - intros H. apply in_app_or in H. destruct H as [H|H]; [now left|].
    right. exists a. now split.
  - now left.
Qed.

Lemma only_logs_bind {A B : Type} (m : M A) (f : A -> M B) :
  only_logs m -> (forall a, only_logs (f a)) -> only_logs (bind m f).
Proof.
  intros Hm Hf e H. apply event_in_bind in H.
  destruct H as [H|[a [_ H]]]; [exact (Hm e H)|exact (Hf a e H)].
Qed.

Lemma only_logs_for_each {A S : Type} (body : S -> A -> M S) (l : list A) :
  (forall acc x, only_logs (body acc x)) -> forall acc, only_logs (for_each l acc body).
Proof.
  intros Hb. induction l as [|x l IH]; intros acc; cbn [for_each].
  - apply only_logs_ret.
  - apply only_logs_bind; [apply Hb|exact IH].
Qed.

Ltac quiet :=
  repeat first
    [ apply only_logs_ret
    | apply only_logs_raise
    | apply only_logs_log
    | apply only_logs_bind; [|intros]
    | match goal with
      | |- only_logs (match ?x with _ => _ end) => destruct x
      | |- only_logs (let '(_, _) := ?x in _) => destruct x
      end ].

Lemma is_ignored_quiet (ignores : list str) (name : str) : only_logs (is_ignored ignores name).
Proof. induction ignores as [|pat ignores IH]; cbn [is_ignored]; quiet; exact IH. Qed.

Lemma latest_quiet (env : Env) (source_type source_dir : str) (ignores : list str) :
  only_logs (_get_latest_source_folder_by_game_key env source_type source_dir ignores).
Proof.
  unfold _get_latest_source_folder_by_game_key, os_listdir, group_folders. quiet.
  apply only_logs_for_each. intros acc x. quiet. apply is_ignored_quiet.
Qed.

Lemma base_installer_quiet (env : Env) (clean_key game_source_dir : str) :
  only_logs (_get_base_installer_path env clean_key game_source_dir).
Proof. unfold _get_base_installer_path, compile_i. quiet. Qed.

Lemma game_details_quiet (env : Env) (source_type clean_key game_source_dir : str) :
  only_logs (_get_game_details env source_type clean_key game_source_dir).
Proof.
  unfold _get_game_details, _get_game_details_from_info_file, info_error,
    _get_game_version_from_base_installer, get_game_name, compile_i.
  quiet; apply base_installer_quiet.
Qed.

Lemma existing_dest_dir_quiet (env : Env) (possible_dest_dirs : list str)
      (folder_name game_dest_dir : str) :
  only_logs (existing_dest_dir env possible_dest_dirs folder_name game_dest_dir).
Proof.
  induction possible_dest_dirs as [|x l IH]; cbn [existing_dest_dir]; unfold os_listdir;
    quiet; exact IH.
Qed.

Lemma add_game_quiet (env : Env) (source_type source_dir default_dest_dir : str)
      (possible_dest_dirs : list str) (overrides : PyDict.dict (list str))
      (base_installer_only : bool) (manifest_data : manifest) (item : str * str) :
  only_logs (add_game env source_type source_dir default_dest_dir possible_dest_dirs
                      overrides base_installer_only manifest_data item).
Proof.
  unfold add_game, installers_for, _get_sorted_installers. destruct item as [k f]. quiet.
  all: try apply game_details_quiet. all: try apply existing_dest_dir_quiet.
  all: try apply base_installer_quiet.
  - unfold _get_game_details_from_info_file, info_error. quiet.
  - unfold compile_i. quiet.
  - unfold get_game_name. quiet.
Qed.

(** Every event of a run is a log line, the complete manifest written
    by a run that returns it, or the emptied manifest file of a run
    that raises the error of the save. *)
Lemma generate_manifest_event
      (env : Env) (source_type source_dir default_dest_dir : str)
      (possible_dest_dirs ignores : list str) (overrides : PyDict.dict (list str))
      (base_installer_only : bool) (e : event) :
  let run := generate_manifest env source_type source_dir default_dest_dir
                               possible_dest_dirs ignores overrides base_installer_only in
  let manifest_path := join (manifests_output_dir env) (source_type ++ txt ".json") in
  In e (events run) ->
  (exists lvl msg, e = Log lvl msg)
  \/ (exists data, e = SavedJson manifest_path data /\ outcome run = Ok data
                   /\ isdir env source_dir = true)
  \/ (e = TruncatedJson manifest_path /\ outcome run = Raise (SaveError manifest_path)).
Proof.
  intros run manifest_path. subst run manifest_path. unfold generate_manifest.
  destruct (isdir env source_dir); cbn [negb].
  - intros H. rewrite log_then.
    apply event_in_bind in H. destruct H as [H|[u [_ H]]];
      [left; revert H; apply only_logs_log|].
    apply event_in_bind in H. destruct H as [H|[latest [HL H]]];
      [left; revert H; apply latest_quiet|].
    rewrite (bind_outcome _ _ HL).
    apply event_in_bind in H. destruct H as [H|[m [HF H]]].
    { left. revert H. apply only_logs_for_each. intros acc x. apply add_game_quiet. }
    rewrite (bind_outcome _ _ HF).
    apply event_in_bind in H. unfold save_json in *.
    destruct (save_ok env (join (manifests_output_dir env) (source_type ++ txt ".json"))).
    + rewrite (bind_outcome _ _ (a:=tt)) by reflexivity. rewrite log_then.
      destruct H as [H|[u' [_ H]]].
      * destruct H as [<-|[]]. right. left. exists m. now repeat split.
      * apply event_in_bind in H. destruct H as [H|[u'' [_ H]]];
          [left; revert H; apply only_logs_log|destruct H].
    + destruct (save_opens env (join (manifests_output_dir env) (source_type ++ txt ".json"))).
      * destruct H as [H|[u' [Hu _]]]; [|discriminate Hu].
        apply event_in_bind in H. destruct H as [H|[u' [_ H]]].
        -- destruct H as [<-|[]]. right. right. split; reflexivity.
        -- left. revert H. apply only_logs_bind; [apply only_logs_log|].
           intros _. apply only_logs_raise.
      * destruct H as [H|[u' [Hu _]]]; [|discriminate Hu].
        apply event_in_bind in H. destruct H as [H|[u' [_ H]]]; [destruct H|].
        left. revert H. apply only_logs_bind; [apply only_logs_log|].
        intros _. apply only_logs_raise.
  - rewrite (bind_events _ _ (a:=tt)) by reflexivity. cbn. intros [<-|[]].
    left. eexists. eexists. reflexivity.
Qed.

(** X16.  [generate_manifest] touches the manifest file only in its
    save, after every game has been processed: a complete manifest is
    written only by a run that returns, and it is the returned one, in
    the file named after the source type; the file is emptied without
    being completed only by a run that raises the error of the save; a
    run that raises any other error only logs. *)
Theorem manifest_file_is_touched_only_by_the_save
        (env : Env) (source_type source_dir default_dest_dir : str)
        (possible_dest_dirs ignores : list str) (overrides : PyDict.dict (list str))
        (base_installer_only : bool) :
  let run := generate_manifest env source_type source_dir default_dest_dir
                               possible_dest_dirs ignores overrides base_installer_only in
  let manifest_path := join (manifests_output_dir env) (source_type ++ txt ".json") in
  (forall path data,
      In (SavedJson path data) (events run) ->
      outcome run = Ok data /\ path = manifest_path /\ isdir env source_dir = true)
  /\ (forall path,
         In (TruncatedJson path) (events run) ->
         outcome run = Raise (SaveError manifest_path) /\ path = manifest_path)
  /\ (forall e,
         outcome run = Raise e -> e <> SaveError manifest_path ->
         forall ev, In ev (events run) -> exists lvl msg, ev = Log lvl msg).
Proof.
  intros run manifest_path. split; [|split].
  - intros path data H.
    destruct (generate_manifest_event _ _ _ _ _ _ _ _ _ H)
      as [[lvl [msg E]]|[[d [E [Hout Hdir]]]|[E _]]]; try discriminate E.
    injection E as -> ->. now repeat split.
  - intros path H.
    destruct (generate_manifest_event _ _ _ _ _ _ _ _ _ H)
      as [[lvl [msg E]]|[[d [E _]]|[E Hout]]]; try discriminate E.
    injection E as ->. now split.
  - intros e Hout Hne ev H.
    destruct (generate_manifest_event _ _ _ _ _ _ _ _ _ H)
      as [Hlog|[[d [_ [Hok _]]]|[_ Hraise]]]; [exact Hlog| |].
    + fold run in Hok. rewrite Hok in Hout. discriminate Hout.
    + fold run in Hraise. fold manifest_path in Hraise. rewrite Hraise in Hout.
      injection Hout as <-. now contradiction Hne.
Qed.

(** A dump that fails after the file was opened: the run raises, and
    the manifest file has been emptied. *)
Example failing_dump_empties_the_manifest_file :
  let run := generate_manifest failing_dump_env (txt "gog-games") Example.src Example.dst
                               Example.dsts [txt "*_old"] [] false in
  outcome run = Raise (SaveError (txt "/manifests/gog-games.json"))
  /\ In (TruncatedJson (txt "/manifests/gog-games.json")) (events run)
  /\ forall path data, ~ In (SavedJson path data) (events run).
Proof.
  split; [vm_compute; reflexivity|]. split.
  - vm_compute. repeat (try (left; reflexivity); right).
  - intros path data H.
    destruct (generate_manifest_event _ _ _ _ _ _ _ _ _ H)
      as [[lvl [msg E]]|[[d [_ [Hok _]]]|[E _]]]; try discriminate E.
    vm_compute in Hok. discriminate Hok.
Qed.

(** ** The key and the version token of a versioned folder *)

Lemma star_loop_class (A : Type) (p : ascii -> bool) (k : cont A) (s : str) :
  forall fuel b g, length s <= fuel ->
    star_loop (run (Chr p)) true k fuel b s g = greedy_class p k b s g.
Proof.
  induction s as [|c s IH]; intros fuel b g Hlen.
  - destruct fuel as [|fuel]; [reflexivity|]. now rewrite star_loop_greedy_step.
  - destruct fuel as [|fuel]; [simpl in Hlen; lia|].
    rewrite star_loop_greedy_step, run_Chr_cons. cbn [greedy_class].
    destruct (p c); [|reflexivity].
    replace (length s <? length (c :: s)) with true
      by (symmetry; apply Nat.ltb_lt; simpl; lia).
    rewrite IH by (simpl in Hlen; lia). reflexivity.
Qed.

Lemma run_Star (A : Type) (greedy : bool) (r : regex) (k : cont A) (b : bool) (s : str)
      (g : captures) :
  run (Star greedy r) b s g k = star_loop (run r) greedy k (length s) b s g.
Proof. reflexivity. Qed.

Lemma greedy_class_prefix (A : Type) (p : ascii -> bool) (k : cont A) (w s : str)
      (g : captures) (a : A) :
  forallb p w = true ->
  forall b, greedy_class p k (match w with [] => b | _ :: _ => false end) s g = Some a ->
            greedy_class p k b (w ++ s) g = Some a.
Proof.
  induction w as [|c w IH]; intros Hw b H; [exact H|].
  cbn [forallb] in Hw. apply andb_true_iff in Hw. destruct Hw as [Hc Hw].
  cbn [app greedy_class]. rewrite Hc. rewrite (IH Hw false); [reflexivity|].
  now destruct w.
Qed.

Lemma greedy_class_cons (A : Type) (p : ascii -> bool) (k : cont A) (b : bool) (c : ascii)
      (s : str) (g : captures) :
  greedy_class p k b (c :: s) g
  = if p c
    then match greedy_class p k false s g with
         | Some a => Some a
         | None => k b (c :: s) g
         end
    else k b (c :: s) g.
Proof. reflexivity. Qed.

(** The run of the key stops where the literal of the pattern starts:
    every longer run leaves a text that does not start with the
    literal. *)
Lemma greedy_key_stops (A : Type) (k : cont A) (t : str) (a : A) :
  (forall b s, strip_prefix (txt "_windows_gog_(") s = None -> k b s [] = None) ->
  k false (txt "_windows_gog_(" ++ t) [] = Some a ->
  greedy_class key_class k false (txt "_windows_gog_(" ++ t) [] = Some a.
Proof.
  intros Hfail Hok.
  change (txt "_windows_gog_(" ++ t)
    with ("_"%char :: "w"%char :: "i"%char :: "n"%char :: "d"%char :: "o"%char :: "w"%char
          :: "s"%char :: "_"%char :: "g"%char :: "o"%char :: "g"%char :: "_"%char
          :: "("%char :: t) in *.
  rewrite greedy_class_cons. change (key_class "_") with true. cbv iota.
  assert (E : greedy_class key_class k false
                ("w"%char :: "i"%char :: "n"%char :: "d"%char :: "o"%char :: "w"%char
                 :: "s"%char :: "_"%char :: "g"%char :: "o"%char :: "g"%char :: "_"%char
                 :: "("%char :: t) [] = None).
  { repeat (rewrite greedy_class_cons;
            match goal with
            | |- context [key_class ?c] =>
                let v := eval vm_compute in (key_class c) in change (key_class c) with v
            end; cbv iota; rewrite (Hfail false) by reflexivity).
    reflexivity. }
  rewrite E. exact Hok.
Qed.

Lemma replace_delete_char (a : ascii) (s : str) :
  replace [a] [] s = filter (fun c => negb (Ascii.eqb a c)) s.
Proof.
  unfold replace. induction s as [|c s IH]; [reflexivity|].
  cbn [length]. rewrite replace_fuel_step, strip_prefix_cons. cbn [strip_prefix filter].
  destruct (Ascii.eqb a c); cbn [negb app]; now rewrite IH.
Qed.

Lemma version_digits (v : str) :
  forallb version_class v = true ->
  filter (fun c => negb (Ascii.eqb "." c)) v = filter is_digit v.
Proof.
  induction v as [|c v IH]; [reflexivity|]. cbn [forallb filter]. intros H.
  apply andb_true_iff in H. destruct H as [Hc Hv]. rewrite (IH Hv).
  unfold version_class in Hc. rewrite Ascii.eqb_sym.
  destruct (Ascii.eqb_spec c ".") as [->|_]; [reflexivity|].
  rewrite orb_false_r in Hc. now rewrite Hc.
Qed.

Lemma run_Group (A : Type) (n : nat) (r : regex) (k : cont A) (b : bool) (s : str)
      (g : captures) :
  run (Group n r) b s g k
  = run r b s g (fun b' s' g' => k b' s' ((n, firstn (length s - length s') s) :: g')).
Proof. reflexivity. Qed.

Lemma group_plus_greedy (A : Type) (n : nat) (p : ascii -> bool) (k : cont A) (w s' : str)
      (b : bool) (g : captures) (a : A) :
  w <> [] -> forallb p w = true -> stops p s' ->
  k false s' ((n, w) :: g) = Some a ->
  run (Group n (Plus true (Chr p))) b (w ++ s') g k = Some a.
Proof.
  intros Hne Hall Hstop Hk. destruct w as [|c0 w]; [contradiction|].
  cbn [forallb] in Hall. apply andb_true_iff in Hall. destruct Hall as [Hc0 Hall].
  rewrite run_Group. unfold Plus. rewrite run_Cat. cbn [app]. rewrite run_Chr_cons, Hc0.
  apply (@run_star_greedy _ p _ s' a Hstop w); [reflexivity|exact Hall|].
  assert (E : firstn (length (c0 :: w ++ s') - length s') (c0 :: w ++ s') = c0 :: w)
    by apply (firstn_app_exact (c0 :: w) s').
  rewrite E. now destruct w.
Qed.

Lemma versioned_folder_match (key version rest : str) :
  key <> [] -> forallb key_class key = true ->
  version <> [] -> forallb version_class version = true ->
  re_match re_versioned_folder (key ++ txt "_windows_gog_(" ++ version ++ txt ")" ++ rest)
  = Some (MatchObj [(2, version); (1, key)] rest).
Proof.
  intros Hk Hkc Hv Hvc.
  destruct key as [|c0 key]; [contradiction|].
  cbn [forallb] in Hkc. apply andb_true_iff in Hkc. destruct Hkc as [Hc0 Hkc].
  set (tail := version ++ txt ")" ++ rest).
  unfold re_match, re_versioned_folder.
  change (Chr (fun c => is_alnum c || one_of (txt "_.") c)) with (Chr key_class).
  change (Chr (fun c => is_digit c || Ascii.eqb c ".")) with (Chr version_class).
  rewrite run_Cat, run_Group. unfold Plus at 1. rewrite run_Cat. cbn [app].
  rewrite run_Chr_cons, Hc0, run_Star, star_loop_class by lia.
  apply greedy_class_prefix; [exact Hkc|].
  replace (match key with [] => false | _ :: _ => false end) with false by (now destruct key).
  apply greedy_key_stops.
  - intros b s Hs. rewrite run_Cat, run_Lit, Hs. reflexivity.
  - rewrite run_Cat, run_Lit.
    rewrite (proj2 (strip_prefix_spec (txt "_windows_gog_(") (txt "_windows_gog_(" ++ tail) tail)
                   eq_refl).
    rewrite run_Cat. unfold tail.
    apply group_plus_greedy; [exact Hv|exact Hvc|reflexivity|].
    rewrite run_Lit. cbn [txt list_ascii_of_string app strip_prefix].
    change (Ascii.eqb ")" ")") with true. cbv iota. unfold accept.
    do 5 f_equal.
    apply (firstn_app_exact (c0 :: key) (txt "_windows_gog_(" ++ version ++ txt ")" ++ rest)).
Qed.

(** X17.  For the source type [gog-games], a folder named by a key of
    letters, digits, underscores and dots, then [_windows_gog_(], a
    version of digits and dots and [)], whatever follows, has that key
    as its game key, and as its version token the integer that the
    digits of the version write, or [None] when the version has no
    digit. *)
Theorem versioned_folder_key_and_token (key version rest : str) :
  key <> [] -> forallb key_class key = true ->
  version <> [] -> forallb version_class version = true ->
  key_and_version (txt "gog-games")
                  (key ++ txt "_windows_gog_(" ++ version ++ txt ")" ++ rest)
  = (key, int_of_digits (filter is_digit version)).
Proof.
  intros Hk Hkc Hv Hvc. unfold key_and_version.
  change (str_eqb (txt "gog-games") (txt "gog-games")) with true. cbv iota.
  rewrite (versioned_folder_match rest Hk Hkc Hv Hvc). unfold group_text. cbn [m_groups group].
  cbn [Nat.eqb]. change (txt ".") with ["."%char].
  now rewrite replace_delete_char, version_digits.
Qed.

Lemma versioned_folder_key_and_token_witness :
  key_and_version (txt "gog-games")
                  (txt "my.game_2" ++ txt "_windows_gog_(" ++ txt "1.10.3" ++ txt ")" ++ txt "_old")
  = (txt "my.game_2", int_of_digits (filter is_digit (txt "1.10.3"))).
Proof.
  apply versioned_folder_key_and_token; try discriminate; reflexivity.
Defined.

(** ** The details of the info file *)

(** X18.  A game name that [_get_game_details_from_info_file] returns
    holds only ASCII characters, neither starts nor ends with white
    space, and has no white space but single spaces; a version it
    returns neither starts nor ends with white space. *)
Theorem info_file_details_are_normalised
        (env : Env) (game_source_dir : str) (name version : option str) :
  outcome (_get_game_details_from_info_file env game_source_dir) = Ok (name, version) ->
  match name with
  | Some text =>
      forallb (fun c => code c <? 128) text = true
      /\ tight text /\ single_spaced text = true
  | None => True
  end
  /\ match version with
     | Some text => tight text
     | None => True
     end.
Proof.
  unfold _get_game_details_from_info_file, info_error.
  destruct (negb (path_exists env (join game_source_dir (txt "!info.txt")))).
  { rewrite log_then. cbn [ret outcome snd]. intros E. injection E as <- <-. now split. }
  destruct (read_text env (join game_source_dir (txt "!info.txt"))) as [content|].
  2:{ rewrite log_then. cbn [ret outcome snd]. intros E. injection E as <- <-. now split. }
  destruct (nth_error (readlines content) 1) as [line1|].
  2:{ rewrite log_then. cbn [ret outcome snd]. intros E. injection E as <- <-. now split. }
  cbn [ret outcome snd]. intros E. injection E as <- <-. split.
  - match goal with |- match (if ?b then _ else _) with _ => _ end => destruct b end;
      [|exact I].
    unfold re_spaces. rewrite re_sub_plus. split; [|split].
    + apply strip_forallb. apply forallb_forall. intros c Hc.
      apply collapse_In in Hc. destruct Hc as [[<-|[]]|[Hc _]]; [reflexivity|].
      unfold ascii_only in Hc. apply filter_In in Hc. apply Hc.
    + apply strip_tight.
    + apply strip_single_spaced, collapse_single_spaced.
  - destruct (find _ (readlines content)) as [line|]; [|exact I].
    destruct (re_search re_version_line line) as [m|]; [apply strip_tight|exact I].
Qed.

Lemma info_file_details_are_normalised_witness :
  let env := Example.env_of [(txt "/g", [txt "!info.txt"])]
               [(txt "/g/!info.txt",
                 txt "header" ++ [LF] ++ txt "x --  My   Game -- y" ++ [LF]
                   ++ txt "Version:  1.0  " ++ [LF])]
               Example.compile_i in
  outcome (_get_game_details_from_info_file env (txt "/g"))
  = Ok (Some (txt "My Game"), Some (txt "1.0"))
  /\ (forallb (fun c => code c <? 128) (txt "My Game") = true
      /\ tight (txt "My Game") /\ single_spaced (txt "My Game") = true)
  /\ tight (txt "1.0").
Proof.
  intros env.
  assert (H : outcome (_get_game_details_from_info_file env (txt "/g"))
              = Ok (Some (txt "My Game"), Some (txt "1.0"))) by (vm_compute; reflexivity).
  split; [exact H|].
  exact (@info_file_details_are_normalised env (txt "/g") (Some (txt "My Game"))
           (Some (txt "1.0")) H).
Defined.

(** ** The logs that are kept *)







(** Twelve logs: the three oldest go, the other file stays. *)
Example cleanup_of_twelve_logs :
  Logger.cleanup_old_logs example_ctime (fun _ => true) (txt "unpack") (map fst example_logs)
  = [txt "notes.txt"; txt "unpack_04.log"; txt "unpack_05.log"; txt "unpack_06.log";
     txt "unpack_07.log"; txt "unpack_08.log"; txt "unpack_09.log"; txt "unpack_10.log";
     txt "unpack_11.log"; txt "unpack_12.log"].
Proof. vm_compute. reflexivity. Qed.

(** ** A destination that cannot be listed *)

(** X20.  When the first possible destination directory that holds
    the folder of the game is reached and [os.listdir] raises on that
    folder, the search for the destination raises the same error: no
    later directory and not the default one is used. *)
Theorem unlistable_destination_raises
        (env : Env) (before after : list str) (d folder_name game_dest_dir : str) :
  Forall (fun d' => unpopulated env (join d' folder_name)) before ->
  path_exists env (join d folder_name) = true ->
  listdir env (join d folder_name) = None ->
  outcome (existing_dest_dir env (before ++ d :: after) folder_name game_dest_dir)
  = Raise (OSError (join d folder_name)).
Proof.
  intros Hbefore He Hl. induction Hbefore as [|x before Hx _ IH]; cbn [app existing_dest_dir].
  - rewrite He. unfold os_listdir. rewrite Hl. reflexivity.
  - destruct Hx as [Hx|[Hx Hlx]]; rewrite Hx; [exact IH|].
    unfold os_listdir. rewrite Hlx. rewrite (bind_outcome _ _ (a:=[])) by reflexivity.
    exact IH.
Qed.

Lemma unlistable_destination_raises_witness :
  outcome (existing_dest_dir Example.env ([txt "/dst1/Mygame"] ++ txt "/dst2/Mygame" :: [])
                             (txt "game.exe") (txt "/dst/game.exe"))
  = Raise (OSError (join (txt "/dst2/Mygame") (txt "game.exe"))).
Proof.
  apply (@unlistable_destination_raises Example.env [txt "/dst1/Mygame"] []
           (txt "/dst2/Mygame") (txt "game.exe") (txt "/dst/game.exe")).
  - constructor; [|constructor]. left. vm_compute. reflexivity.
  - vm_compute. reflexivity.
  - vm_compute. reflexivity.
Defined.

(** ** White space and letters beyond the ASCII range *)

(** The no-break space is white space for [strip] and for the pattern
    of a metadata line, and an accented letter belongs to a key. *)
Example no_break_space_is_stripped :
  let value := [NBSP] ++ txt "NONE" ++ [NBSP] in
  let d := Utils.Disk [] (fun _ => false) in
  strip value = txt "NONE"
  /\ read_back (Some value) = None
  /\ valid_key accented_key = true
  /\ snd (Utils.read_meta_file
            (fst (snd (Utils.create_meta_file d (txt "/dst/G")
                         [(accented_key, Some value);
                          (txt "name", Some (txt "a" ++ [NBSP] ++ txt "b"))])))
            (txt "/dst/G"))
     = [(accented_key, None); (txt "name", Some (txt "a" ++ [NBSP] ++ txt "b"))].
Proof. repeat split; vm_compute; reflexivity. Qed.

(** A key that is one no-break space gives the empty name. *)
Example no_break_space_key_has_empty_name :
  outcome (_get_game_details Example.env (txt "default") [NBSP] (txt "/nowhere"))
  = Ok ([], None)
  /\ forallb (fun c => is_space c || Ascii.eqb c "_") [NBSP] = true.
Proof. split; vm_compute; reflexivity. Qed.

(** A source directory that ends with a no-break space is written
    without it, so the game is not found up to date. *)
Example padded_source_directory_is_extracted_again :
  let game_data := GameRecord (txt "Game") (Some (txt "1.2")) (txt "/src/g" ++ [NBSP])
                              (txt "/dst/Game") [txt "setup_game.exe"] in
  let d := fst (snd (Utils.create_meta_file (Utils.Disk [] (fun _ => false)) (txt "/dst/Game")
                       (Unpack.meta_data None None game_data))) in
  Unpack.up_to_date d true false game_data = false
  /\ Unpack.meta_get (txt "source_directory") (snd (Utils.read_meta_file d (txt "/dst/Game")))
     = Some (txt "/src/g").
Proof. split; vm_compute; reflexivity. Qed.
